(** * greenLight_copy: a shallow embedding of the movie catalogue API

    The development follows the Go packages of the repository:
    [validator] (internal/validator), [data] (internal/data: filters,
    movies, users, tokens) and [api] (cmd/api: helpers, error responses,
    middleware and handlers).  Part I holds the embedding, Part II the
    properties proved about it.

    Conventions.
    - A Go [string] is a byte sequence: Rocq's [string].  [len(s)] is
      [String.length s].
    - Go's [int] is the 64-bit two's complement integer; it is carried by
      [Z] and arithmetic that can leave the range is wrapped by [wrap_int].
    - A pointer receiver that is updated in place ([*Validator], [*Movie],
      [http.ResponseWriter]) is passed in and returned.
    - A function that can panic returns an [outcome]. *)

From Stdlib Require Import ZArith Lia String Ascii List Bool.
From Stdlib.Strings Require Import Byte.
From Stdlib Require Import DecimalString DecimalPos.
From Stdlib Require Import SpecFloat.
From stdpp Require Import gmap strings list.

Local Open Scope string_scope.
Local Open Scope Z_scope.

(** * Part I: the embedding *)

(** ** Go runtime pieces used by the packages *)

Inductive outcome (A : Type) : Type :=
| Returned (a : A)
| Panic (message : string).
Arguments Returned {A} a.
Arguments Panic {A} message.

Definition int_min : Z := - 2 ^ 63.
Definition int_max : Z := 2 ^ 63 - 1.

(** Two's complement wrap-around of a 64-bit [int]. *)
Definition wrap_int (z : Z) : Z := (z + 2 ^ 63) mod 2 ^ 64 - 2 ^ 63.

Module strings.

(** [strings.HasPrefix(s, prefix)] *)
Fixpoint HasPrefix (s prefix : string) {struct prefix} : bool :=
  match prefix, s with
  | EmptyString, _ => true
  | String _ _, EmptyString => false
  | String p prefix', String c s' => Ascii.eqb c p && HasPrefix s' prefix'
  end.

(** The slice expression [s[n:]]. *)
Fixpoint from (n : nat) (s : string) : string :=
  match n, s with
  | O, _ => s
  | S _, EmptyString => EmptyString
  | S n', String _ s' => from n' s'
  end.

(** [strings.TrimPrefix(s, prefix)]: [s[len(prefix):]] when [s] starts
    with [prefix], and [s] itself otherwise. *)
Definition TrimPrefix (s prefix : string) : string :=
  if HasPrefix s prefix then from (String.length prefix) s else s.

(** [strings.Split(s, sep)] for a one-byte separator: the pieces of [s]
    between the occurrences of [sep]; one more piece than there are
    separators, so the empty string splits into one empty piece. *)
Fixpoint Split (s : string) (sep : ascii) : list string :=
  match s with
  | EmptyString => [EmptyString]
  | String c rest =>
      if Ascii.eqb c sep then EmptyString :: Split rest sep
      else match Split rest sep with
           | piece :: pieces => String c piece :: pieces
           | [] => [String c EmptyString]
           end
  end.

End strings.

Module strconv.

Fixpoint digits (acc : Z) (s : string) : option Z :=
  match s with
  | EmptyString => Some acc
  | String c rest =>
      let n := Z.of_nat (nat_of_ascii c) in
      if (48 <=? n) && (n <=? 57) then digits (10 * acc + (n - 48)) rest
      else None
  end.

(** [strconv.ParseInt(s, 10, bitSize)]: an optional sign, then one or more
    decimal digits, the value within the signed range of [bitSize] bits. *)
Definition ParseInt (s : string) (bitSize : Z) : option Z :=
  let '(negative, body) :=
    match s with
    | String "+"%char rest => (false, rest)
    | String "-"%char rest => (true, rest)
    | _ => (false, s)
    end in
  match body with
  | EmptyString => None
  | _ =>
      match digits 0 body with
      | None => None
      | Some n =>
          let z := if negative then - n else n in
          if (- 2 ^ (bitSize - 1) <=? z) && (z <=? 2 ^ (bitSize - 1) - 1)
          then Some z else None
      end
  end.

(** The verb [%d] of package [fmt]. *)
Definition Itoa (z : Z) : string := NilZero.string_of_int (Z.to_int z).

(** [strconv.Atoi(s)]: [ParseInt(s, 10, 0)], the range being that of the
    64-bit [int]. *)
Definition Atoi (s : string) : option Z := ParseInt s 64.

End strconv.

Module url.

(** [url.Values]: the values of each parameter of a query string. *)
Abbreviation Values := (gmap string (list string)).

(** [Values.Get(key)]: the first value of [key], or the empty string. *)
Definition Get (key : string) (v : Values) : string :=
  match v !! key with
  | Some (value :: _) => value
  | _ => ""
  end.

End url.

(** [float64] and package [math].  A [float64] is an IEEE 754 binary64
    number, in the Standard Library's formalisation: 53 bits of precision,
    infinities at the exponent 1024, and rounding to nearest, ties to
    even. *)

Module float64.

Definition t : Type := spec_float.

(** The conversion [float64(i)] of an [int]. *)
Definition of_int (i : Z) : t := binary_normalize 53 1024 i 0 false.

(** The operator [/]. *)
Definition div (x y : t) : t := SFdiv 53 1024 x y.

(** [math.Ceil(x)]: the least integral value not below [x]; zeros,
    infinities and NaN are returned as they are.  A finite number with no
    fractional bits is its own ceiling. *)
Definition Ceil (x : t) : t :=
  match x with
  | S754_finite s m e =>
      if 0 <=? e then x
      else
        let z := if s then - (Zpos m / 2 ^ (- e))
                 else (Zpos m + 2 ^ (- e) - 1) / 2 ^ (- e) in
        if z =? 0 then S754_zero s else binary_normalize 53 1024 z 0 s
  | _ => x
  end.

(** Go leaves the conversion of a [float64] that no [int] represents (NaN,
    an infinity, a magnitude of 2^63 or more) to the implementation; this
    is the value the amd64 instruction gives. *)
Definition indefinite : Z := - 2 ^ 63.

(** The conversion [int(x)]: the fraction is discarded. *)
Definition to_int (x : t) : Z :=
  match x with
  | S754_zero _ => 0
  | S754_finite s m e =>
      let magnitude := if 0 <=? e then Zpos m * 2 ^ e else Zpos m / 2 ^ (- e) in
      let z := if s then - magnitude else magnitude in
      if (int_min <=? z) && (z <=? int_max) then z else indefinite
  | _ => indefinite
  end.

End float64.

(** ** Errors

    The error values the packages create, compare and pass on.  Go compares
    the sentinels by identity ([errors.Is] without wrapping, which this code
    never does), so each is a constructor of its own; [Error] is the text of
    the value's [Error()] method.  [pq_Error] is the driver's [*pq.Error],
    whose text is the server's message behind the prefix the driver adds;
    [foreign_error] is any other error value of a library (a lost
    connection, an expired deadline, a failing random source). *)

Inductive error : Type :=
| ErrRecordNotFound
| ErrEditConflict
| ErrDuplicateEmail
| ErrInvalidRuntimeFormat
| sql_ErrNoRows
| pq_Error (message : string)
| foreign_error (text : string).

Definition Error (err : error) : string :=
  match err with
  | ErrRecordNotFound => "record not found"
  | ErrEditConflict => "edit conflict"
  | ErrDuplicateEmail => "duplicate email"
  | ErrInvalidRuntimeFormat => "invalid runtime format"
  | sql_ErrNoRows => "sql: no rows in result set"
  | pq_Error message => "pq: " ++ message
  | foreign_error text => text
  end.

#[global] Instance error_eq_dec : EqDecision error.
Proof. solve_decision. Defined.

(** [errors.Is(err, target)] for the unwrapped errors of this code. *)
Definition errors_Is (err target : error) : bool := bool_decide (err = target).

(** A double quote, for the messages that contain one. *)
Definition dquote : string := String (ascii_of_nat 34) EmptyString.

#[global] Instance byte_eq_dec : EqDecision byte := Byte.byte_eq_dec.

(** ** Library functions the packages call

    [crypto/sha256], [encoding/base32] and [crypto/rand] belong to Go's
    standard library.  The first two are written out after their
    specifications (FIPS 180-4, RFC 4648) so that tokens can be computed;
    the test vectors of both documents are checked in Part II. *)

Definition bytes_of_string (s : string) : list byte := list_byte_of_string s.

Definition byte_of_Z (z : Z) : byte :=
  default x00 (Byte.of_N (Z.to_N (z mod 256))).

Definition Z_of_byte (b : byte) : Z := Z.of_N (Byte.to_N b).

Module sha256.

Definition w32 (x : Z) : Z := x mod 2 ^ 32.
Definition rotr (n x : Z) : Z :=
  w32 (Z.lor (Z.shiftr x n) (Z.shiftl x (32 - n))).
Definition Ch (x y z : Z) : Z :=
  Z.lxor (Z.land x y) (Z.land (Z.lxor x (2 ^ 32 - 1)) z).
Definition Maj (x y z : Z) : Z :=
  Z.lxor (Z.lxor (Z.land x y) (Z.land x z)) (Z.land y z).
Definition Sigma0 (x : Z) : Z := Z.lxor (Z.lxor (rotr 2 x) (rotr 13 x)) (rotr 22 x).
Definition Sigma1 (x : Z) : Z := Z.lxor (Z.lxor (rotr 6 x) (rotr 11 x)) (rotr 25 x).
Definition sigma0 (x : Z) : Z := Z.lxor (Z.lxor (rotr 7 x) (rotr 18 x)) (Z.shiftr x 3).
Definition sigma1 (x : Z) : Z := Z.lxor (Z.lxor (rotr 17 x) (rotr 19 x)) (Z.shiftr x 10).

Definition K : list Z :=
  [ 1116352408; 1899447441; 3049323471; 3921009573;
    961987163; 1508970993; 2453635748; 2870763221;
    3624381080; 310598401; 607225278; 1426881987;
    1925078388; 2162078206; 2614888103; 3248222580;
    3835390401; 4022224774; 264347078; 604807628;
    770255983; 1249150122; 1555081692; 1996064986;
    2554220882; 2821834349; 2952996808; 3210313671;
    3336571891; 3584528711; 113926993; 338241895;
    666307205; 773529912; 1294757372; 1396182291;
    1695183700; 1986661051; 2177026350; 2456956037;
    2730485921; 2820302411; 3259730800; 3345764771;
    3516065817; 3600352804; 4094571909; 275423344;
    430227734; 506948616; 659060556; 883997877;
    958139571; 1322822218; 1537002063; 1747873779;
    1955562222; 2024104815; 2227730452; 2361852424;
    2428436474; 2756734187; 3204031479; 3329325298 ].

Definition H0 : list Z :=
  [ 1779033703; 3144134277; 1013904242; 2773480762;
    1359893119; 2600822924; 528734635; 1541459225 ].

(** The message followed by the bit 1, zeros and its length in bits as a
    64-bit big-endian number, filling a whole number of 64-byte blocks. *)
Definition pad (msg : list Z) : list Z :=
  let n := Z.of_nat (length msg) in
  let zeros := Z.to_nat ((55 - n) mod 64) in
  msg ++ [128] ++ repeat 0 zeros
      ++ map (fun i => Z.shiftr (8 * n) (8 * (7 - Z.of_nat i)) mod 256) (seq 0 8).

(** Big-endian words of a byte sequence, four bytes to a word. *)
Fixpoint words (bs : list Z) : list Z :=
  match bs with
  | a :: b :: c :: d :: rest =>
      (a * 2 ^ 24 + b * 2 ^ 16 + c * 2 ^ 8 + d) :: words rest
  | _ => []
  end.

Fixpoint blocks (n : nat) (ws : list Z) : list (list Z) :=
  match n with
  | O => []
  | S n' => take 16 ws :: blocks n' (drop 16 ws)
  end.

(** The message schedule, latest word first. *)
Fixpoint schedule (n : nat) (rw : list Z) : list Z :=
  match n with
  | O => rw
  | S n' =>
      let w := w32 (sigma1 (nth 1 rw 0) + nth 6 rw 0
                    + sigma0 (nth 14 rw 0) + nth 15 rw 0) in
      schedule n' (w :: rw)
  end.

Definition round (st : list Z) (kw : Z * Z) : list Z :=
  match st with
  | [a; b; c; d; e; f; g; h] =>
      let t1 := h + Sigma1 e + Ch e f g + fst kw + snd kw in
      let t2 := Sigma0 a + Maj a b c in
      [w32 (t1 + t2); a; b; c; w32 (d + t1); e; f; g]
  | _ => st
  end.

Definition compress (h : list Z) (block : list Z) : list Z :=
  let w := rev (schedule 48 (rev block)) in
  let st := fold_left round (combine K w) h in
  map (fun p => w32 (fst p + snd p)) (combine h st).

Definition word_bytes (w : Z) : list Z :=
  [Z.shiftr w 24 mod 256; Z.shiftr w 16 mod 256; Z.shiftr w 8 mod 256; w mod 256].

(** [sha256.Sum256(data)], as the 32 bytes of the digest. *)
Definition Sum256 (data : list byte) : list byte :=
  let ws := words (pad (map Z_of_byte data)) in
  let h := fold_left compress (blocks (length ws / 16) ws) H0 in
  map byte_of_Z (concat (map word_bytes h)).

End sha256.

Module base32.

Definition encodeStd : string := "ABCDEFGHIJKLMNOPQRSTUVWXYZ234567".

Definition digit (i : Z) : ascii :=
  default "A"%char (String.get (Z.to_nat (i mod 32)) encodeStd).

(** The eight five-bit values of one group of up to five bytes; a missing
    byte counts as zero. *)
Definition group (b0 b1 b2 b3 b4 : Z) : list Z :=
  [ Z.shiftr b0 3;
    Z.lor (Z.shiftl b0 2) (Z.shiftr b1 6) mod 32;
    Z.shiftr b1 1 mod 32;
    Z.lor (Z.shiftl b1 4) (Z.shiftr b2 4) mod 32;
    Z.lor (Z.shiftl b2 1) (Z.shiftr b3 7) mod 32;
    Z.shiftr b3 2 mod 32;
    Z.lor (Z.shiftl b3 3) (Z.shiftr b4 5) mod 32;
    b4 mod 32 ].

(** Whole groups give eight digits; a last group of one, two, three or
    four bytes gives two, four, five or seven, and no padding follows. *)
Fixpoint encode (src : list Z) : list Z :=
  match src with
  | [] => []
  | [b0] => take 2 (group b0 0 0 0 0)
  | [b0; b1] => take 4 (group b0 b1 0 0 0)
  | [b0; b1; b2] => take 5 (group b0 b1 b2 0 0)
  | [b0; b1; b2; b3] => take 7 (group b0 b1 b2 b3 0)
  | b0 :: b1 :: b2 :: b3 :: b4 :: rest => group b0 b1 b2 b3 b4 ++ encode rest
  end.

(** [base32.StdEncoding.WithPadding(base32.NoPadding).EncodeToString(src)] *)
Definition EncodeToString (src : list byte) : string :=
  string_of_list_ascii (map digit (encode (map Z_of_byte src))).

End base32.

Module rand.

(** The operating system's random source at the moment of a call: it
    fails, or it yields a sequence of bytes. *)
Inductive source : Type :=
| failing (err : error)
| yielding (bytes : nat → byte).

(** [rand.Read(b)] for a slice of [n] bytes: the slice filled, or the
    error. *)
Definition Read (src : source) (n : nat) : list byte + error :=
  match src with
  | failing err => inr err
  | yielding bytes => inl (map bytes (seq 0 n))
  end.

End rand.

(** Lower-case hexadecimal text of a byte sequence. *)
Definition hex (bs : list byte) : string :=
  let nibble (n : Z) : ascii :=
    default "0"%char (String.get (Z.to_nat n) "0123456789abcdef") in
  string_of_list_ascii
    (flat_map (fun b => [nibble (Z_of_byte b / 16); nibble (Z_of_byte b mod 16)]) bs).

(** [regexp]: regular expressions over bytes, matched by derivatives.  Only
    the operators that [EmailRX] uses are present; a pattern anchored by
    [^] and [$] matches the whole text. *)

Module regexp.

Inductive Regexp : Type :=
| Nothing
| Empty
| Class (member : ascii → bool)
| Cat (r1 r2 : Regexp)
| Alt (r1 r2 : Regexp)
| Star (r : Regexp)
| Repeat (lo hi : nat) (r : Regexp).

Definition Plus (r : Regexp) : Regexp := Cat r (Star r).
Definition Opt (r : Regexp) : Regexp := Alt Empty r.

Fixpoint nullable (r : Regexp) : bool :=
  match r with
  | Nothing => false
  | Empty => true
  | Class _ => false
  | Cat r1 r2 => nullable r1 && nullable r2
  | Alt r1 r2 => nullable r1 || nullable r2
  | Star _ => true
  | Repeat lo _ r => Nat.eqb lo 0 || nullable r
  end.

Fixpoint derive (c : ascii) (r : Regexp) : Regexp :=
  match r with
  | Nothing => Nothing
  | Empty => Nothing
  | Class member => if member c then Empty else Nothing
  | Cat r1 r2 =>
      if nullable r1 then Alt (Cat (derive c r1) r2) (derive c r2)
      else Cat (derive c r1) r2
  | Alt r1 r2 => Alt (derive c r1) (derive c r2)
  | Star r1 => Cat (derive c r1) (Star r1)
  | Repeat _ O _ => Nothing
  | Repeat lo (S hi) r1 => Cat (derive c r1) (Repeat (Nat.pred lo) hi r1)
  end.

Fixpoint MatchString (r : Regexp) (s : string) : bool :=
  match s with
  | EmptyString => nullable r
  | String c rest => MatchString (derive c r) rest
  end.

Definition between (lo hi c : ascii) : bool :=
  (nat_of_ascii lo <=? nat_of_ascii c)%nat && (nat_of_ascii c <=? nat_of_ascii hi)%nat.

Fixpoint one_of (set : string) (c : ascii) : bool :=
  match set with
  | EmptyString => false
  | String x rest => Ascii.eqb c x || one_of rest c
  end.

End regexp.

(** ** Package validator *)

Module validator.

Record Validator : Type := { Errors : gmap string string }.

Definition New : Validator := {| Errors := ∅ |}.

(** [len(v.Errors) == 0] *)
Definition Valid (v : Validator) : bool := Nat.eqb (size (Errors v)) 0.

(** The entry is written only when the key has none yet. *)
Definition AddError (key message : string) (v : Validator) : Validator :=
  match Errors v !! key with
  | Some _ => v
  | None => {| Errors := <[key := message]> (Errors v) |}
  end.

Definition Check (ok : bool) (key message : string) (v : Validator)
  : Validator :=
  if negb ok then AddError key message v else v.

(** [In(value, list...)] *)
Fixpoint In (value : string) (list : list string) : bool :=
  match list with
  | [] => false
  | x :: rest => if String.eqb value x then true else In value rest
  end.

(** [Unique(values)]: the values are put in a set (the keys of a
    [map[string]bool]) and the two sizes are compared. *)
Definition Unique (values : list string) : bool :=
  Nat.eqb (length values) (size (list_to_set values : gset string)).

Definition alnum (c : ascii) : bool :=
  regexp.between "a" "z" c || regexp.between "A" "Z" c || regexp.between "0" "9" c.

(** One label of the domain: [[a-zA-Z0-9](?:[a-zA-Z0-9-]{0,61}[a-zA-Z0-9])?] *)
Definition EmailRX_label : regexp.Regexp :=
  regexp.Cat (regexp.Class alnum)
    (regexp.Opt
       (regexp.Cat
          (regexp.Repeat 0 61 (regexp.Class (fun c => alnum c || regexp.one_of "-" c)))
          (regexp.Class alnum))).

(** [^[a-zA-Z0-9.!#$%&'*+/=?^_`{|}~-]+@label(?:\.label)*$] *)
Definition EmailRX : regexp.Regexp :=
  regexp.Cat
    (regexp.Plus
       (regexp.Class (fun c => alnum c || regexp.one_of ".!#$%&'*+/=?^_`{|}~-" c)))
    (regexp.Cat (regexp.Class (regexp.one_of "@"))
       (regexp.Cat EmailRX_label
          (regexp.Star (regexp.Cat (regexp.Class (regexp.one_of ".")) EmailRX_label)))).

Definition Matches (value : string) (rx : regexp.Regexp) : bool :=
  regexp.MatchString rx value.

End validator.

(** ** Package data: filters *)

Module data.

Record Filters : Type := {
  Page : Z;
  PageSize : Z;
  Sort : string;
  SortSafelist : list string
}.

(** The loop of [sortColumn] over the safelist; falling out of the loop
    is the panic. *)
Fixpoint sortColumn_range (sort : string) (safelist : list string)
  : outcome string :=
  match safelist with
  | [] => Panic ("unsafe sort parameter:" ++ sort)
  | safeValue :: rest =>
      if String.eqb sort safeValue
      then Returned (strings.TrimPrefix sort "-")
      else sortColumn_range sort rest
  end.

Definition sortColumn (f : Filters) : outcome string :=
  sortColumn_range (Sort f) (SortSafelist f).

Definition sortDirection (f : Filters) : string :=
  if strings.HasPrefix (Sort f) "-" then "DESC" else "ASC".

Definition ValidateFilters (v : validator.Validator) (f : Filters)
  : validator.Validator :=
  let v := validator.Check (0 <? Page f) "page" "must be greater than zero" v in
  let v := validator.Check (Page f <=? 10000000) "page" "must be a maximum of 10 million" v in
  let v := validator.Check (0 <? PageSize f) "page_size" "must be greater than zero" v in
  let v := validator.Check (PageSize f <=? 100) "page_size" "must be a maximum of 100" v in
  validator.Check (validator.In (Sort f) (SortSafelist f)) "sort" "invalid sort value" v.

Definition limit (f : Filters) : Z := PageSize f.

(** [(f.Page - 1) * f.PageSize] in 64-bit arithmetic. *)
Definition offset (f : Filters) : Z :=
  wrap_int (wrap_int (Page f - 1) * PageSize f).

(** The statement text [GetAll] builds before it touches the store.  Go
    evaluates the arguments of [fmt.Sprintf] left to right, so a panic of
    [sortColumn] leaves no statement at all.  The layout of the raw
    string literal is reduced to single spaces. *)
Definition GetAll_query (filters : Filters) : outcome string :=
  match sortColumn filters with
  | Panic message => Panic message
  | Returned column =>
      Returned
        ("SELECT count(*) OVER(), id, created_at, title, year, runtime, genres, version"
         ++ " FROM movies"
         ++ " WHERE (to_tsvector('simple', title) @@ plainto_tsquery('simple', $1) OR $1 = '')"
         ++ " AND (genres @> $2 OR $2 = '{}')"
         ++ " ORDER BY " ++ column ++ " " ++ sortDirection filters ++ ", id ASC"
         ++ " LIMIT $3 OFFSET $4")
  end.

(** *** Pagination metadata *)

Module Metadata.
Record t : Type := {
  CurrentPage : Z;
  PageSize : Z;
  FirstPage : Z;
  LastPage : Z;
  TotalRecords : Z
}.
Definition zero : t :=
  {| CurrentPage := 0; PageSize := 0; FirstPage := 0; LastPage := 0;
     TotalRecords := 0 |}.
End Metadata.

Definition calculateMetadata (totalRecords page pageSize : Z) : Metadata.t :=
  if totalRecords =? 0 then Metadata.zero
  else
    {| Metadata.CurrentPage := page;
       Metadata.PageSize := pageSize;
       Metadata.FirstPage := 1;
       Metadata.LastPage :=
         float64.to_int
           (float64.Ceil
              (float64.div (float64.of_int totalRecords) (float64.of_int pageSize)));
       Metadata.TotalRecords := totalRecords |}.

(** ** Package data: the records *)

Module Movie.
Record t : Type := {
  ID : Z;
  CreatedAt : Z;
  Title : string;
  Year : Z;
  Runtime : Z;
  Genres : option (list string);
  Version : Z
}.
Definition with_Title (x : string) (m : t) : t :=
  {| ID := ID m; CreatedAt := CreatedAt m; Title := x; Year := Year m;
     Runtime := Runtime m; Genres := Genres m; Version := Version m |}.
Definition with_Year (x : Z) (m : t) : t :=
  {| ID := ID m; CreatedAt := CreatedAt m; Title := Title m; Year := x;
     Runtime := Runtime m; Genres := Genres m; Version := Version m |}.
Definition with_Runtime (x : Z) (m : t) : t :=
  {| ID := ID m; CreatedAt := CreatedAt m; Title := Title m; Year := Year m;
     Runtime := x; Genres := Genres m; Version := Version m |}.
Definition with_Genres (x : option (list string)) (m : t) : t :=
  {| ID := ID m; CreatedAt := CreatedAt m; Title := Title m; Year := Year m;
     Runtime := Runtime m; Genres := x; Version := Version m |}.
Definition with_Version (x : Z) (m : t) : t :=
  {| ID := ID m; CreatedAt := CreatedAt m; Title := Title m; Year := Year m;
     Runtime := Runtime m; Genres := Genres m; Version := x |}.
End Movie.

Module password.
Record t : Type := {
  plaintext : option string;
  hash : option (list byte)
}.
End password.

Module User.
Record t : Type := {
  ID : Z;
  CreatedAt : Z;
  Name : string;
  Email : string;
  Password : password.t;
  Activated : bool;
  Version : Z
}.
Definition zero : t :=
  {| ID := 0; CreatedAt := 0; Name := ""; Email := "";
     Password := {| password.plaintext := None; password.hash := None |};
     Activated := false; Version := 0 |}.
Definition with_row (id created_at version : Z) (u : t) : t :=
  {| ID := id; CreatedAt := created_at; Name := Name u; Email := Email u;
     Password := Password u; Activated := Activated u; Version := version |}.
Definition with_Version (x : Z) (u : t) : t :=
  {| ID := ID u; CreatedAt := CreatedAt u; Name := Name u; Email := Email u;
     Password := Password u; Activated := Activated u; Version := x |}.
Definition with_Password (x : password.t) (u : t) : t :=
  {| ID := ID u; CreatedAt := CreatedAt u; Name := Name u; Email := Email u;
     Password := x; Activated := Activated u; Version := Version u |}.
Definition with_Activated (x : bool) (u : t) : t :=
  {| ID := ID u; CreatedAt := CreatedAt u; Name := Name u; Email := Email u;
     Password := Password u; Activated := x; Version := Version u |}.
End User.

(** A [*User] as the request context holds it: the package-level
    [AnonymousUser] pointer, or a pointer to a user read from the store.
    [IsAnonymous] compares pointers, so a loaded user is never anonymous,
    whatever its fields. *)
Inductive user_pointer : Type :=
| AnonymousUser
| loaded (u : User.t).

Definition IsAnonymous (p : user_pointer) : bool :=
  match p with
  | AnonymousUser => true
  | loaded _ => false
  end.

(** The user a pointer leads to; [AnonymousUser] points to a [User] with
    every field zero. *)
Definition deref (p : user_pointer) : User.t :=
  match p with
  | AnonymousUser => User.zero
  | loaded u => u
  end.

Module Token.
Record t : Type := {
  Plaintext : string;
  Hash : list byte;
  UserID : Z;
  Expiry : Z;
  Scope : string
}.
End Token.

Definition ScopeActivation : string := "activation".
Definition ScopeAuthentication : string := "authentication".

(** ** Package data: the backing store

    The tables the statements of the package read and write, each row under
    its primary key.  A time is a count of nanoseconds.  A column holds
    [None] for SQL's NULL. *)

Module movies.
Record row : Type := {
  created_at : Z;
  title : string;
  year : Z;
  runtime : Z;
  genres : option (list string);
  version : Z
}.
End movies.

Module users.
Record row : Type := {
  created_at : Z;
  name : string;
  email : string;
  password_hash : option (list byte);
  activated : bool;
  version : Z
}.
End users.

Module tokens.
Record row : Type := {
  hash : list byte;
  user_id : Z;
  expiry : Z;
  scope : string
}.
End tokens.

Module DB.
Record t : Type := {
  movies : gmap Z movies.row;
  users : gmap Z users.row;
  users_id_seq : Z;
  tokens : list tokens.row;
  permissions : list (Z * string);
  users_permissions : list (Z * Z)
}.
Definition with_movies (x : gmap Z movies.row) (d : t) : t :=
  {| movies := x; users := users d; users_id_seq := users_id_seq d;
     tokens := tokens d; permissions := permissions d;
     users_permissions := users_permissions d |}.
Definition with_users (x : gmap Z users.row) (seq : Z) (d : t) : t :=
  {| movies := movies d; users := x; users_id_seq := seq;
     tokens := tokens d; permissions := permissions d;
     users_permissions := users_permissions d |}.
Definition with_tokens (x : list tokens.row) (d : t) : t :=
  {| movies := movies d; users := users d; users_id_seq := users_id_seq d;
     tokens := x; permissions := permissions d;
     users_permissions := users_permissions d |}.
Definition with_users_permissions (x : list (Z * Z)) (d : t) : t :=
  {| movies := movies d; users := users d; users_id_seq := users_id_seq d;
     tokens := tokens d; permissions := permissions d;
     users_permissions := x |}.
End DB.

(** The [version] columns are of PostgreSQL's four-byte [integer] type (the
    Go field of a movie is an [int32]); the server refuses a value above
    this bound instead of wrapping. *)
Definition pg_integer_max : Z := 2147483647.

(** What a statement hands back to [Scan]: the columns of the first result
    row, [sql.ErrNoRows] when there is none, or the error of the driver.

    Every method takes the state of the driver, [drv], for the one statement
    it runs: [None] when the statement reaches the server and is executed
    against the tables, [Some err] when the driver reports [err] instead
    (no connection, the three-second deadline, a constraint of the schema
    that is not modelled here) and the tables stay as they are. *)
Inductive scanned (A : Type) : Type :=
| row_of (a : A)
| scan_error (err : error).
Arguments row_of {A} a.
Arguments scan_error {A} err.

(** [UPDATE movies SET title = $1, year = $2, runtime = $3, genres = $4,
    version = version + 1 WHERE id = $5 AND version = $6 RETURNING version] *)
Definition update_movies (title : string) (year runtime : Z)
    (genres : option (list string)) (id version : Z) (d : DB.t)
  : scanned Z * DB.t :=
  match DB.movies d !! id with
  | Some r =>
      if movies.version r =? version then
        if pg_integer_max <? movies.version r + 1
        then (scan_error (pq_Error "integer out of range"), d)
        else
          let r' := {| movies.created_at := movies.created_at r;
                       movies.title := title; movies.year := year;
                       movies.runtime := runtime; movies.genres := genres;
                       movies.version := movies.version r + 1 |} in
          (row_of (movies.version r'), DB.with_movies (<[id := r']> (DB.movies d)) d)
      else (scan_error sql_ErrNoRows, d)
  | None => (scan_error sql_ErrNoRows, d)
  end.

(** [SELECT id, created_at, title, year, runtime, genres, version
    FROM movies WHERE id = $1] *)
Definition select_movie (id : Z) (d : DB.t) : scanned Movie.t :=
  match DB.movies d !! id with
  | Some r =>
      row_of {| Movie.ID := id; Movie.CreatedAt := movies.created_at r;
                Movie.Title := movies.title r; Movie.Year := movies.year r;
                Movie.Runtime := movies.runtime r;
                Movie.Genres := movies.genres r;
                Movie.Version := movies.version r |}
  | None => scan_error sql_ErrNoRows
  end.

Definition movies_pkey_violation : string :=
  "duplicate key value violates unique constraint " ++ dquote ++ "movies_pkey" ++ dquote.

(** [INSERT INTO movies (title, year, runtime, genres)
    VALUES ($1, $2, $3, $4) RETURNING id, created_at, version].
    The three returned columns are filled in by the server: [id] is the
    number its sequence hands out, [created_at] and [version] are the
    defaults of the two columns. *)
Definition insert_movies (id created_at version : Z) (title : string)
    (year runtime : Z) (genres : option (list string)) (d : DB.t)
  : scanned (Z * Z * Z) * DB.t :=
  match DB.movies d !! id with
  | Some _ => (scan_error (pq_Error movies_pkey_violation), d)
  | None =>
      let r := {| movies.created_at := created_at; movies.title := title;
                  movies.year := year; movies.runtime := runtime;
                  movies.genres := genres; movies.version := version |} in
      (row_of (id, created_at, version),
       DB.with_movies (<[id := r]> (DB.movies d)) d)
  end.

(** [DELETE FROM movies WHERE id = $1], with the number of rows it
    affected. *)
Definition delete_movies (id : Z) (d : DB.t) : Z * DB.t :=
  match DB.movies d !! id with
  | Some _ => (1, DB.with_movies (delete id (DB.movies d)) d)
  | None => (0, d)
  end.

(** What the store hands back for the statement of [GetAll]:
    [QueryContext] fails, or there are rows, each scanned into the window
    count and a movie or failing to scan, and behind the last one the
    value of [rows.Err()]. *)
Inductive listing : Type :=
| refused (err : error)
| listed (rows : list (Z * Movie.t + error)) (err : option error).

(** The loop of [GetAll] over the rows: the count of the row scanned last
    and the movies appended so far. *)
Fixpoint GetAll_rows (rows : list (Z * Movie.t + error)) (totalRecords : Z)
    (movies : list Movie.t) : Z * list Movie.t + error :=
  match rows with
  | [] => inl (totalRecords, movies)
  | inr err :: _ => inr err
  | inl (count, movie) :: rest => GetAll_rows rest count (movies ++ [movie])
  end.

Module MovieModel.

Definition Get (drv : option error) (id : Z) (d : DB.t) : Movie.t + error :=
  if id <? 1 then inr ErrRecordNotFound
  else
    let scan := match drv with
                | Some err => scan_error err
                | None => select_movie id d
                end in
    match scan with
    | scan_error err =>
        if errors_Is err sql_ErrNoRows then inr ErrRecordNotFound
        else inr err
    | row_of movie => inl movie
    end.

(** [Update] returns the error, the movie behind the pointer (its [Version]
    overwritten by [Scan] when a row came back) and the store. *)
Definition Update (drv : option error) (movie : Movie.t) (d : DB.t)
  : option error * Movie.t * DB.t :=
  let '(scan, d') :=
    match drv with
    | Some err => (scan_error err, d)
    | None => update_movies (Movie.Title movie) (Movie.Year movie)
                (Movie.Runtime movie) (Movie.Genres movie)
                (Movie.ID movie) (Movie.Version movie) d
    end in
  match scan with
  | scan_error err =>
      if errors_Is err sql_ErrNoRows then (Some ErrEditConflict, movie, d')
      else (Some err, movie, d')
  | row_of version => (None, Movie.with_Version version movie, d')
  end.

(** [Insert] returns the error, the movie behind the pointer (its [ID],
    [CreatedAt] and [Version] overwritten by [Scan] when a row came back)
    and the store.  [id], [created_at] and [version] are what the server
    fills the three columns with. *)
Definition Insert (drv : option error) (id created_at version : Z)
    (movie : Movie.t) (d : DB.t) : option error * Movie.t * DB.t :=
  let '(scan, d') :=
    match drv with
    | Some err => (scan_error err, d)
    | None => insert_movies id created_at version (Movie.Title movie)
                (Movie.Year movie) (Movie.Runtime movie) (Movie.Genres movie) d
    end in
  match scan with
  | scan_error err => (Some err, movie, d')
  | row_of (id, created_at, version) =>
      (None,
       {| Movie.ID := id; Movie.CreatedAt := created_at;
          Movie.Title := Movie.Title movie; Movie.Year := Movie.Year movie;
          Movie.Runtime := Movie.Runtime movie;
          Movie.Genres := Movie.Genres movie; Movie.Version := version |},
       d')
  end.

(** [drv] is the state of the driver for [ExecContext], [affected] the
    error of [result.RowsAffected()] if it has one. *)
Definition Delete (drv affected : option error) (id : Z) (d : DB.t)
  : option error * DB.t :=
  if id <? 1 then (Some ErrRecordNotFound, d)
  else
    match drv with
    | Some err => (Some err, d)
    | None =>
        let '(rowsAffected, d') := delete_movies id d in
        match affected with
        | Some err => (Some err, d')
        | None =>
            if rowsAffected =? 0 then (Some ErrRecordNotFound, d')
            else (None, d')
        end
    end.

(** [GetAll]: the movies ([None] for the nil slice), the metadata and the
    error.  The statement is built first, so a panic of [sortColumn] comes
    before the store is asked; [answer] is what the store hands back. *)
Definition GetAll (answer : listing) (title : string) (genres : list string)
    (filters : Filters)
  : outcome (option (list Movie.t) * Metadata.t * option error) :=
  match GetAll_query filters with
  | Panic message => Panic message
  | Returned _ =>
      match answer with
      | refused err => Returned (None, Metadata.zero, Some err)
      | listed rows final =>
          match GetAll_rows rows 0 [] with
          | inr err => Returned (None, Metadata.zero, Some err)
          | inl (totalRecords, movies) =>
              match final with
              | Some err => Returned (None, Metadata.zero, Some err)
              | None =>
                  Returned (Some movies,
                            calculateMetadata totalRecords (Page filters)
                              (PageSize filters),
                            None)
              end
          end
      end
  end.

End MovieModel.

(** *** Movies: validation *)

Definition slice_len {A : Type} (s : option (list A)) : nat :=
  match s with
  | Some l => length l
  | None => O
  end.

(** [now_year] is [time.Now().Year()]. *)
Definition ValidateMovie (now_year : Z) (v : validator.Validator) (movie : Movie.t)
  : validator.Validator :=
  let v := validator.Check (negb (String.eqb (Movie.Title movie) "")) "title" "must be provided" v in
  let v := validator.Check (String.length (Movie.Title movie) <=? 500)%nat "title" "must not be more than 500 bytes long" v in
  let v := validator.Check (negb (Movie.Year movie =? 0)) "year" "must be provided" v in
  let v := validator.Check (1888 <=? Movie.Year movie) "year" "must be greater than 1888" v in
  let v := validator.Check (Movie.Year movie <=? now_year) "year" "must not be in the future" v in
  let v := validator.Check (negb (Movie.Runtime movie =? 0)) "runtime" "must be provided" v in
  let v := validator.Check (0 <? Movie.Runtime movie) "runtime" "must be a positive integer" v in
  let v := validator.Check (bool_decide (Movie.Genres movie ≠ None)) "genres" "must be provided" v in
  let v := validator.Check (1 <=? slice_len (Movie.Genres movie))%nat "genres" "must contain at least 1 genre" v in
  let v := validator.Check (slice_len (Movie.Genres movie) <=? 5)%nat "genres" "must not contain more than 5 genres" v in
  validator.Check (validator.Unique (default [] (Movie.Genres movie))) "genres" "must not contain duplicate values" v.

(** The CHECK constraints the migrations put on [movies], on the columns
    of a row, the year check as the third migration leaves it; [now_year]
    is [date_part('year', now())].  A CHECK refuses a row only when its
    expression is false: [array_length(genres, 1)] is NULL for a NULL and
    for an empty array, and a NULL passes. *)
Definition movies_runtime_check (runtime : Z) : bool := 0 <=? runtime.

Definition movies_year_check (now_year year : Z) : bool :=
  (1888 <=? year) && (year <=? now_year).

Definition genres_length_check (genres : option (list string)) : bool :=
  match genres with
  | None | Some [] => true
  | Some l => (1 <=? length l)%nat && (length l <=? 5)%nat
  end.

(** *** Users *)

(** [bcrypt.GenerateFromPassword(password, cost)], of golang.org/x/crypto:
    the salted hash, or an error. *)
Definition bcrypt_GenerateFromPassword : Type := list byte → Z → list byte + error.

(** [password.Set]: the password behind the pointer, and the error. *)
Definition password_Set (generate : bcrypt_GenerateFromPassword)
    (plaintextPassword : string) (p : password.t) : password.t * option error :=
  match generate (bytes_of_string plaintextPassword) 12 with
  | inr err => (p, Some err)
  | inl hash =>
      ({| password.plaintext := Some plaintextPassword;
          password.hash := Some hash |}, None)
  end.

Definition ValidateEmail (v : validator.Validator) (email : string)
  : validator.Validator :=
  let v := validator.Check (negb (String.eqb email "")) "email" "must be provided" v in
  validator.Check (validator.Matches email validator.EmailRX) "email" "must be a valid email address" v.

Definition ValidatePasswordPlaintext (v : validator.Validator) (password : string)
  : validator.Validator :=
  let v := validator.Check (negb (String.eqb password "")) "password" "must be provided" v in
  let v := validator.Check (8 <=? String.length password)%nat "password" "must be at least 8 bytes long" v in
  validator.Check (String.length password <=? 72)%nat "password" "must not be more than 72 bytes long" v.

Definition ValidateUser (v : validator.Validator) (user : User.t)
  : outcome validator.Validator :=
  let v := validator.Check (negb (String.eqb (User.Name user) "")) "name" "must be provided" v in
  let v := validator.Check (String.length (User.Name user) <=? 500)%nat "name" "must not be more than 500 bytes long" v in
  let v := ValidateEmail v (User.Email user) in
  let v := match password.plaintext (User.Password user) with
           | Some plaintext => ValidatePasswordPlaintext v plaintext
           | None => v
           end in
  match password.hash (User.Password user) with
  | None => Panic "missing password hash for user"
  | Some _ => Returned v
  end.

(** Modelled from the spec: the [users] table, whose migration is not among
    the sources.  The data model gives a user a "unique email
    (case-insensitive)", and [Insert] "assigns identity, creation timestamp,
    and initial version (1) at the backing store".  The uniqueness
    constraint carries the name the methods look for, [users_email_key];
    case is folded over the ASCII letters. *)
Definition fold_case (s : string) : string :=
  string_of_list_ascii
    (map (fun c => if regexp.between "A" "Z" c
                   then ascii_of_nat (nat_of_ascii c + 32) else c)
         (list_ascii_of_string s)).

(** Some row other than [self] holds [email]. *)
Definition email_in_use (email : string) (self : option Z) (d : DB.t) : bool :=
  existsb
    (fun kv => negb (bool_decide (self = Some (fst kv)))
               && String.eqb (fold_case (users.email (snd kv))) (fold_case email))
    (map_to_list (DB.users d)).

Definition users_email_key_violation : string :=
  "duplicate key value violates unique constraint " ++ dquote ++ "users_email_key" ++ dquote.

Definition users_pkey_violation : string :=
  "duplicate key value violates unique constraint " ++ dquote ++ "users_pkey" ++ dquote.

(** [INSERT INTO users (name, email, password_hash, activated)
    VALUES ($1, $2, $3, $4) RETURNING id, created_at, version],
    executed at the instant [now]. *)
Definition insert_users (now : Z) (name email : string)
    (password_hash : option (list byte)) (activated : bool) (d : DB.t)
  : scanned (Z * Z * Z) * DB.t :=
  let id := DB.users_id_seq d in
  match DB.users d !! id with
  | Some _ => (scan_error (pq_Error users_pkey_violation), d)
  | None =>
      if email_in_use email None d
      then (scan_error (pq_Error users_email_key_violation), d)
      else
        let r := {| users.created_at := now; users.name := name;
                    users.email := email; users.password_hash := password_hash;
                    users.activated := activated; users.version := 1 |} in
        (row_of (id, now, 1), DB.with_users (<[id := r]> (DB.users d)) (id + 1) d)
  end.

(** [UPDATE users SET name = $1, email = $2, password_hash = $3,
    activated = $4, version = version + 1 WHERE id = $5 AND version = $6
    RETURNING version] *)
Definition update_users (name email : string)
    (password_hash : option (list byte)) (activated : bool)
    (id version : Z) (d : DB.t) : scanned Z * DB.t :=
  match DB.users d !! id with
  | Some r =>
      if users.version r =? version then
        if pg_integer_max <? users.version r + 1
        then (scan_error (pq_Error "integer out of range"), d)
        else if email_in_use email (Some id) d
        then (scan_error (pq_Error users_email_key_violation), d)
        else
          let r' := {| users.created_at := users.created_at r;
                       users.name := name; users.email := email;
                       users.password_hash := password_hash;
                       users.activated := activated;
                       users.version := users.version r + 1 |} in
          (row_of (users.version r'),
           DB.with_users (<[id := r']> (DB.users d)) (DB.users_id_seq d) d)
      else (scan_error sql_ErrNoRows, d)
  | None => (scan_error sql_ErrNoRows, d)
  end.

(** The columns of a user row scanned into a [User]. *)
Definition scan_user (id : Z) (r : users.row) : User.t :=
  {| User.ID := id;
     User.CreatedAt := users.created_at r;
     User.Name := users.name r;
     User.Email := users.email r;
     User.Password :=
       {| password.plaintext := None;
          password.hash := users.password_hash r |};
     User.Activated := users.activated r;
     User.Version := users.version r |}.

(** The join of [GetForToken], in the order of the token rows: the first
    token with the given hash and scope that expires after [now] and whose
    user exists. *)
Fixpoint select_user_for_token (ts : list tokens.row) (us : gmap Z users.row)
    (hash : list byte) (scope : string) (now : Z) : scanned User.t :=
  match ts with
  | [] => scan_error sql_ErrNoRows
  | t :: rest =>
      if bool_decide (tokens.hash t = hash) && String.eqb (tokens.scope t) scope
         && (now <? tokens.expiry t)
      then match us !! tokens.user_id t with
           | Some r => row_of (scan_user (tokens.user_id t) r)
           | None => select_user_for_token rest us hash scope now
           end
      else select_user_for_token rest us hash scope now
  end.

Module UserModel.

(** The literal both methods compare the text of the error with. *)
Definition duplicate_email_text : string :=
  "pq: duplicate key value violates unique constraint " ++ dquote ++ "users_email_key" ++ dquote.

Definition Insert (drv : option error) (now : Z) (user : User.t) (d : DB.t)
  : option error * User.t * DB.t :=
  let '(scan, d') :=
    match drv with
    | Some err => (scan_error err, d)
    | None => insert_users now (User.Name user) (User.Email user)
                (password.hash (User.Password user)) (User.Activated user) d
    end in
  match scan with
  | scan_error err =>
      if String.eqb (Error err) duplicate_email_text
      then (Some ErrDuplicateEmail, user, d')
      else (Some err, user, d')
  | row_of (id, created_at, version) =>
      (None, User.with_row id created_at version user, d')
  end.

Definition Update (drv : option error) (user : User.t) (d : DB.t)
  : option error * User.t * DB.t :=
  let '(scan, d') :=
    match drv with
    | Some err => (scan_error err, d)
    | None => update_users (User.Name user) (User.Email user)
                (password.hash (User.Password user)) (User.Activated user)
                (User.ID user) (User.Version user) d
    end in
  match scan with
  | scan_error err =>
      if String.eqb (Error err) duplicate_email_text
      then (Some ErrDuplicateEmail, user, d')
      else if errors_Is err sql_ErrNoRows
      then (Some ErrEditConflict, user, d')
      else (Some err, user, d')
  | row_of version => (None, User.with_Version version user, d')
  end.

(** [now] is the [time.Now()] passed as the third argument. *)
Definition GetForToken (drv : option error) (now : Z)
    (tokenScope tokenPlaintext : string) (d : DB.t) : User.t + error :=
  let tokenHash := sha256.Sum256 (bytes_of_string tokenPlaintext) in
  let scan := match drv with
              | Some err => scan_error err
              | None => select_user_for_token (DB.tokens d) (DB.users d)
                          tokenHash tokenScope now
              end in
  match scan with
  | scan_error err =>
      if errors_Is err sql_ErrNoRows then inr ErrRecordNotFound
      else inr err
  | row_of user => inl user
  end.

End UserModel.

(** *** Tokens *)

(** [now] is [time.Now()], [random] the state of the random source. *)
Definition generateToken (now : Z) (random : rand.source)
    (userID ttl : Z) (scope : string) : Token.t + error :=
  let expiry := now + ttl in
  match rand.Read random 16 with
  | inr err => inr err
  | inl randomBytes =>
      let plaintext := base32.EncodeToString randomBytes in
      let hash := sha256.Sum256 (bytes_of_string plaintext) in
      inl {| Token.Plaintext := plaintext; Token.Hash := hash;
             Token.UserID := userID; Token.Expiry := expiry;
             Token.Scope := scope |}
  end.

Definition ValidateTokenPlaintext (v : validator.Validator) (tokenPlaintext : string)
  : validator.Validator :=
  let v := validator.Check (negb (String.eqb tokenPlaintext "")) "token" "must be provided" v in
  validator.Check (String.length tokenPlaintext =? 26)%nat "token" "must be 26 bytes long" v.

Module TokenModel.

(** [INSERT INTO tokens (hash, user_id, expiry, scope) VALUES ($1, $2, $3, $4)] *)
Definition Insert (drv : option error) (token : Token.t) (d : DB.t)
  : option error * DB.t :=
  match drv with
  | Some err => (Some err, d)
  | None =>
      (None,
       DB.with_tokens
         (DB.tokens d ++ [{| tokens.hash := Token.Hash token;
                             tokens.user_id := Token.UserID token;
                             tokens.expiry := Token.Expiry token;
                             tokens.scope := Token.Scope token |}]) d)
  end.

Definition New (drv : option error) (now : Z) (random : rand.source)
    (userID ttl : Z) (scope : string) (d : DB.t)
  : option Token.t * option error * DB.t :=
  match generateToken now random userID ttl scope with
  | inr err => (None, Some err, d)
  | inl token =>
      let '(err, d') := Insert drv token d in
      (Some token, err, d')
  end.

(** [DELETE FROM tokens WHERE scope = $1 AND user_id = $2] *)
Definition DeleteAllForUser (drv : option error) (scope : string) (userID : Z)
    (d : DB.t) : option error * DB.t :=
  match drv with
  | Some err => (Some err, d)
  | None =>
      (None,
       DB.with_tokens
         (filter (fun t => ¬ (tokens.scope t = scope ∧ tokens.user_id t = userID))
                 (DB.tokens d)) d)
  end.

End TokenModel.

(** *** Permissions *)

Module Permissions.

(** [type Permissions []string] *)
Definition t : Type := list string.

Fixpoint Include (p : t) (code : string) : bool :=
  match p with
  | [] => false
  | x :: rest => if String.eqb code x then true else Include rest code
  end.

End Permissions.

Module PermissionModel.

(** The statement of [GetAllForUser] is
    [SELECT permissions.code FROM permissions
     INNER JOIN users_permissions ON users_permission.permission_id=permissions.id
     INNER JOIN users ON users_permissions.user_id = users.id
     WHERE users.id = $1].
    Its first join condition reads a column of [users_permission], and the
    FROM clause has no table of that name: the table it joins is
    [users_permissions].  PostgreSQL refuses such a statement when it
    analyses it, whatever the tables hold, and [QueryContext] returns the
    error of the server. *)
Definition missing_FROM_clause_entry : error :=
  pq_Error ("missing FROM-clause entry for table "
            ++ dquote ++ "users_permission" ++ dquote).

(** What [QueryContext] hands back when the driver works: an error, or the
    rows, each scanned into a code or failing to scan, and behind the last
    one the value of [rows.Err()]. *)
Definition GetAllForUser_query (userID : Z) (d : DB.t)
  : list (string + error) * option error + error :=
  inr missing_FROM_clause_entry.

(** The loop of [GetAllForUser] over the rows. *)
Fixpoint GetAllForUser_rows (rows : list (string + error))
    (permissions : Permissions.t) : Permissions.t + error :=
  match rows with
  | [] => inl permissions
  | inr err :: _ => inr err
  | inl permission :: rest =>
      GetAllForUser_rows rest (permissions ++ [permission])%list
  end.

Definition GetAllForUser (drv : option error) (userID : Z) (d : DB.t)
  : Permissions.t + error :=
  let answer := match drv with
                | Some err => inr err
                | None => GetAllForUser_query userID d
                end in
  match answer with
  | inr err => inr err
  | inl (rows, final) =>
      match GetAllForUser_rows rows [] with
      | inr err => inr err
      | inl permissions =>
          match final with
          | Some err => inr err
          | None => inl permissions
          end
      end
  end.

(** [INSERT INTO users_permissions SELECT $1, permissions.id FROM permissions
    WHERE permissions.code = ANY($2)] *)
Definition AddForUser (drv : option error) (userID : Z) (codes : list string)
    (d : DB.t) : option error * DB.t :=
  match drv with
  | Some err => (Some err, d)
  | None =>
      let granted :=
        map (fun p => (userID, fst p))
            (filter (fun p => snd p ∈ codes) (DB.permissions d)) in
      (None, DB.with_users_permissions (DB.users_permissions d ++ granted) d)
  end.

End PermissionModel.

(** *** Runtime *)

(** [Runtime.UnmarshalJSON] on a JSON value.  Only a string literal
    survives [strconv.Unquote]; [unquoted] is its content, [None] stands for
    a value of any other kind. *)
Definition Runtime_UnmarshalJSON (unquoted : option string) : Z + error :=
  match unquoted with
  | None => inr ErrInvalidRuntimeFormat
  | Some unquotedJSONValue =>
      match strings.Split unquotedJSONValue " " with
      | [number; unit] =>
          if negb (String.eqb unit "mins") then inr ErrInvalidRuntimeFormat
          else match strconv.ParseInt number 32 with
               | None => inr ErrInvalidRuntimeFormat
               | Some i => inl i
               end
      | _ => inr ErrInvalidRuntimeFormat
      end
  end.

End data.

(** ** Package main (cmd/api): HTTP and JSON *)

Module http.

(** [http.Header]: the values of each header, under its canonical name. *)
Abbreviation Header := (gmap string (list string)).

(** [textproto.CanonicalMIMEHeaderKey], through which [Add], [Set] and
    [Get] pass their key: the first letter and every letter behind a
    hyphen in upper case, the other letters in lower case; a key with a
    byte that is not allowed in the name of a header is left as it is. *)
Definition validHeaderFieldByte (c : ascii) : bool :=
  validator.alnum c || regexp.one_of "!#$%&'*+-.^_`|~" c.

Fixpoint canonicalMIMEHeaderKey (upper : bool) (a : string) : string :=
  match a with
  | EmptyString => EmptyString
  | String c rest =>
      let c :=
        if upper && regexp.between "a" "z" c
        then ascii_of_nat (nat_of_ascii c - 32)
        else if negb upper && regexp.between "A" "Z" c
             then ascii_of_nat (nat_of_ascii c + 32)
             else c in
      String c (canonicalMIMEHeaderKey (Ascii.eqb c "-") rest)
  end.

Definition CanonicalHeaderKey (s : string) : string :=
  if forallb validHeaderFieldByte (list_ascii_of_string s)
  then canonicalMIMEHeaderKey true s
  else s.
Arguments CanonicalHeaderKey : simpl never.

Definition Add (key value : string) (h : Header) : Header :=
  let key := CanonicalHeaderKey key in
  <[key := (default [] (h !! key) ++ [value])%list]> h.

(** [Header.Set]; [Set] alone is a reserved word. *)
Definition Set_ (key value : string) (h : Header) : Header :=
  <[CanonicalHeaderKey key := [value]]> h.

Definition Get (key : string) (h : Header) : string :=
  match h !! CanonicalHeaderKey key with
  | Some (value :: _) => value
  | _ => ""
  end.

Definition StatusOK : Z := 200.
Definition StatusAccepted : Z := 202.
Definition StatusBadRequest : Z := 400.
Definition StatusUnauthorized : Z := 401.
Definition StatusNotFound : Z := 404.
Definition StatusConflict : Z := 409.
Definition StatusUnprocessableEntity : Z := 422.
Definition StatusInternalServerError : Z := 500.
Definition MethodOptions : string := "OPTIONS".
Definition StatusCreated : Z := 201.
Definition StatusForbidden : Z := 403.
Definition StatusMethodNotAllowed : Z := 405.
Definition StatusTooManyRequests : Z := 429.

End http.

Module json.

(** [foldName] (fold.go) folds the key of a member and the name of a field
    before they are compared.  An ASCII letter folds to its upper case.  A
    rune above ASCII folds to the smallest rune of its orbit under
    [unicode.SimpleFold], and that is an ASCII letter for two runes only:
    U+017F (the long s, in UTF-8 the bytes 197 191) folds to S and U+212A
    (the Kelvin sign, the bytes 226 132 170) folds to K.  Every other rune
    above ASCII folds to a rune above ASCII.  The names of the fields of
    this program are ASCII, so whether a key folds to one of them does not
    depend on which rune that is: its bytes are left as they are. *)
Definition foldASCII (c : ascii) : ascii :=
  if regexp.between "a" "z" c then ascii_of_nat (nat_of_ascii c - 32) else c.

Fixpoint foldName (s : string) : string :=
  match s with
  | EmptyString => EmptyString
  | String "197"%char (String "191"%char rest) => String "S"%char (foldName rest)
  | String "226"%char (String "132"%char (String "170"%char rest)) =>
      String "K"%char (foldName rest)
  | String c rest => String (foldASCII c) (foldName rest)
  end.

(** The decoder's choice of the field for a key (decode.go, [object]): the
    field of that very name, and failing that the field whose folded name
    is the folded key. *)
Definition names (key field : string) : bool :=
  String.eqb key field || String.eqb (foldName key) (foldName field).

(** A JSON text after lexing.  A number keeps its literal, from which the
    decoder parses what the target field needs; a string is its content. *)
#[local] Unset Elimination Schemes.
Inductive value : Type :=
| Null
| Bool (b : bool)
| Number (literal : string)
| String (s : string)
| Array (elements : list value)
| Object (members : list (string * value)).
#[local] Set Elimination Schemes.

(** The errors of [Decoder.Decode] that [readJSON] tells apart. *)
Inductive decode_error : Type :=
| SyntaxError (Offset : Z)
| ErrUnexpectedEOF
| UnmarshalTypeError (Field : string) (Offset : Z)
| EOF
| unknown_field (key : string)
| body_too_large
| from_UnmarshalJSON (err : error).

(** A request body as the decoder meets it: reading the first value fails,
    or there is a first value, ending at [offset], with or without anything
    but white space behind it. *)
Inductive body : Type :=
| unreadable (err : decode_error)
| document (first : value) (offset : Z) (more : bool).

End json.

Module api.

(** What an envelope carries under a key. *)
Inductive payload : Type :=
| of_text (s : string)
| of_errors (errors : gmap string string)
| of_movie (m : data.Movie.t)
| of_user (u : data.User.t).

Abbreviation envelop := (gmap string payload).

(** The [http.ResponseWriter] of a request: the header map, the status
    line once written, and the bodies written after it. *)
Record ResponseWriter : Type := {
  Header : http.Header;
  status : option Z;
  written : list envelop
}.

Definition fresh : ResponseWriter :=
  {| Header := ∅; status := None; written := [] |}.

Definition with_Header (h : http.Header) (w : ResponseWriter) : ResponseWriter :=
  {| Header := h; status := status w; written := written w |}.

(** Only the first [WriteHeader] of a response counts. *)
Definition WriteHeader (code : Z) (w : ResponseWriter) : ResponseWriter :=
  match status w with
  | Some _ => w
  | None => {| Header := Header w; status := Some code; written := written w |}
  end.

(** [Write] sends the status 200 first if none was written. *)
Definition Write (js : envelop) (w : ResponseWriter) : ResponseWriter :=
  let w := WriteHeader http.StatusOK w in
  {| Header := Header w; status := status w; written := (written w ++ [js])%list |}.

(** The part of [*http.Request] the handlers read: method, headers, the
    [:id] parameter of the route, the body, and the user stored in the
    context, if one was. *)
Record Request : Type := {
  Method : string;
  RequestHeader : http.Header;
  id_param : string;
  Body : json.body;
  context_user : option data.user_pointer
}.

(** *** context.go *)

Definition contextSetUser (r : Request) (user : data.user_pointer) : Request :=
  {| Method := Method r; RequestHeader := RequestHeader r;
     id_param := id_param r; Body := Body r; context_user := Some user |}.

Definition contextGetUser (r : Request) : outcome data.user_pointer :=
  match context_user r with
  | Some user => Returned user
  | None => Panic "missing user value in request context"
  end.

(** *** helpers.go *)

Definition readIDParam (r : Request) : Z + error :=
  match strconv.ParseInt (id_param r) 64 with
  | None => inr (foreign_error "invalid id parameter")
  | Some id =>
      if id <? 1 then inr (foreign_error "invalid id parameter") else inl id
  end.

(** [json.MarshalIndent] of an envelope.  It can fail only on values that
    have no JSON form; the payloads above all have one. *)
Definition MarshalIndent (data : envelop) : envelop + error := inl data.

Definition writeJSON (w : ResponseWriter) (status : Z) (data : envelop)
    (headers : http.Header) : ResponseWriter * option error :=
  match MarshalIndent data with
  | inr err => (w, Some err)
  | inl js =>
      let w := with_Header (headers ∪ Header w) w in
      let w := with_Header (http.Set_ "Content-Type" "application/json" (Header w)) w in
      let w := WriteHeader status w in
      (Write js w, None)
  end.

(** The second half of [readJSON], common to every destination: the error
    message for a failed [Decode], and the check that nothing follows the
    first value. *)
Definition readJSON_error (err : json.decode_error) : error :=
  match err with
  | json.SyntaxError offset =>
      foreign_error ("body contains badly-formed JSON (at character "
                     ++ strconv.Itoa offset ++ ")")
  | json.ErrUnexpectedEOF => foreign_error "body contains badly-formed JSON"
  | json.UnmarshalTypeError field offset =>
      if negb (String.eqb field "")
      then foreign_error ("body contains incorrect JSON type for field "
                          ++ dquote ++ field ++ dquote)
      else foreign_error ("body contains incorrect JSON type (at character "
                          ++ strconv.Itoa offset ++ ")")
  | json.EOF => foreign_error "body must not be empty"
  | json.unknown_field key =>
      let fieldName :=
        strings.TrimPrefix ("json: unknown field " ++ dquote ++ key ++ dquote)
                           "json: unknown field" in
      foreign_error ("body contains unknown key " ++ fieldName)
  | json.body_too_large =>
      foreign_error ("body must not be larger than " ++ strconv.Itoa 1048576 ++ " bytes")
  | json.from_UnmarshalJSON err => err
  end.

Definition readJSON {I : Type}
    (Decode : json.value → Z → I + json.decode_error) (r : Request) : I + error :=
  match Body r with
  | json.unreadable err => inr (readJSON_error err)
  | json.document first offset more =>
      match Decode first offset with
      | inr err => inr (readJSON_error err)
      | inl input =>
          if more
          then inr (foreign_error "body must only contain a single JSON value")
          else inl input
      end
  end.

(** *** errors.go *)

(** [logError] writes to the log and to nothing else. *)
Definition errorResponse (w : ResponseWriter) (status : Z) (message : payload)
  : ResponseWriter :=
  let env : envelop := {[ "error" := message ]} in
  match writeJSON w status env ∅ with
  | (w, Some _) => WriteHeader 500 w
  | (w, None) => w
  end.

Definition serverErrorResponse (w : ResponseWriter) (err : error) : ResponseWriter :=
  errorResponse w http.StatusInternalServerError
    (of_text "the server encountered a problem and could not process your request").

Definition notFoundResponse (w : ResponseWriter) : ResponseWriter :=
  errorResponse w http.StatusNotFound (of_text "the requested resource could not found").

Definition badRequestResponse (w : ResponseWriter) (err : error) : ResponseWriter :=
  errorResponse w http.StatusBadRequest (of_text (Error err)).

Definition failedValidationResponse (w : ResponseWriter) (errors : gmap string string)
  : ResponseWriter :=
  errorResponse w http.StatusUnprocessableEntity (of_errors errors).

Definition editConflictResponse (w : ResponseWriter) : ResponseWriter :=
  errorResponse w http.StatusConflict
    (of_text "unable to update the record due to an edit conflict, please try again").

Definition invalidCredentialsResponse (w : ResponseWriter) : ResponseWriter :=
  errorResponse w http.StatusUnauthorized (of_text "invalid authentication credentials").

Definition invalidAuthenticationTokenResponse (w : ResponseWriter) : ResponseWriter :=
  let w := with_Header (http.Set_ "WWW-Authenticate" "Bearer" (Header w)) w in
  errorResponse w http.StatusUnauthorized (of_text "invalid or missing authentication token").

(** *** The input of the handlers, decoded from the body

    [Decoder.Decode] with [DisallowUnknownFields] into the anonymous input
    struct of a handler.  The members of the object are taken in order; a
    member is matched to a field by [json.names]; a later member overwrites
    an earlier one; [null] leaves
    a string as it is and resets a pointer or slice to nil; an array is
    stored into the slice the field holds, [backing] being what the backing
    array of that slice holds behind it, and the empty array gives a fresh
    empty slice.  A value of the
    wrong kind and an unknown name are remembered (the first one is
    reported at the end) while decoding goes on; an error of an
    [UnmarshalJSON] method ends decoding at once. *)

Definition remember (saved : option json.decode_error) (err : json.decode_error)
  : option json.decode_error :=
  match saved with
  | Some _ => saved
  | None => Some err
  end.

(** The elements of a JSON array stored one by one into the [[]string] of
    a field (decode.go, [array]).  [backing] is what the backing array of
    that slice holds from its first index on; behind its end stands the
    empty string of fresh memory.  A string is stored; [null] leaves the
    element as the array holds it, and so does a value of a wrong kind,
    which is an error.  The result is the slice, what the backing array
    holds behind it, and whether every element was of the right kind. *)
Fixpoint decode_strings (backing : list string) (elements : list json.value)
  : list string * list string * bool :=
  match elements with
  | [] => ([], backing, true)
  | e :: rest =>
      let '(slice, behind, well_typed) := decode_strings (tl backing) rest in
      match e with
      | json.String s => (s :: slice, behind, well_typed)
      | json.Null => (hd "" backing :: slice, behind, well_typed)
      | _ => (hd "" backing :: slice, behind, false)
      end
  end.

Module updateMovieInput.
Record t : Type := {
  Title : option string;
  Year : option Z;
  Runtime : option Z;
  Genres : option (list string)
}.
Definition zero : t :=
  {| Title := None; Year := None; Runtime := None; Genres := None |}.

Fixpoint members (ms : list (string * json.value)) (offset : Z) (input : t)
    (backing : list string) (saved : option json.decode_error)
  : t + json.decode_error :=
  match ms with
  | [] => match saved with
          | Some err => inr err
          | None => inl input
          end
  | (key, v) :: rest =>
      if json.names key "title" then
        match v with
        | json.Null =>
            members rest offset
              {| Title := None; Year := Year input; Runtime := Runtime input;
                 Genres := Genres input |} backing saved
        | json.String s =>
            members rest offset
              {| Title := Some s; Year := Year input; Runtime := Runtime input;
                 Genres := Genres input |} backing saved
        | _ => members rest offset input backing
                 (remember saved (json.UnmarshalTypeError "title" offset))
        end
      else if json.names key "year" then
        match v with
        | json.Null =>
            members rest offset
              {| Title := Title input; Year := None; Runtime := Runtime input;
                 Genres := Genres input |} backing saved
        | json.Number literal =>
            match strconv.ParseInt literal 32 with
            | Some n =>
                members rest offset
                  {| Title := Title input; Year := Some n;
                     Runtime := Runtime input; Genres := Genres input |} backing saved
            | None => members rest offset input backing
                        (remember saved (json.UnmarshalTypeError "year" offset))
            end
        | _ => members rest offset input backing
                 (remember saved (json.UnmarshalTypeError "year" offset))
        end
      else if json.names key "runtime" then
        match v with
        | json.Null =>
            members rest offset
              {| Title := Title input; Year := Year input; Runtime := None;
                 Genres := Genres input |} backing saved
        | _ =>
            match data.Runtime_UnmarshalJSON
                    (match v with json.String s => Some s | _ => None end) with
            | inl minutes =>
                members rest offset
                  {| Title := Title input; Year := Year input;
                     Runtime := Some minutes; Genres := Genres input |} backing saved
            | inr err => inr (json.from_UnmarshalJSON err)
            end
        end
      else if json.names key "genres" then
        match v with
        | json.Null =>
            members rest offset
              {| Title := Title input; Year := Year input;
                 Runtime := Runtime input; Genres := None |} [] saved
        | json.Array elements =>
            let '(genres, behind, well_typed) :=
              decode_strings (default [] (Genres input) ++ backing) elements in
            members rest offset
              {| Title := Title input; Year := Year input;
                 Runtime := Runtime input; Genres := Some genres |}
              (match elements with [] => [] | _ => behind end)
              (if well_typed then saved
               else remember saved (json.UnmarshalTypeError "genres" offset))
        | _ => members rest offset input backing
                 (remember saved (json.UnmarshalTypeError "genres" offset))
        end
      else members rest offset input backing (remember saved (json.unknown_field key))
  end.

Definition Decode (v : json.value) (offset : Z) : t + json.decode_error :=
  match v with
  | json.Null => inl zero
  | json.Object ms => members ms offset zero [] None
  | _ => inr (json.UnmarshalTypeError "" offset)
  end.
End updateMovieInput.

Module registerUserInput.
Record t : Type := {
  Name : string;
  Email : string;
  Password : string
}.
Definition zero : t := {| Name := ""; Email := ""; Password := "" |}.

Fixpoint members (ms : list (string * json.value)) (offset : Z) (input : t)
    (saved : option json.decode_error) : t + json.decode_error :=
  match ms with
  | [] => match saved with
          | Some err => inr err
          | None => inl input
          end
  | (key, v) :: rest =>
      if json.names key "name" then
        match v with
        | json.Null => members rest offset input saved
        | json.String s =>
            members rest offset
              {| Name := s; Email := Email input; Password := Password input |} saved
        | _ => members rest offset input
                 (remember saved (json.UnmarshalTypeError "name" offset))
        end
      else if json.names key "email" then
        match v with
        | json.Null => members rest offset input saved
        | json.String s =>
            members rest offset
              {| Name := Name input; Email := s; Password := Password input |} saved
        | _ => members rest offset input
                 (remember saved (json.UnmarshalTypeError "email" offset))
        end
      else if json.names key "password" then
        match v with
        | json.Null => members rest offset input saved
        | json.String s =>
            members rest offset
              {| Name := Name input; Email := Email input; Password := s |} saved
        | _ => members rest offset input
                 (remember saved (json.UnmarshalTypeError "password" offset))
        end
      else members rest offset input (remember saved (json.unknown_field key))
  end.

Definition Decode (v : json.value) (offset : Z) : t + json.decode_error :=
  match v with
  | json.Null => inl zero
  | json.Object ms => members ms offset zero None
  | _ => inr (json.UnmarshalTypeError "" offset)
  end.
End registerUserInput.

(** *** The application *)

Module config.
Record t : Type := {
  cors_trustedOrigins : list string
}.
End config.

Record application : Type := { config : config.t }.

(** An [http.Handler]: it writes to the response and may change the
    store. *)
Definition Handler : Type :=
  ResponseWriter → Request → data.DB.t → ResponseWriter * data.DB.t.

(** *** middleware.go *)

(** [drv] is the state of the driver for the lookup of the token and [now]
    the instant [GetForToken] compares expiry times with. *)
Definition authenticate (drv : option error) (now : Z) (next : Handler) : Handler :=
  fun w r d =>
    let w := with_Header (http.Add "Vary" "Authorization" (Header w)) w in
    let authorizationHeader := http.Get "Authorization" (RequestHeader r) in
    if String.eqb authorizationHeader "" then
      next w (contextSetUser r data.AnonymousUser) d
    else
      match strings.Split authorizationHeader " " with
      | [scheme; token] =>
          if negb (String.eqb scheme "Bearer")
          then (invalidCredentialsResponse w, d)
          else
            let v := data.ValidateTokenPlaintext validator.New token in
            if negb (validator.Valid v)
            then (invalidAuthenticationTokenResponse w, d)
            else
              match data.UserModel.GetForToken drv now
                      data.ScopeAuthentication token d with
              | inr err =>
                  if errors_Is err ErrRecordNotFound
                  then (invalidCredentialsResponse w, d)
                  else (serverErrorResponse w err, d)
              | inl user => next w (contextSetUser r (data.loaded user)) d
              end
      | _ => (invalidCredentialsResponse w, d)
      end.

(** The loop of [enableCORS] over the trusted origins.  The flag tells
    whether the loop returned from the handler (a preflight request
    answered) or ran to its end. *)
Fixpoint enableCORS_range (trustedOrigins : list string) (origin : string)
    (r : Request) (w : ResponseWriter) : ResponseWriter * bool :=
  match trustedOrigins with
  | [] => (w, false)
  | trusted :: rest =>
      if String.eqb origin trusted then
        let w := with_Header (http.Set_ "Access-Control-Allow-Origin" origin (Header w)) w in
        if String.eqb (Method r) http.MethodOptions
           && negb (String.eqb (http.Get "Access-Control-Request-Method" (RequestHeader r)) "")
        then
          let w := with_Header (http.Set_ "Access-Control-Allow-Methods"
                                  "OPTIONS, PUT, PATCH, DELETE" (Header w)) w in
          let w := with_Header (http.Set_ "Access-Control-Allow-Headers"
                                  "Authorization, Content-Type" (Header w)) w in
          (WriteHeader http.StatusOK w, true)
        else enableCORS_range rest origin r w
      else enableCORS_range rest origin r w
  end.

Definition enableCORS (app : application) (next : Handler) : Handler :=
  fun w r d =>
    let w := with_Header (http.Add "Vary" "Origin" (Header w)) w in
    let w := with_Header (http.Add "Vary" "Access-Control-Request-Method" (Header w)) w in
    let origin := http.Get "Origin" (RequestHeader r) in
    if negb (String.eqb origin "")
       && negb (Nat.eqb (length (config.cors_trustedOrigins (config app))) 0)
    then
      match enableCORS_range (config.cors_trustedOrigins (config app)) origin r w with
      | (w, true) => (w, d)
      | (w, false) => next w r d
      end
    else next w r d.

(** *** movies.go *)

(** [drv_get] and [drv_update] are the states of the driver for the two
    statements; [now_year] is the year [ValidateMovie] reads off the
    clock. *)
Definition updateMovieHandler (drv_get drv_update : option error) (now_year : Z)
  : Handler :=
  fun w r d =>
    match readIDParam r with
    | inr _ => (notFoundResponse w, d)
    | inl id =>
        match data.MovieModel.Get drv_get id d with
        | inr err =>
            if errors_Is err ErrRecordNotFound then (notFoundResponse w, d)
            else (serverErrorResponse w err, d)
        | inl movie =>
            match readJSON updateMovieInput.Decode r with
            | inr err => (badRequestResponse w err, d)
            | inl input =>
                let movie := match updateMovieInput.Title input with
                             | Some title => data.Movie.with_Title title movie
                             | None => movie
                             end in
                let movie := match updateMovieInput.Year input with
                             | Some year => data.Movie.with_Year year movie
                             | None => movie
                             end in
                let movie := match updateMovieInput.Runtime input with
                             | Some runtime => data.Movie.with_Runtime runtime movie
                             | None => movie
                             end in
                let movie := match updateMovieInput.Genres input with
                             | Some genres => data.Movie.with_Genres (Some genres) movie
                             | None => movie
                             end in
                let v := data.ValidateMovie now_year validator.New movie in
                if negb (validator.Valid v)
                then (failedValidationResponse w (validator.Errors v), d)
                else
                  match data.MovieModel.Update drv_update movie d with
                  | (Some err, _, d) =>
                      if errors_Is err ErrEditConflict
                      then (editConflictResponse w, d)
                      else (serverErrorResponse w err, d)
                  | (None, movie, d) =>
                      match writeJSON w http.StatusOK {[ "movie" := of_movie movie ]} ∅ with
                      | (w, Some err) => (serverErrorResponse w err, d)
                      | (w, None) => (w, d)
                      end
                  end
            end
        end
    end.

(** *** users.go *)

(** What [registerUserHandler] hands to [app.background]: the welcome
    mail, sent after the response. *)
Record welcome : Type := {
  recipient : string;
  templateFile : string;
  activationToken : string;
  userID : Z
}.

(** [generate] is the bcrypt of the library; [drv_insert], [drv_permission]
    and [drv_token] are the states of the driver for the three statements;
    [now] is the clock and [random] the random source.  The result is the
    response, the store and the background tasks started. *)
Definition registerUserHandler (generate : data.bcrypt_GenerateFromPassword)
    (drv_insert drv_permission drv_token : option error)
    (now : Z) (random : rand.source)
    (w : ResponseWriter) (r : Request) (d : data.DB.t)
  : outcome (ResponseWriter * data.DB.t * list welcome) :=
  match readJSON registerUserInput.Decode r with
  | inr err => Returned (badRequestResponse w err, d, [])
  | inl input =>
      let user :=
        {| data.User.ID := 0; data.User.CreatedAt := 0;
           data.User.Name := registerUserInput.Name input;
           data.User.Email := registerUserInput.Email input;
           data.User.Password := data.User.Password data.User.zero;
           data.User.Activated := false; data.User.Version := 0 |} in
      match data.password_Set generate (registerUserInput.Password input)
              (data.User.Password user) with
      | (_, Some err) => Returned (serverErrorResponse w err, d, [])
      | (password, None) =>
          let user := data.User.with_Password password user in
          match data.ValidateUser validator.New user with
          | Panic message => Panic message
          | Returned v =>
              if negb (validator.Valid v)
              then Returned (failedValidationResponse w (validator.Errors v), d, [])
              else
                match data.UserModel.Insert drv_insert now user d with
                | (Some err, _, d) =>
                    if errors_Is err ErrDuplicateEmail then
                      let v := validator.AddError "email"
                                 "a user with this email address already exists" v in
                      Returned (failedValidationResponse w (validator.Errors v), d, [])
                    else Returned (serverErrorResponse w err, d, [])
                | (None, user, d) =>
                    match data.PermissionModel.AddForUser drv_permission
                            (data.User.ID user) ["movies:read"] d with
                    | (Some err, d) => Returned (serverErrorResponse w err, d, [])
                    | (None, d) =>
                        match data.TokenModel.New drv_token now random
                                (data.User.ID user) (3 * 24 * 3600000000000)
                                data.ScopeActivation d with
                        | (_, Some err, d) => Returned (serverErrorResponse w err, d, [])
                        (* not reached: [New] returns a token with a nil error *)
                        | (None, None, d) => Returned (w, d, [])
                        | (Some token, None, d) =>
                            let task :=
                              {| recipient := data.User.Email user;
                                 templateFile := "user_welcome.tmpl";
                                 activationToken := data.Token.Plaintext token;
                                 userID := data.User.ID user |} in
                            match writeJSON w http.StatusAccepted
                                    {[ "user" := of_user user ]} ∅ with
                            | (w, Some err) => Returned (serverErrorResponse w err, d, [task])
                            | (w, None) => Returned (w, d, [task])
                            end
                        end
                    end
                end
          end
      end
  end.

(** *** errors.go: the other responses *)

Definition methodNotAllowedResponse (w : ResponseWriter) (r : Request)
  : ResponseWriter :=
  errorResponse w http.StatusMethodNotAllowed
    (of_text ("the " ++ Method r ++ " method is not supported for this resource")).

Definition rateLimitExceededResponse (w : ResponseWriter) : ResponseWriter :=
  errorResponse w http.StatusTooManyRequests (of_text "rate limit exceeded").

Definition authenticationRequiredResponse (w : ResponseWriter) : ResponseWriter :=
  errorResponse w http.StatusUnauthorized
    (of_text "you must be authenticated to access this resource").

Definition inactiveAccountResponse (w : ResponseWriter) : ResponseWriter :=
  errorResponse w http.StatusForbidden
    (of_text "your user account must be activated to access this resource").

Definition notPermittedResponse (w : ResponseWriter) : ResponseWriter :=
  errorResponse w http.StatusForbidden
    (of_text "your user account doesn't have the necessary permissions to accesss this resource").

(** *** helpers.go: the query string *)

Definition readString (qs : url.Values) (key defaultValue : string) : string :=
  let s := url.Get key qs in
  if String.eqb s "" then defaultValue else s.

Definition readCSV (qs : url.Values) (key : string) (defaultValue : list string)
  : list string :=
  let csv := url.Get key qs in
  if String.eqb csv "" then defaultValue else strings.Split csv ",".

(** [readInt]: the integer, and the validator behind the pointer. *)
Definition readInt (qs : url.Values) (key : string) (defaultValue : Z)
    (v : validator.Validator) : Z * validator.Validator :=
  let s := url.Get key qs in
  if String.eqb s "" then (defaultValue, v)
  else
    match strconv.Atoi s with
    | None => (defaultValue, validator.AddError key "must be an integer value" v)
    | Some i => (i, v)
    end.

(** *** runtime.go, seen from JSON

    [Runtime.MarshalJSON] gives the text [strconv.Quote] makes of
    [fmt.Sprintf("%d mins", r)]: digits, perhaps a hyphen before them, a
    space and four letters, which [Quote] puts between double quotes as
    they are.  As a JSON value that text is the string below.
    [Runtime_of_json] is [UnmarshalJSON] on the text of a JSON value. *)
Definition Runtime_MarshalJSON (r : Z) : json.value :=
  json.String (strconv.Itoa r ++ " mins").

Definition Runtime_of_json (v : json.value) : Z + error :=
  data.Runtime_UnmarshalJSON (match v with json.String s => Some s | _ => None end).

(** *** The input of the other handlers *)

Module createMovieInput.
Record t : Type := {
  Title : string;
  Year : Z;
  Runtime : Z;
  Genres : option (list string)
}.
Definition zero : t :=
  {| Title := ""; Year := 0; Runtime := 0; Genres := None |}.

(** The fields are no pointers here: [null] leaves a string and a number
    as they are, and reaches [Runtime.UnmarshalJSON] like any other
    value. *)
Fixpoint members (ms : list (string * json.value)) (offset : Z) (input : t)
    (backing : list string) (saved : option json.decode_error)
  : t + json.decode_error :=
  match ms with
  | [] => match saved with
          | Some err => inr err
          | None => inl input
          end
  | (key, v) :: rest =>
      if json.names key "title" then
        match v with
        | json.Null => members rest offset input backing saved
        | json.String s =>
            members rest offset
              {| Title := s; Year := Year input; Runtime := Runtime input;
                 Genres := Genres input |} backing saved
        | _ => members rest offset input backing
                 (remember saved (json.UnmarshalTypeError "title" offset))
        end
      else if json.names key "year" then
        match v with
        | json.Null => members rest offset input backing saved
        | json.Number literal =>
            match strconv.ParseInt literal 32 with
            | Some n =>
                members rest offset
                  {| Title := Title input; Year := n;
                     Runtime := Runtime input; Genres := Genres input |} backing saved
            | None => members rest offset input backing
                        (remember saved (json.UnmarshalTypeError "year" offset))
            end
        | _ => members rest offset input backing
                 (remember saved (json.UnmarshalTypeError "year" offset))
        end
      else if json.names key "runtime" then
        match Runtime_of_json v with
        | inl minutes =>
            members rest offset
              {| Title := Title input; Year := Year input;
                 Runtime := minutes; Genres := Genres input |} backing saved
        | inr err => inr (json.from_UnmarshalJSON err)
        end
      else if json.names key "genres" then
        match v with
        | json.Null =>
            members rest offset
              {| Title := Title input; Year := Year input;
                 Runtime := Runtime input; Genres := None |} [] saved
        | json.Array elements =>
            let '(genres, behind, well_typed) :=
              decode_strings (default [] (Genres input) ++ backing) elements in
            members rest offset
              {| Title := Title input; Year := Year input;
                 Runtime := Runtime input; Genres := Some genres |}
              (match elements with [] => [] | _ => behind end)
              (if well_typed then saved
               else remember saved (json.UnmarshalTypeError "genres" offset))
        | _ => members rest offset input backing
                 (remember saved (json.UnmarshalTypeError "genres" offset))
        end
      else members rest offset input backing (remember saved (json.unknown_field key))
  end.

Definition Decode (v : json.value) (offset : Z) : t + json.decode_error :=
  match v with
  | json.Null => inl zero
  | json.Object ms => members ms offset zero [] None
  | _ => inr (json.UnmarshalTypeError "" offset)
  end.
End createMovieInput.

Module activateUserInput.
Record t : Type := { TokenPlaintext : string }.
Definition zero : t := {| TokenPlaintext := "" |}.

Fixpoint members (ms : list (string * json.value)) (offset : Z) (input : t)
    (saved : option json.decode_error) : t + json.decode_error :=
  match ms with
  | [] => match saved with
          | Some err => inr err
          | None => inl input
          end
  | (key, v) :: rest =>
      if json.names key "token" then
        match v with
        | json.Null => members rest offset input saved
        | json.String s => members rest offset {| TokenPlaintext := s |} saved
        | _ => members rest offset input
                 (remember saved (json.UnmarshalTypeError "token" offset))
        end
      else members rest offset input (remember saved (json.unknown_field key))
  end.

Definition Decode (v : json.value) (offset : Z) : t + json.decode_error :=
  match v with
  | json.Null => inl zero
  | json.Object ms => members ms offset zero None
  | _ => inr (json.UnmarshalTypeError "" offset)
  end.
End activateUserInput.

(** *** movies.go: the other handlers *)

(** [drv] is the state of the driver for the [INSERT]; [id], [created_at]
    and [version] are what the server fills the three columns of the new
    row with; [now_year] is the year [ValidateMovie] reads off the
    clock. *)
Definition createMovieHandler (drv : option error) (id created_at version : Z)
    (now_year : Z) : Handler :=
  fun w r d =>
    match readJSON createMovieInput.Decode r with
    | inr err => (badRequestResponse w err, d)
    | inl input =>
        let movie :=
          {| data.Movie.ID := 0; data.Movie.CreatedAt := 0;
             data.Movie.Title := createMovieInput.Title input;
             data.Movie.Year := createMovieInput.Year input;
             data.Movie.Runtime := createMovieInput.Runtime input;
             data.Movie.Genres := createMovieInput.Genres input;
             data.Movie.Version := 0 |} in
        let v := data.ValidateMovie now_year validator.New movie in
        if negb (validator.Valid v)
        then (failedValidationResponse w (validator.Errors v), d)
        else
          match data.MovieModel.Insert drv id created_at version movie d with
          | (Some err, _, d) => (serverErrorResponse w err, d)
          | (None, movie, d) =>
              let headers : http.Header :=
                http.Set_ "Location"
                  ("/v1/movies/" ++ strconv.Itoa (data.Movie.ID movie)) ∅ in
              match writeJSON w http.StatusCreated
                      {[ "movie" := of_movie movie ]} headers with
              | (w, Some err) => (serverErrorResponse w err, d)
              | (w, None) => (w, d)
              end
          end
    end.

(** [drv] and [affected] are the states of the driver for [Delete]. *)
Definition deleteMovieHandler (drv affected : option error) : Handler :=
  fun w r d =>
    match readIDParam r with
    | inr _ => (notFoundResponse w, d)
    | inl id =>
        match data.MovieModel.Delete drv affected id d with
        | (Some err, d) =>
            if errors_Is err ErrRecordNotFound then (notFoundResponse w, d)
            else (serverErrorResponse w err, d)
        | (None, d) =>
            match writeJSON w http.StatusOK
                    {[ "message" := of_text "movie successfully deleted" ]} ∅ with
            | (w, Some err) => (serverErrorResponse w err, d)
            | (w, None) => (w, d)
            end
        end
    end.

(** [listMoviesHandler].  The envelope of its 200 response holds a list
    of movies and the metadata, for which [payload] has no case: the
    result is the response written, for every other answer, or the two
    values the handler writes with the status 200.  [qs] is
    [r.URL.Query()] and [answer] what the store hands back to [GetAll]. *)
Definition listMoviesHandler (answer : data.listing) (qs : url.Values)
    (w : ResponseWriter)
  : outcome (ResponseWriter + list data.Movie.t * data.Metadata.t) :=
  let v := validator.New in
  let title := readString qs "title" "" in
  let genres := readCSV qs "genres" [] in
  let '(page, v) := readInt qs "page" 1 v in
  let '(page_size, v) := readInt qs "page_size" 20 v in
  let sort := readString qs "sort" "id" in
  let filters :=
    {| data.Page := page; data.PageSize := page_size; data.Sort := sort;
       data.SortSafelist :=
         ["id"; "title"; "year"; "runtime"; "-id"; "-title"; "-year"; "-runtime"] |} in
  let v := data.ValidateFilters v filters in
  if negb (validator.Valid v)
  then Returned (inl (failedValidationResponse w (validator.Errors v)))
  else
    match data.MovieModel.GetAll answer title genres filters with
    | Panic message => Panic message
    | Returned (_, _, Some err) => Returned (inl (serverErrorResponse w err))
    | Returned (movies, metadata, None) =>
        Returned (inr (default [] movies, metadata))
    end.

(** *** users.go: activation *)

(** [drv_token], [drv_update] and [drv_delete] are the states of the
    driver for the three statements, and [now] is the instant
    [GetForToken] compares expiry times with. *)
Definition activateUserHandler (drv_token drv_update drv_delete : option error)
    (now : Z) : Handler :=
  fun w r d =>
    match readJSON activateUserInput.Decode r with
    | inr err => (badRequestResponse w err, d)
    | inl input =>
        let v := data.ValidateTokenPlaintext validator.New
                   (activateUserInput.TokenPlaintext input) in
        if negb (validator.Valid v)
        then (failedValidationResponse w (validator.Errors v), d)
        else
          match data.UserModel.GetForToken drv_token now data.ScopeActivation
                  (activateUserInput.TokenPlaintext input) d with
          | inr err =>
              if errors_Is err ErrRecordNotFound then
                let v := validator.AddError "token"
                           "invalid or expired activation token" v in
                (failedValidationResponse w (validator.Errors v), d)
              else (serverErrorResponse w err, d)
          | inl user =>
              let user := data.User.with_Activated true user in
              match data.UserModel.Update drv_update user d with
              | (Some err, _, d) =>
                  if errors_Is err ErrEditConflict then (editConflictResponse w, d)
                  else (serverErrorResponse w err, d)
              | (None, user, d) =>
                  match data.TokenModel.DeleteAllForUser drv_delete
                          data.ScopeActivation (data.User.ID user) d with
                  | (Some err, d) => (serverErrorResponse w err, d)
                  | (None, d) =>
                      match writeJSON w http.StatusOK
                              {[ "user" := of_user user ]} ∅ with
                      | (w, Some err) => (serverErrorResponse w err, d)
                      | (w, None) => (w, d)
                      end
                  end
              end
          end
    end.

(** *** middleware.go: the guards of the routes *)

(** An [http.HandlerFunc] that may panic before it has written
    anything, as the guards below do when the context holds no user. *)
Definition HandlerFunc : Type :=
  ResponseWriter → Request → data.DB.t → outcome (ResponseWriter * data.DB.t).

Definition requireAuthenticatedUser (next : HandlerFunc) : HandlerFunc :=
  fun w r d =>
    match contextGetUser r with
    | Panic message => Panic message
    | Returned user =>
        if data.IsAnonymous user
        then Returned (authenticationRequiredResponse w, d)
        else next w r d
    end.

Definition requireActivatedUser (next : HandlerFunc) : HandlerFunc :=
  let fn : HandlerFunc :=
    fun w r d =>
      match contextGetUser r with
      | Panic message => Panic message
      | Returned user =>
          if negb (data.User.Activated (data.deref user))
          then Returned (inactiveAccountResponse w, d)
          else next w r d
      end in
  requireAuthenticatedUser fn.

(** What the handler of [requirePermission] does with the result of
    [GetAllForUser]. *)
Definition requirePermission_decides (result : data.Permissions.t + error)
    (code : string) (next : HandlerFunc) : HandlerFunc :=
  fun w r d =>
    match result with
    | inr err => Returned (serverErrorResponse w err, d)
    | inl permissions =>
        if negb (data.Permissions.Include permissions code)
        then Returned (notPermittedResponse w, d)
        else next w r d
    end.

(** [drv] is the state of the driver for the statement of
    [GetAllForUser]. *)
Definition requirePermission (drv : option error) (code : string)
    (next : HandlerFunc) : HandlerFunc :=
  let fn : HandlerFunc :=
    fun w r d =>
      match contextGetUser r with
      | Panic message => Panic message
      | Returned user =>
          requirePermission_decides
            (data.PermissionModel.GetAllForUser drv
               (data.User.ID (data.deref user)) d)
            code next w r d
      end in
  requireActivatedUser fn.

End api.

(** ** Sequences of validator calls

    A client of the validator is a sequence of [Check] and [AddError] calls
    on one validator.  [failures] lists, in call order, the failures those
    calls report: every [AddError], and every [Check] whose condition is
    false. *)

Module calls.

Inductive call : Type :=
| CheckCall (ok : bool) (key message : string)
| AddErrorCall (key message : string).

Definition apply (v : validator.Validator) (c : call) : validator.Validator :=
  match c with
  | CheckCall ok key message => validator.Check ok key message v
  | AddErrorCall key message => validator.AddError key message v
  end.

Definition run (cs : list call) (v : validator.Validator) : validator.Validator :=
  fold_left apply cs v.

Definition failure (c : call) : option (string * string) :=
  match c with
  | CheckCall ok key message => if ok then None else Some (key, message)
  | AddErrorCall key message => Some (key, message)
  end.

Definition failures (cs : list call) : list (string * string) :=
  omap failure cs.

(** The message of the earliest failure reported for [key]. *)
Fixpoint first_message (key : string) (fs : list (string * string))
  : option string :=
  match fs with
  | [] => None
  | (k, message) :: rest =>
      if String.eqb k key then Some message else first_message key rest
  end.

End calls.

(** ** Optimistic concurrency, as a contract

    What it means for an [Update] method over records of type [R], stored
    as rows of type [S] under their id, to be guarded by the version
    counter.  For every call and its result:
    - it succeeds only when the stored row carries the expected version,
      and then the stored version and the caller's copy are both the
      expected version plus one;
    - no row disappears and no stored version decreases;
    - a failing call leaves store and record as they were;
    - when the statement is executed and no row carries the id with the
      expected version, the error is [ErrEditConflict];
    - after a success, the same call repeated with the same expected
      version is an edit conflict and changes nothing. *)

Definition optimistic {R S : Type}
    (Update : option error → R → data.DB.t → option error * R * data.DB.t)
    (table : data.DB.t → gmap Z S)
    (ID Version : R → Z) (version : S → Z) : Prop :=
  ∀ drv record d err record' d',
    Update drv record d = (err, record', d') →
    (err = None →
       ∃ r r', table d !! ID record = Some r
               ∧ version r = Version record
               ∧ table d' !! ID record = Some r'
               ∧ version r' = Version record + 1
               ∧ Version record' = Version record + 1)
    ∧ (∀ id r, table d !! id = Some r →
         ∃ r', table d' !! id = Some r' ∧ version r ≤ version r')
    ∧ (err ≠ None → d' = d ∧ record' = record)
    ∧ (drv = None →
       (∀ r, table d !! ID record = Some r → version r ≠ Version record) →
       err = Some ErrEditConflict)
    ∧ (err = None →
       Update None record d' = (Some ErrEditConflict, record, d')).

(** ** Vocabulary of the properties *)

(** A preflight request, as [enableCORS] recognises it. *)
Definition is_preflight (r : api.Request) : bool :=
  String.eqb (api.Method r) "OPTIONS"
  && negb (String.eqb (http.Get "Access-Control-Request-Method" (api.RequestHeader r)) "").

(** The request's origin is one of the trusted origins of the
    configuration. *)
Definition from_trusted_origin (app : api.application) (r : api.Request) : Prop :=
  http.Get "Origin" (api.RequestHeader r) ≠ ""
  ∧ http.Get "Origin" (api.RequestHeader r)
    ∈ api.config.cors_trustedOrigins (api.config app).

(** A downstream handler that can be told apart from every response of
    the middleware. *)
Definition teapot : api.Handler := fun w _ d => (api.WriteHeader 418 w, d).

(** A downstream handler that answers with the user it finds in the
    context of the request, and with 401 when it finds none. *)
Definition whoami : api.Handler :=
  fun w r d =>
    match api.context_user r with
    | Some (data.loaded user) =>
        (fst (api.writeJSON w http.StatusOK {[ "user" := api.of_user user ]} ∅), d)
    | _ => (api.WriteHeader http.StatusUnauthorized w, d)
    end.

(** A downstream handler that leaves the response as it finds it. *)
Definition pass : api.Handler := fun w _ d => (w, d).

(** The response with the two [Vary] values [enableCORS] always adds. *)
Definition vary_cors (w : api.ResponseWriter) : api.ResponseWriter :=
  api.with_Header
    (http.Add "Vary" "Access-Control-Request-Method"
       (http.Add "Vary" "Origin" (api.Header w))) w.

(** The response with [origin] allowed. *)
Definition allow_origin (origin : string) (w : api.ResponseWriter) : api.ResponseWriter :=
  api.with_Header (http.Set_ "Access-Control-Allow-Origin" origin (api.Header w)) w.

(** The response with the answer to a preflight request written. *)
Definition preflight_answer (w : api.ResponseWriter) : api.ResponseWriter :=
  api.WriteHeader 200
    (api.with_Header
       (http.Set_ "Access-Control-Allow-Headers" "Authorization, Content-Type"
          (http.Set_ "Access-Control-Allow-Methods" "OPTIONS, PUT, PATCH, DELETE"
             (api.Header w))) w).

(** The response with the [Vary] value [authenticate] always adds. *)
Definition vary_authorization (w : api.ResponseWriter) : api.ResponseWriter :=
  api.with_Header (http.Add "Vary" "Authorization" (api.Header w)) w.

(** [s] contains no space. *)
Fixpoint spaceless (s : string) : bool :=
  match s with
  | EmptyString => true
  | String c rest => negb (Ascii.eqb c " ") && spaceless rest
  end.

(** The stored token [t] makes [tokenPlaintext] a valid authentication
    token at the instant [now]. *)
Definition authenticates (now : Z) (tokenPlaintext : string) (d : data.DB.t)
    (t : data.tokens.row) : Prop :=
  t ∈ data.DB.tokens d
  ∧ data.tokens.hash t = sha256.Sum256 (bytes_of_string tokenPlaintext)
  ∧ data.tokens.scope t = data.ScopeAuthentication
  ∧ now < data.tokens.expiry t.

(** The members of the object a request body holds. *)
Definition body_members (r : api.Request) : list (string * json.value) :=
  match api.Body r with
  | json.document (json.Object ms) _ _ => ms
  | _ => []
  end.

(** No member of an object has a key that the decoder takes for
    [field]. *)
Definition lacks (field : string) (ms : list (string * json.value)) : Prop :=
  ∀ key v, (key, v) ∈ ms → json.names key field = false.

(** The body of the request names no [field]. *)
Definition absent (field : string) (r : api.Request) : Prop :=
  lacks field (body_members r).

(** The value that an object gives to [field]: that of the last member
    whose key the decoder takes for [field], if there is one. *)
Fixpoint named (field : string) (ms : list (string * json.value))
  : option json.value :=
  match ms with
  | [] => None
  | (key, v) :: rest =>
      match named field rest with
      | Some v' => Some v'
      | None => if json.names key field then Some v else None
      end
  end.

(** The value that the body of the request gives to [field]. *)
Definition given (field : string) (r : api.Request) : option json.value :=
  named field (body_members r).

(** The record [updateMovieHandler] validates and writes back: the loaded
    movie with the fields of the input that are not nil copied in. *)
Definition edited (input : api.updateMovieInput.t) (movie : data.Movie.t)
  : data.Movie.t :=
  {| data.Movie.ID := data.Movie.ID movie;
     data.Movie.CreatedAt := data.Movie.CreatedAt movie;
     data.Movie.Title :=
       default (data.Movie.Title movie) (api.updateMovieInput.Title input);
     data.Movie.Year :=
       default (data.Movie.Year movie) (api.updateMovieInput.Year input);
     data.Movie.Runtime :=
       default (data.Movie.Runtime movie) (api.updateMovieInput.Runtime input);
     data.Movie.Genres :=
       match api.updateMovieInput.Genres input with
       | Some genres => Some genres
       | None => data.Movie.Genres movie
       end;
     data.Movie.Version := data.Movie.Version movie |}.

(** The user [registerUserHandler] builds from its input once the password
    is hashed. *)
Definition registering (input : api.registerUserInput.t) (hash : list byte)
  : data.User.t :=
  {| data.User.ID := 0; data.User.CreatedAt := 0;
     data.User.Name := api.registerUserInput.Name input;
     data.User.Email := api.registerUserInput.Email input;
     data.User.Password :=
       {| data.password.plaintext := Some (api.registerUserInput.Password input);
          data.password.hash := Some hash |};
     data.User.Activated := false; data.User.Version := 0 |}.

(** The store answers the [INSERT] of [user] with a violation of the
    uniqueness constraint on the email column: the driver hands that error
    over, or the statement runs against the table and meets the email. *)
Definition reports_duplicate_email (drv : option error) (now : Z)
    (user : data.User.t) (d : data.DB.t) : Prop :=
  match drv with
  | Some err => err = pq_Error data.users_email_key_violation
  | None =>
      fst (data.insert_users now (data.User.Name user) (data.User.Email user)
             (data.password.hash (data.User.Password user))
             (data.User.Activated user) d)
      = data.scan_error (pq_Error data.users_email_key_violation)
  end.

(** [M] is the quotient [N / D] rounded to an integer: down when the
    division is exact, up when the remainder is more than half of [D], and
    to one of the two neighbours otherwise. *)
Definition rounds (N D M : Z) : Prop :=
  (N mod D = 0 → M = N / D)
  ∧ (D < 2 * (N mod D) → M = N / D + 1)
  ∧ (M = N / D ∨ M = N / D + 1).

(** The ceiling of [n / d] for a positive [d]. *)
Definition cdiv (n d : Z) : Z := (n + d - 1) / d.

(** The value of a decimal numeral read from the left into an accumulator,
    as [strconv.digits] reads its text. *)
Fixpoint uint_value (u : Decimal.uint) (acc : Z) : Z :=
  match u with
  | Decimal.Nil => acc
  | Decimal.D0 l => uint_value l (10 * acc)
  | Decimal.D1 l => uint_value l (10 * acc + 1)
  | Decimal.D2 l => uint_value l (10 * acc + 2)
  | Decimal.D3 l => uint_value l (10 * acc + 3)
  | Decimal.D4 l => uint_value l (10 * acc + 4)
  | Decimal.D5 l => uint_value l (10 * acc + 5)
  | Decimal.D6 l => uint_value l (10 * acc + 6)
  | Decimal.D7 l => uint_value l (10 * acc + 7)
  | Decimal.D8 l => uint_value l (10 * acc + 8)
  | Decimal.D9 l => uint_value l (10 * acc + 9)
  end.

(** The row of a user after the update that activates the account. *)
Definition activated_row (row : data.users.row) : data.users.row :=
  {| data.users.created_at := data.users.created_at row;
     data.users.name := data.users.name row;
     data.users.email := data.users.email row;
     data.users.password_hash := data.users.password_hash row;
     data.users.activated := true;
     data.users.version := data.users.version row + 1 |}.

(** The stored token [t] makes [tokenPlaintext] a valid activation token
    at the instant [now]. *)
Definition activates (now : Z) (tokenPlaintext : string) (d : data.DB.t)
    (t : data.tokens.row) : Prop :=
  t ∈ data.DB.tokens d
  ∧ data.tokens.hash t = sha256.Sum256 (bytes_of_string tokenPlaintext)
  ∧ data.tokens.scope t = data.ScopeActivation
  ∧ now < data.tokens.expiry t.

(** The tokens of [d] that are no activation token of the user [id]. *)
Definition without_activation_tokens (id : Z) (d : data.DB.t)
  : list data.tokens.row :=
  filter (fun t => ¬ (data.tokens.scope t = data.ScopeActivation
                      ∧ data.tokens.user_id t = id))
         (data.DB.tokens d).

(** Tokens with the same hash belong to the same user. *)
Definition hash_names_owner (d : data.DB.t) : Prop :=
  ∀ t1 t2, t1 ∈ data.DB.tokens d → t2 ∈ data.DB.tokens d →
           data.tokens.hash t1 = data.tokens.hash t2 →
           data.tokens.user_id t1 = data.tokens.user_id t2.

(** The request body [{"token": tokenPlaintext}]. *)
Definition names_token (tokenPlaintext : string) (r : api.Request) : Prop :=
  ∃ offset, api.Body r
            = json.document (json.Object [("token", json.String tokenPlaintext)])
                offset false.

(** The filters [listMoviesHandler] reads from a query string. *)
Definition filters_of (qs : url.Values) : data.Filters :=
  {| data.Page := fst (api.readInt qs "page" 1 validator.New);
     data.PageSize := fst (api.readInt qs "page_size" 20 validator.New);
     data.Sort := api.readString qs "sort" "id";
     data.SortSafelist :=
       ["id"; "title"; "year"; "runtime"; "-id"; "-title"; "-year"; "-runtime"] |}.

(** The value of [key] in the query string is there and is no integer. *)
Definition not_an_integer (key : string) (qs : url.Values) : Prop :=
  url.Get key qs ≠ "" ∧ strconv.Atoi (url.Get key qs) = None.

(** ** Concrete inputs

    Requests, records and tables on which the properties of Part II are
    exercised. *)

Definition filters_by_year_descending : data.Filters :=
  {| data.Page := 1; data.PageSize := 20; data.Sort := "-year";
     data.SortSafelist :=
       ["id"; "title"; "year"; "runtime"; "-id"; "-title"; "-year"; "-runtime"] |}.

Definition filters_by_injection : data.Filters :=
  {| data.Page := 1; data.PageSize := 20; data.Sort := "id; DROP TABLE movies";
     data.SortSafelist :=
       ["id"; "title"; "year"; "runtime"; "-id"; "-title"; "-year"; "-runtime"] |}.

Definition filters_last_page : data.Filters :=
  {| data.Page := 10000000; data.PageSize := 100; data.Sort := "id";
     data.SortSafelist :=
       ["id"; "title"; "year"; "runtime"; "-id"; "-title"; "-year"; "-runtime"] |}.

Definition casablanca : data.movies.row :=
  {| data.movies.created_at := 1700000000; data.movies.title := "Casablanca";
     data.movies.year := 1942; data.movies.runtime := 102;
     data.movies.genres := Some ["drama"; "romance"];
     data.movies.version := 3 |}.

Definition ann : data.users.row :=
  {| data.users.created_at := 1700000000; data.users.name := "Ann";
     data.users.email := "ann@x.com";
     data.users.password_hash := Some (bytes_of_string "$2a$12$salted");
     data.users.activated := true; data.users.version := 1 |}.

(** A token of Ann's, issued for authentication until the instant 2000. *)
Definition ann_token : string := "AAAQEAYEAUDAOCAJBIFQYDIOB4".

Definition store : data.DB.t :=
  {| data.DB.movies := {[ 7 := casablanca ]};
     data.DB.users := {[ 1 := ann ]};
     data.DB.users_id_seq := 2;
     data.DB.tokens :=
       [ {| data.tokens.hash := sha256.Sum256 (bytes_of_string ann_token);
            data.tokens.user_id := 1; data.tokens.expiry := 2000;
            data.tokens.scope := data.ScopeAuthentication |} ];
     data.DB.permissions := [(1, "movies:read"); (2, "movies:write")];
     data.DB.users_permissions := [(1, 1)] |}.

(** Casablanca as a client read it at version 3, with a corrected year. *)
Definition casablanca_edit : data.Movie.t :=
  {| data.Movie.ID := 7; data.Movie.CreatedAt := 1700000000;
     data.Movie.Title := "Casablanca"; data.Movie.Year := 1943;
     data.Movie.Runtime := 102; data.Movie.Genres := Some ["drama"; "romance"];
     data.Movie.Version := 3 |}.

(** Ann as a client read her at version 1, now with another name. *)
Definition ann_edit : data.User.t :=
  {| data.User.ID := 1; data.User.CreatedAt := 1700000000;
     data.User.Name := "Ann B."; data.User.Email := "ann@x.com";
     data.User.Password :=
       {| data.password.plaintext := None;
          data.password.hash := Some (bytes_of_string "$2a$12$salted") |};
     data.User.Activated := true; data.User.Version := 1 |}.

Definition catalogue : api.application :=
  {| api.config := {| api.config.cors_trustedOrigins :=
                        ["https://www.example.com"; "https://app.example.com"] |} |}.

Definition preflight_from (origin : string) : api.Request :=
  {| api.Method := "OPTIONS";
     api.RequestHeader := {[ "Origin" := [origin];
                             "Access-Control-Request-Method" := ["PATCH"] ]};
     api.id_param := "7"; api.Body := json.unreadable json.EOF;
     api.context_user := None |}.

Definition get_with_authorization (value : string) : api.Request :=
  {| api.Method := "GET";
     api.RequestHeader := {[ "Authorization" := [value] ]};
     api.id_param := "7"; api.Body := json.unreadable json.EOF;
     api.context_user := None |}.

(** [PATCH /v1/movies/7] with the body [{"year":2020}]. *)
Definition patch_year : api.Request :=
  {| api.Method := "PATCH"; api.RequestHeader := ∅; api.id_param := "7";
     api.Body := json.document (json.Object [("year", json.Number "2020")]) 13 false;
     api.context_user := None |}.

(** [POST /v1/users] for an address that differs from Ann's in case only. *)
Definition register_ann_again : api.Request :=
  {| api.Method := "POST"; api.RequestHeader := ∅; api.id_param := "";
     api.Body :=
       json.document
         (json.Object [("name", json.String "Ann");
                       ("email", json.String "Ann@X.com");
                       ("password", json.String "longenough1")]) 62 false;
     api.context_user := None |}.

(** A stand-in for bcrypt: the hash does not matter to any property. *)
Definition constant_hash : data.bcrypt_GenerateFromPassword :=
  fun _ _ => inl (bytes_of_string "$2a$12$hashed").

Definition counting_source : rand.source :=
  rand.yielding (fun i => byte_of_Z (Z.of_nat i)).

(** [POST /v1/movies] with a complete movie. *)
Definition post_moana : api.Request :=
  {| api.Method := "POST"; api.RequestHeader := ∅; api.id_param := "";
     api.Body :=
       json.document
         (json.Object [("title", json.String "Moana");
                       ("year", json.Number "2016");
                       ("runtime", json.String "107 mins");
                       ("genres", json.Array [json.String "animation";
                                              json.String "adventure"])])
         88 false;
     api.context_user := None |}.

(** A request for [/v1/movies/8]. *)
Definition patch_year_of_8 : api.Request :=
  {| api.Method := "PATCH"; api.RequestHeader := ∅; api.id_param := "8";
     api.Body := json.document (json.Object [("year", json.Number "2020")]) 13 false;
     api.context_user := None |}.

Definition bob : data.users.row :=
  {| data.users.created_at := 1700000100; data.users.name := "Bob";
     data.users.email := "bob@x.com";
     data.users.password_hash := Some (bytes_of_string "$2a$12$salted");
     data.users.activated := false; data.users.version := 1 |}.

(** The token mailed to Bob for the activation of his account. *)
Definition bob_token : string := "BBBQEAYEAUDAOCAJBIFQYDIOB4".

(** [store] with Bob registered and not yet activated. *)
Definition store_with_bob : data.DB.t :=
  {| data.DB.movies := {[ 7 := casablanca ]};
     data.DB.users := {[ 1 := ann; 2 := bob ]};
     data.DB.users_id_seq := 3;
     data.DB.tokens :=
       [ {| data.tokens.hash := sha256.Sum256 (bytes_of_string ann_token);
            data.tokens.user_id := 1; data.tokens.expiry := 2000;
            data.tokens.scope := data.ScopeAuthentication |};
         {| data.tokens.hash := sha256.Sum256 (bytes_of_string bob_token);
            data.tokens.user_id := 2; data.tokens.expiry := 5000;
            data.tokens.scope := data.ScopeActivation |} ];
     data.DB.permissions := [(1, "movies:read"); (2, "movies:write")];
     data.DB.users_permissions := [(1, 1); (2, 1)] |}.

(** [PUT /v1/users/activated] with the body [{"token": ...}]. *)
Definition activate_with (tokenPlaintext : string) : api.Request :=
  {| api.Method := "PUT"; api.RequestHeader := ∅; api.id_param := "";
     api.Body :=
       json.document (json.Object [("token", json.String tokenPlaintext)]) 38 false;
     api.context_user := None |}.

(** [POST /v1/users] for a new address. *)
Definition register_cy : api.Request :=
  {| api.Method := "POST"; api.RequestHeader := ∅; api.id_param := "";
     api.Body :=
       json.document
         (json.Object [("name", json.String "Cy");
                       ("email", json.String "cy@x.com");
                       ("password", json.String "longenough2")]) 61 false;
     api.context_user := None |}.

(** A random source that yields the bytes 1, 2, 3 and so on. *)
Definition other_source : rand.source :=
  rand.yielding (fun i => byte_of_Z (Z.of_nat i + 1)).

(** A handler of a route that answers with the status 204. *)
Definition no_content : api.HandlerFunc :=
  fun w _ d => Returned (api.WriteHeader 204 w, d).

(** * Part II: properties *)

(** ** Header keys *)

Section Header_facts.

(** The canonical form of a key: [WWW-Authenticate] is stored as
    [Www-Authenticate]; a key with a space is left as it is. *)
Lemma CanonicalHeaderKey_vectors :
  http.CanonicalHeaderKey "WWW-Authenticate" = "Www-Authenticate"
  ∧ http.CanonicalHeaderKey "content-type" = "Content-Type"
  ∧ http.CanonicalHeaderKey "Access-Control-Allow-Origin" = "Access-Control-Allow-Origin"
  ∧ http.CanonicalHeaderKey "x-forwarded-FOR" = "X-Forwarded-For"
  ∧ http.CanonicalHeaderKey "not a key" = "not a key".
Proof. by vm_compute. Qed.

Lemma Add_canonical key value h :
  http.CanonicalHeaderKey key = key →
  http.Add key value h = <[key := (default [] (h !! key) ++ [value])%list]> h.
Proof. unfold http.Add. by intros ->. Qed.

Lemma Set_canonical key value h :
  http.CanonicalHeaderKey key = key →
  http.Set_ key value h = <[key := [value]]> h.
Proof. unfold http.Set_. by intros ->. Qed.

Lemma Get_canonical key h :
  http.CanonicalHeaderKey key = key →
  http.Get key h = match h !! key with
                   | Some (value :: _) => value
                   | _ => ""
                   end.
Proof. unfold http.Get. by intros ->. Qed.

End Header_facts.

(** Keys written in their canonical form are stored as they are. *)
Ltac canonical_keys :=
  rewrite ?Add_canonical, ?Set_canonical, ?Get_canonical by (by vm_compute).

(** ** Validator *)

Section Validator_facts.
Import validator calls.

Lemma AddError_lookup key message v k :
  Errors (AddError key message v) !! k =
  match Errors v !! k with
  | Some m => Some m
  | None => if String.eqb key k then Some message else None
  end.
Proof.
  unfold AddError. destruct (Errors v !! key) eqn:Hkey.
  - destruct (Errors v !! k) eqn:Hk; [done|].
    destruct (String.eqb_spec key k); [congruence | done].
  - cbn. destruct (String.eqb_spec key k) as [->|Hne].
    + by rewrite lookup_insert_eq, Hkey.
    + rewrite lookup_insert_ne by done. by destruct (Errors v !! k).
Qed.

Lemma apply_lookup c v k :
  Errors (apply v c) !! k =
  match Errors v !! k with
  | Some m => Some m
  | None => match failure c with
            | Some (k', m) => if String.eqb k' k then Some m else None
            | None => None
            end
  end.
Proof.
  destruct c as [[] key message | key message]; cbn.
  - by destruct (Errors v !! k).
  - apply AddError_lookup.
  - apply AddError_lookup.
Qed.

Lemma run_lookup cs v k :
  Errors (run cs v) !! k =
  match Errors v !! k with
  | Some m => Some m
  | None => first_message k (failures cs)
  end.
Proof.
  revert v. induction cs as [|c cs IH]; intros v.
  - cbn. by destruct (Errors v !! k).
  - change (run (c :: cs) v) with (run cs (apply v c)).
    rewrite IH, apply_lookup. unfold failures. cbn.
    destruct (Errors v !! k); [done|].
    destruct (failure c) as [[k' m]|]; cbn; [|done].
    by destruct (String.eqb k' k).
Qed.

Lemma Valid_empty v : Valid v = true ↔ Errors v = ∅.
Proof.
  unfold Valid. rewrite Nat.eqb_eq. apply map_size_empty_iff.
Qed.

Lemma first_message_head k m fs : first_message k ((k, m) :: fs) = Some m.
Proof. cbn. by rewrite String.eqb_refl. Qed.

End Validator_facts.

(** C5.  For every sequence of [Check] and [AddError] calls on a fresh
    validator: [Valid] answers true exactly when the calls reported no
    failure; the message stored under a key is the one of the first failure
    reported for that key, later ones being dropped; and one more
    [Check ok key message] leaves the entry of [key] as it is when [ok]
    holds and otherwise fills it, keeping an earlier message if there is
    one, so that on a fresh validator [Check] records a failure for [key]
    exactly when [ok] is false. *)
Theorem validator_first_error_wins
    (cs : list calls.call) (ok : bool) (key message : string) :
  let v := calls.run cs validator.New in
  (validator.Valid v = true ↔ calls.failures cs = [])
  ∧ validator.Errors v !! key = calls.first_message key (calls.failures cs)
  ∧ validator.Errors (validator.Check ok key message v) !! key =
      (if ok then validator.Errors v !! key
       else Some (default message (validator.Errors v !! key)))
  ∧ (is_Some (validator.Errors (validator.Check ok key message validator.New) !! key)
     ↔ ok = false).
Proof.
  intros v. split; [|split; [|split]].
  - rewrite Valid_empty. split.
    + intros Hempty. destruct (calls.failures cs) as [|[k m] fs] eqn:Hfs; [done|].
      exfalso. pose proof (run_lookup cs validator.New k) as Hk.
      fold v in Hk. rewrite Hempty, Hfs, first_message_head in Hk.
      cbn in Hk. by rewrite !lookup_empty in Hk.
    + intros Hnone. apply map_empty. intros k. subst v.
      rewrite run_lookup, Hnone. cbn. by rewrite lookup_empty.
  - subst v. rewrite run_lookup. cbn. by rewrite lookup_empty.
  - destruct ok; cbn; [done|]. rewrite AddError_lookup.
    destruct (validator.Errors v !! key); cbn; [done|].
    by rewrite String.eqb_refl.
  - destruct ok; cbn.
    + rewrite lookup_empty. split; [by intros [? ?] | done].
    + rewrite AddError_lookup. cbn. rewrite lookup_empty, String.eqb_refl.
      split; [done | by eexists].
Qed.

(** ** Filters *)

Section Filters_facts.
Import data.

Lemma TrimPrefix_hyphen (s : string) :
  strings.TrimPrefix s "-" =
  match s with String "-"%char rest => rest | _ => s end.
Proof.
  unfold strings.TrimPrefix. destruct s as [|c s]; [done|].
  cbn [strings.HasPrefix]. rewrite andb_true_r.
  destruct (Ascii.eqb_spec c "-") as [->|Hne]; [done|].
  destruct c as [[] [] [] [] [] [] [] []]; done.
Qed.

Lemma HasPrefix_hyphen (s : string) :
  strings.HasPrefix s "-" =
  match s with String "-"%char _ => true | _ => false end.
Proof.
  destruct s as [|c s]; [done|].
  cbn [strings.HasPrefix]. rewrite andb_true_r.
  destruct (Ascii.eqb_spec c "-") as [->|Hne]; [done|].
  destruct c as [[] [] [] [] [] [] [] []]; done.
Qed.

Lemma In_elem_of (value : string) (l : list string) :
  validator.In value l = true ↔ value ∈ l.
Proof.
  induction l as [|x l IH]; cbn.
  - split; [done | by intros ?%elem_of_nil].
  - rewrite elem_of_cons. destruct (String.eqb_spec value x); [tauto|].
    rewrite IH. tauto.
Qed.

Lemma sortColumn_range_spec (sort : string) (safelist : list string) :
  sortColumn_range sort safelist =
  if validator.In sort safelist
  then Returned (strings.TrimPrefix sort "-")
  else Panic ("unsafe sort parameter:" ++ sort).
Proof.
  induction safelist as [|x l IH]; cbn; [done|].
  by destruct (String.eqb sort x).
Qed.

Lemma ValidateFilters_valid (f : Filters) :
  validator.Valid (ValidateFilters validator.New f) =
  (0 <? Page f) && (Page f <=? 10000000)
  && (0 <? PageSize f) && (PageSize f <=? 100)
  && validator.In (Sort f) (SortSafelist f).
Proof.
  unfold ValidateFilters.
  destruct (0 <? Page f), (Page f <=? 10000000), (0 <? PageSize f),
    (PageSize f <=? 100), (validator.In (Sort f) (SortSafelist f));
    by vm_compute.
Qed.

Lemma wrap_int_id (z : Z) : int_min ≤ z ≤ int_max → wrap_int z = z.
Proof.
  unfold int_min, int_max, wrap_int. intros Hz.
  rewrite Z.mod_small by lia. lia.
Qed.

End Filters_facts.

(** C4.  When the [Sort] value is an element of the safelist, [sortColumn]
    returns it with one leading hyphen removed and [sortDirection] answers
    DESC for a leading hyphen and ASC otherwise.  When it is not in the
    safelist, [sortColumn] panics, and so does the construction of the
    statement in [GetAll]: no statement text is built from it. *)
Theorem sortColumn_safelist_or_panic (f : data.Filters) :
  (data.Sort f ∈ data.SortSafelist f →
     data.sortColumn f =
       Returned (match data.Sort f with
                 | String "-"%char column => column
                 | _ => data.Sort f
                 end)
     ∧ data.sortDirection f =
       match data.Sort f with String "-"%char _ => "DESC" | _ => "ASC" end)
  ∧ (data.Sort f ∉ data.SortSafelist f →
     data.sortColumn f = Panic ("unsafe sort parameter:" ++ data.Sort f)
     ∧ data.GetAll_query f = Panic ("unsafe sort parameter:" ++ data.Sort f)).
Proof.
  unfold data.GetAll_query, data.sortColumn, data.sortDirection.
  rewrite sortColumn_range_spec, TrimPrefix_hyphen, HasPrefix_hyphen.
  split.
  - intros Hin%In_elem_of. rewrite Hin. split; [done|].
    by destruct (data.Sort f) as [|[[] [] [] [] [] [] [] []] ?].
  - intros Hnot. destruct (validator.In _ _) eqn:Hin; [|done].
    by apply In_elem_of in Hin.
Qed.

Lemma sortColumn_safelist_or_panic_witness :
  (data.sortColumn filters_by_year_descending = Returned "year"
   ∧ data.sortDirection filters_by_year_descending = "DESC")
  ∧ (data.sortColumn filters_by_injection =
       Panic "unsafe sort parameter:id; DROP TABLE movies"
     ∧ data.GetAll_query filters_by_injection =
       Panic "unsafe sort parameter:id; DROP TABLE movies").
Proof.
  split.
  - apply (proj1 (sortColumn_safelist_or_panic filters_by_year_descending)).
    apply In_elem_of. reflexivity.
  - apply (proj2 (sortColumn_safelist_or_panic filters_by_injection)).
    intros Hin%In_elem_of. discriminate Hin.
Defined.

(** C10.  For filters that [ValidateFilters] accepts, the page lies between
    1 and 10,000,000 and the page size between 1 and 100; [limit] is the
    page size; [offset], computed in 64-bit arithmetic, is exactly
    [(Page - 1) * PageSize]; and that product lies between 0 and
    999,999,900, inside the range of [int]. *)
Theorem offset_exact_for_valid_filters (f : data.Filters) :
  validator.Valid (data.ValidateFilters validator.New f) = true →
  (1 ≤ data.Page f ≤ 10000000 ∧ 1 ≤ data.PageSize f ≤ 100)
  ∧ data.limit f = data.PageSize f
  ∧ data.offset f = (data.Page f - 1) * data.PageSize f
  ∧ 0 ≤ (data.Page f - 1) * data.PageSize f ≤ 999999900
  ∧ int_min ≤ (data.Page f - 1) * data.PageSize f ≤ int_max.
Proof.
  rewrite ValidateFilters_valid, !andb_true_iff.
  intros [[[[Hp1 Hp2] Hs1] Hs2] _].
  apply Z.ltb_lt in Hp1, Hs1. apply Z.leb_le in Hp2, Hs2.
  assert (0 ≤ (data.Page f - 1) * data.PageSize f ≤ 999999900) by nia.
  unfold data.limit, data.offset, int_min, int_max.
  rewrite (wrap_int_id (data.Page f - 1)) by (unfold int_min, int_max; lia).
  rewrite wrap_int_id by (unfold int_min, int_max; lia).
  repeat split; lia.
Qed.

Lemma offset_exact_for_valid_filters_witness :
  data.limit filters_last_page = 100
  ∧ data.offset filters_last_page = 999999900.
Proof.
  pose proof (offset_exact_for_valid_filters filters_last_page eq_refl)
    as (_ & Hlimit & Hoffset & _).
  split; [exact Hlimit | exact Hoffset].
Defined.


(** ** Optimistic concurrency *)

Section Update_facts.
Import data.

Lemma MovieModel_Update_optimistic :
  optimistic MovieModel.Update DB.movies Movie.ID Movie.Version movies.version.
Proof.
  intros drv movie d err movie' d'.
  unfold MovieModel.Update, update_movies.
  destruct drv as [e|].
  { destruct (errors_Is e sql_ErrNoRows); intros [= <- <- <-];
      (split; [done|]); (split; [by eauto using Z.le_refl|]);
      (split; [done|]); split; done. }
  destruct (DB.movies d !! Movie.ID movie) as [r|] eqn:Hrow.
  2:{ cbn. intros [= <- <- <-]. split; [done|].
      split; [by eauto using Z.le_refl|]. split; [done|]. split; done. }
  destruct (Z.eqb_spec (movies.version r) (Movie.Version movie)) as [Hv|Hv].
  2:{ cbn. intros [= <- <- <-]. split; [done|].
      split; [by eauto using Z.le_refl|]. split; [done|]. split; done. }
  destruct (pg_integer_max <? movies.version r + 1).
  { cbn. intros [= <- <- <-]. split; [done|].
    split; [by eauto using Z.le_refl|]. split; [done|].
    split; [|done]. intros _ Hno. by destruct (Hno r). }
  cbn. intros [= <- <- <-]. split; [|split; [|split; [|split]]].
  - intros _. eexists r, _. cbn. rewrite lookup_insert_eq.
    repeat split; [done | cbn; lia | lia].
  - intros id r0 Hid. cbn. destruct (decide (Movie.ID movie = id)) as [<-|Hne].
    + rewrite lookup_insert_eq. eexists. split; [done|]. cbn.
      rewrite Hrow in Hid. injection Hid as <-. lia.
    + rewrite lookup_insert_ne by done. eauto using Z.le_refl.
  - done.
  - intros _ Hno. by destruct (Hno r).
  - intros _. cbn. rewrite lookup_insert_eq. cbn.
    destruct (Z.eqb_spec (movies.version r + 1) (Movie.Version movie)); [lia|].
    done.
Qed.

Lemma duplicate_email_text_not_ErrNoRows :
  String.eqb (Error sql_ErrNoRows) UserModel.duplicate_email_text = false.
Proof. reflexivity. Qed.

Lemma UserModel_Update_optimistic :
  optimistic UserModel.Update DB.users User.ID User.Version users.version.
Proof.
  intros drv user d err user' d'.
  unfold UserModel.Update, update_users.
  destruct drv as [e|].
  { destruct (String.eqb (Error e) _); [|destruct (errors_Is e sql_ErrNoRows)];
      intros [= <- <- <-];
      (split; [done|]); (split; [by eauto using Z.le_refl|]);
      (split; [done|]); split; done. }
  destruct (DB.users d !! User.ID user) as [r|] eqn:Hrow.
  2:{ cbn. intros [= <- <- <-]. split; [done|].
      split; [by eauto using Z.le_refl|]. split; [done|]. split; done. }
  destruct (Z.eqb_spec (users.version r) (User.Version user)) as [Hv|Hv].
  2:{ cbn. intros [= <- <- <-]. split; [done|].
      split; [by eauto using Z.le_refl|]. split; [done|]. split; done. }
  destruct (pg_integer_max <? users.version r + 1).
  { cbn. intros [= <- <- <-]. split; [done|].
    split; [by eauto using Z.le_refl|]. split; [done|].
    split; [|done]. intros _ Hno. by destruct (Hno r). }
  destruct (email_in_use _ _ d).
  { cbn. intros [= <- <- <-]. split; [done|].
    split; [by eauto using Z.le_refl|]. split; [done|].
    split; [|done]. intros _ Hno. by destruct (Hno r). }
  cbn. intros [= <- <- <-]. split; [|split; [|split; [|split]]].
  - intros _. eexists r, _. cbn. rewrite lookup_insert_eq.
    repeat split; [done | cbn; lia | lia].
  - intros id r0 Hid. cbn. destruct (decide (User.ID user = id)) as [<-|Hne].
    + rewrite lookup_insert_eq. eexists. split; [done|]. cbn.
      rewrite Hrow in Hid. injection Hid as <-. lia.
    + rewrite lookup_insert_ne by done. eauto using Z.le_refl.
  - done.
  - intros _ Hno. by destruct (Hno r).
  - intros _. cbn. rewrite lookup_insert_eq. cbn.
    destruct (Z.eqb_spec (users.version r + 1) (User.Version user)); [lia|].
    done.
Qed.

End Update_facts.

(** C1.  [Update] of a movie and [Update] of a user are both guarded by the
    version counter: a call succeeds only when the stored version equals the
    expected one, and the stored version is then the expected one plus one;
    stored versions never decrease and rows never vanish; when the statement
    runs and matches no row, the result is [ErrEditConflict] and nothing is
    changed; and a second call with the same expected version after a
    successful first one is an edit conflict that overwrites nothing. *)
Theorem Update_is_optimistic :
  optimistic data.MovieModel.Update data.DB.movies
             data.Movie.ID data.Movie.Version data.movies.version
  ∧ optimistic data.UserModel.Update data.DB.users
               data.User.ID data.User.Version data.users.version.
Proof.
  split; [apply MovieModel_Update_optimistic | apply UserModel_Update_optimistic].
Qed.

Lemma Update_is_optimistic_witness :
  (∃ movie' d',
     data.MovieModel.Update None casablanca_edit store = (None, movie', d')
     ∧ data.Movie.Version movie' = 4
     ∧ data.movies.version <$> data.DB.movies d' !! 7 = Some 4
     ∧ data.MovieModel.Update None casablanca_edit d'
       = (Some ErrEditConflict, casablanca_edit, d'))
  ∧ (∃ user' d',
     data.UserModel.Update None ann_edit store = (None, user', d')
     ∧ data.User.Version user' = 2
     ∧ data.users.version <$> data.DB.users d' !! 1 = Some 2
     ∧ data.UserModel.Update None ann_edit d'
       = (Some ErrEditConflict, ann_edit, d')).
Proof.
  destruct Update_is_optimistic as [Hmovies Husers]. split.
  - destruct (data.MovieModel.Update None casablanca_edit store)
      as [[err movie'] d'] eqn:Hcall.
    assert (err = None) as -> by (vm_compute in Hcall; congruence).
    destruct (Hmovies _ _ _ _ _ _ Hcall) as (Hok & _ & _ & _ & Hretry).
    destruct (Hok eq_refl) as (r & r' & _ & _ & Hr' & Hv' & Hm').
    exists movie', d'. split; [done|]. split; [exact Hm'|].
    split; [|by apply Hretry].
    change (data.Movie.ID casablanca_edit) with 7 in Hr'.
    rewrite Hr'. cbn. by rewrite Hv'.
  - destruct (data.UserModel.Update None ann_edit store)
      as [[err user'] d'] eqn:Hcall.
    assert (err = None) as -> by (vm_compute in Hcall; congruence).
    destruct (Husers _ _ _ _ _ _ Hcall) as (Hok & _ & _ & _ & Hretry).
    destruct (Hok eq_refl) as (r & r' & _ & _ & Hr' & Hv' & Hu').
    exists user', d'. split; [done|]. split; [exact Hu'|].
    split; [|by apply Hretry].
    change (data.User.ID ann_edit) with 1 in Hr'.
    rewrite Hr'. cbn. by rewrite Hv'.
Defined.


(** ** CORS *)

Section CORS_facts.
Import api.

Lemma allow_origin_twice origin w :
  allow_origin origin (allow_origin origin w) = allow_origin origin w.
Proof.
  unfold allow_origin, with_Header. cbn. canonical_keys. by rewrite insert_insert_eq.
Qed.

Lemma enableCORS_range_spec l origin r w :
  enableCORS_range l origin r w =
  if validator.In origin l
  then if is_preflight r
       then (preflight_answer (allow_origin origin w), true)
       else (allow_origin origin w, false)
  else (w, false).
Proof.
  revert w. induction l as [|trusted l IH]; intros w; [done|].
  cbn [enableCORS_range validator.In].
  destruct (String.eqb origin trusted); [|apply IH].
  change (String.eqb (Method r) http.MethodOptions && _) with (is_preflight r).
  destruct (is_preflight r); [done|].
  rewrite IH. destruct (validator.In origin l); [|done].
  fold (allow_origin origin w). by rewrite allow_origin_twice.
Qed.

Lemma from_trusted_origin_In app r :
  from_trusted_origin app r ↔
  negb (String.eqb (http.Get "Origin" (RequestHeader r)) "")
  && validator.In (http.Get "Origin" (RequestHeader r))
       (config.cors_trustedOrigins (config app)) = true.
Proof.
  unfold from_trusted_origin.
  rewrite andb_true_iff, negb_true_iff, In_elem_of.
  destruct (String.eqb_spec (http.Get "Origin" (RequestHeader r)) "");
    split; intros [? ?]; split; congruence.
Qed.

Lemma enableCORS_cases app next w r d :
  enableCORS app next w r d =
  if negb (String.eqb (http.Get "Origin" (RequestHeader r)) "")
     && validator.In (http.Get "Origin" (RequestHeader r))
          (config.cors_trustedOrigins (config app))
  then if is_preflight r
       then (preflight_answer
               (allow_origin (http.Get "Origin" (RequestHeader r)) (vary_cors w)), d)
       else next (allow_origin (http.Get "Origin" (RequestHeader r)) (vary_cors w)) r d
  else next (vary_cors w) r d.
Proof.
  unfold enableCORS. fold (vary_cors w).
  destruct (negb (String.eqb _ "")); [|done].
  rewrite enableCORS_range_spec.
  destruct (config.cors_trustedOrigins (config app)) as [|o l] eqn:Hl; [done|].
  cbn [length Nat.eqb negb andb].
  destruct (validator.In _ (o :: l)); [|done].
  by destruct (is_preflight r).
Qed.

End CORS_facts.

(** C7, as the code has it.  With the two [Vary] values added in every
    case: a request whose [Origin] is one of the trusted origins gets
    [Access-Control-Allow-Origin] set to that origin, and any other request
    is passed on with that header as it was; so, on a response that did not
    carry the header, it is set exactly for the trusted origins.  A
    preflight request from a trusted origin is answered by the middleware
    itself, with the status 200 and the allowed methods and headers,
    whatever the downstream handler is.  Every other request, a preflight
    request from another origin included, goes to the downstream handler. *)
Theorem enableCORS_trusted_origin
    (app : api.application) (next : api.Handler)
    (w : api.ResponseWriter) (r : api.Request) (d : data.DB.t) :
  let origin := http.Get "Origin" (api.RequestHeader r) in
  (from_trusted_origin app r → is_preflight r = true →
     api.enableCORS app next w r d
     = (preflight_answer (allow_origin origin (vary_cors w)), d))
  ∧ (from_trusted_origin app r → is_preflight r = false →
     api.enableCORS app next w r d
     = next (allow_origin origin (vary_cors w)) r d)
  ∧ (¬ from_trusted_origin app r →
     api.enableCORS app next w r d = next (vary_cors w) r d)
  ∧ (api.Header w !! "Access-Control-Allow-Origin" = None →
     (api.Header (fst (api.enableCORS app pass w r d))
        !! "Access-Control-Allow-Origin" = Some [origin]
      ↔ from_trusted_origin app r)
     ∧ (¬ from_trusted_origin app r →
        api.Header (fst (api.enableCORS app pass w r d))
          !! "Access-Control-Allow-Origin" = None))
  ∧ (api.status w = None →
     let answer := preflight_answer (allow_origin origin (vary_cors w)) in
     api.status answer = Some 200
     ∧ api.written answer = api.written w
     ∧ api.Header answer !! "Access-Control-Allow-Origin" = Some [origin]
     ∧ api.Header answer !! "Access-Control-Allow-Methods"
       = Some ["OPTIONS, PUT, PATCH, DELETE"]
     ∧ api.Header answer !! "Access-Control-Allow-Headers"
       = Some ["Authorization, Content-Type"]).
Proof.
  intros origin. subst origin.
  pose proof (from_trusted_origin_In app r) as Htrusted.
  split; [|split; [|split; [|split]]].
  - intros Ht%Htrusted Hp. by rewrite enableCORS_cases, Ht, Hp.
  - intros Ht%Htrusted Hp. by rewrite enableCORS_cases, Ht, Hp.
  - intros Hnt. rewrite enableCORS_cases.
    destruct (negb _ && _); [|done]. by destruct Hnt; apply Htrusted.
  - intros Hunset. rewrite enableCORS_cases.
    assert (api.Header (vary_cors w) !! "Access-Control-Allow-Origin" = None)
      as Hvary.
    { unfold vary_cors. cbn. canonical_keys. by rewrite !lookup_insert_ne. }
    assert (∀ origin, api.Header (allow_origin origin (vary_cors w))
                      !! "Access-Control-Allow-Origin" = Some [origin])
      as Hallow.
    { intros origin. unfold allow_origin. cbn [api.Header api.with_Header].
      canonical_keys. by rewrite lookup_insert_eq. }
    assert (∀ v, api.Header (preflight_answer v) !! "Access-Control-Allow-Origin"
                 = api.Header v !! "Access-Control-Allow-Origin") as Hanswer.
    { intros v. unfold preflight_answer, api.WriteHeader.
      destruct (api.status v) eqn:Hs; cbn; rewrite ?Hs; cbn; canonical_keys;
        by rewrite !lookup_insert_ne. }
    unfold pass. destruct (negb _ && _) eqn:Ht.
    + assert (from_trusted_origin app r) as Hyes by by apply Htrusted.
      destruct (is_preflight r); cbn [fst];
        rewrite ?Hanswer, Hallow; tauto.
    + assert (¬ from_trusted_origin app r) as Hno.
      { intros H%Htrusted. congruence. }
      cbn [fst]. rewrite Hvary. split; [|done]. split; [done | tauto].
  - intros Hstatus. unfold preflight_answer, api.WriteHeader. cbn.
    rewrite Hstatus. cbn. canonical_keys.
    rewrite !lookup_insert_ne, !lookup_insert_eq by done.
    by rewrite lookup_insert_ne, lookup_insert_eq by done.
Qed.

Lemma enableCORS_trusted_origin_witness :
  api.enableCORS catalogue teapot api.fresh
    (preflight_from "https://app.example.com") store
  = (preflight_answer
       (allow_origin "https://app.example.com" (vary_cors api.fresh)), store)
  ∧ api.status
      (preflight_answer
         (allow_origin "https://app.example.com" (vary_cors api.fresh)))
    = Some 200.
Proof.
  pose proof (enableCORS_trusted_origin catalogue teapot api.fresh
                (preflight_from "https://app.example.com") store)
    as (Hanswer & _ & _ & _ & Hstatus).
  split.
  - apply Hanswer; [|reflexivity].
    split; [discriminate|]. apply In_elem_of. reflexivity.
  - apply (Hstatus eq_refl).
Defined.

(** The claim C7 reads that every preflight request is answered by the
    middleware.  One from an origin that is not trusted reaches the
    downstream handler, whose status the response then carries. *)
Lemma enableCORS_preflight_untrusted_counterexample :
  is_preflight (preflight_from "https://evil.example") = true
  ∧ api.enableCORS catalogue teapot api.fresh
      (preflight_from "https://evil.example") store
    = teapot (vary_cors api.fresh) (preflight_from "https://evil.example") store
  ∧ api.status
      (fst (api.enableCORS catalogue teapot api.fresh
              (preflight_from "https://evil.example") store))
    = Some 418.
Proof. by vm_compute. Qed.


(** ** Authentication *)

Section Authenticate_facts.
Import api.

Lemma Split_nonempty s sep : strings.Split s sep ≠ [].
Proof.
  destruct s as [|c s]; cbn; [done|].
  destruct (Ascii.eqb c sep); [done|]. by destruct (strings.Split s sep).
Qed.

Lemma Split_spaceless s : spaceless s = true → strings.Split s " " = [s].
Proof.
  induction s as [|c s IH]; cbn; [done|].
  intros [Hc Hs]%andb_true_iff. apply negb_true_iff in Hc.
  by rewrite Hc, (IH Hs).
Qed.

Lemma Split_app a b :
  spaceless a = true →
  strings.Split (a ++ String " " b) " " = a :: strings.Split b " ".
Proof.
  induction a as [|c a IH]; [done|]. cbn [spaceless].
  intros [Hc Ha]%andb_true_iff. apply negb_true_iff in Hc.
  change (String c a +:+ String " " b) with (String c (a +:+ String " " b)).
  cbn [strings.Split]. by rewrite Hc, (IH Ha).
Qed.

Lemma Split_one_inv s b :
  strings.Split s " " = [b] → s = b ∧ spaceless b = true.
Proof.
  revert b. induction s as [|c s IH]; intros b; cbn.
  - by intros [= <-].
  - destruct (Ascii.eqb c " ") eqn:Hc.
    + intros [= <- Hrest]. by destruct (Split_nonempty s " ").
    + destruct (strings.Split s " ") as [|piece pieces] eqn:Hs;
        [by destruct (Split_nonempty s " ")|].
      intros [= <- ->]. destruct (IH piece eq_refl) as [-> Hp].
      split; [done|]. cbn. by rewrite Hc, Hp.
Qed.

Lemma Split_two_inv s a b :
  strings.Split s " " = [a; b] →
  s = a ++ String " " b ∧ spaceless a = true ∧ spaceless b = true.
Proof.
  revert a. induction s as [|c s IH]; intros a; cbn; [done|].
  destruct (Ascii.eqb_spec c " ") as [->|Hc].
  - intros [= <- Hrest]. apply Split_one_inv in Hrest as [-> Hb]. done.
  - destruct (strings.Split s " ") as [|piece pieces] eqn:Hs;
      [by destruct (Split_nonempty s " ")|].
    intros [= <- ->]. destruct (IH piece eq_refl) as (-> & Hp & Hb).
    split; [done|]. split; [|done]. cbn. rewrite Hp.
    by destruct (Ascii.eqb_spec c " ").
Qed.

Lemma errorResponse_eq w code message :
  errorResponse w code message =
  Write {[ "error" := message ]}
    (WriteHeader code
       (with_Header (http.Set_ "Content-Type" "application/json" (Header w)) w)).
Proof.
  unfold errorResponse, writeJSON, MarshalIndent. cbn.
  by rewrite (left_id_L ∅ (∪)).
Qed.

Lemma errorResponse_facts w code message :
  status w = None →
  status (errorResponse w code message) = Some code
  ∧ written (errorResponse w code message) = (written w ++ [{[ "error" := message ]}])%list
  ∧ Header (errorResponse w code message)
    = <["Content-Type" := ["application/json"]]> (Header w).
Proof.
  intros Hs. rewrite errorResponse_eq. unfold Write, WriteHeader. cbn.
  rewrite Hs. cbn. done.
Qed.

Lemma ValidateTokenPlaintext_valid token :
  validator.Valid (data.ValidateTokenPlaintext validator.New token) =
  negb (String.eqb token "") && (String.length token =? 26)%nat.
Proof.
  unfold data.ValidateTokenPlaintext.
  by destruct (String.eqb token ""), (String.length token =? 26)%nat.
Qed.

Lemma select_user_for_token_none ts us h scope now :
  (∀ t, t ∈ ts → ¬ (data.tokens.hash t = h ∧ data.tokens.scope t = scope
                    ∧ now < data.tokens.expiry t)) →
  data.select_user_for_token ts us h scope now = data.scan_error sql_ErrNoRows.
Proof.
  induction ts as [|t ts IH]; intros Hno; cbn; [done|].
  destruct (_ && _ && _) eqn:Hm.
  - apply andb_true_iff in Hm as [[Hh Hs]%andb_true_iff Hn%Z.ltb_lt].
    apply bool_decide_eq_true in Hh. apply String.eqb_eq in Hs.
    destruct (Hno t); [by left | done].
  - apply IH. intros t' Ht'. apply Hno. by right.
Qed.

Lemma select_user_for_token_some ts us h scope now :
  (∃ t, t ∈ ts ∧ data.tokens.hash t = h ∧ data.tokens.scope t = scope
        ∧ now < data.tokens.expiry t) →
  (∀ t, t ∈ ts → data.tokens.hash t = h → data.tokens.scope t = scope →
        now < data.tokens.expiry t → is_Some (us !! data.tokens.user_id t)) →
  ∃ t row, t ∈ ts ∧ data.tokens.hash t = h ∧ data.tokens.scope t = scope
           ∧ now < data.tokens.expiry t
           ∧ us !! data.tokens.user_id t = Some row
           ∧ data.select_user_for_token ts us h scope now
             = data.row_of (data.scan_user (data.tokens.user_id t) row).
Proof.
  induction ts as [|t ts IH]; intros (t0 & Hin & Hm) Hfk.
  { by apply elem_of_nil in Hin. }
  cbn. destruct (_ && _ && _) eqn:Hmt.
  - apply andb_true_iff in Hmt as [[Hh Hs]%andb_true_iff Hn%Z.ltb_lt].
    apply bool_decide_eq_true in Hh. apply String.eqb_eq in Hs.
    destruct (Hfk t) as [row Hrow]; [by left | done..|].
    rewrite Hrow. exists t, row. repeat split; try done. by left.
  - destruct IH as (t1 & row & Hin1 & ? & ? & ? & ? & ?).
    + apply elem_of_cons in Hin as [->|Hin]; [|by eauto].
      destruct Hm as (Hh & Hs & Hn). exfalso.
      rewrite <- Hh, <- Hs in Hmt.
      rewrite bool_decide_eq_true_2, String.eqb_refl in Hmt by done.
      cbn in Hmt. lia.
    + intros t' Ht'. apply Hfk. by right.
    + exists t1, row. repeat split; try done. by right.
Qed.


Lemma authenticate_bearer drv now next w r d token :
  http.Get "Authorization" (RequestHeader r) = "Bearer " ++ token →
  spaceless token = true →
  authenticate drv now next w r d =
  if negb (negb (String.eqb token "") && (String.length token =? 26)%nat)
  then (invalidAuthenticationTokenResponse (vary_authorization w), d)
  else match data.UserModel.GetForToken drv now data.ScopeAuthentication token d with
       | inr err =>
           if errors_Is err ErrRecordNotFound
           then (invalidCredentialsResponse (vary_authorization w), d)
           else (serverErrorResponse (vary_authorization w) err, d)
       | inl user =>
           next (vary_authorization w) (contextSetUser r (data.loaded user)) d
       end.
Proof.
  intros Hheader Htoken. unfold authenticate. fold (vary_authorization w).
  rewrite Hheader.
  change ("Bearer " ++ token) with ("Bearer" ++ String " " token).
  rewrite Split_app, (Split_spaceless _ Htoken) by done.
  cbn [String.eqb negb]. 
  change (String.eqb ("Bearer" +:+ String " " token) "") with false.
  cbn match. rewrite ValidateTokenPlaintext_valid.
  change (String.eqb "Bearer" "Bearer") with true. cbn [negb].
  done.
Qed.

Lemma authenticate_malformed drv now next w r d :
  http.Get "Authorization" (RequestHeader r) ≠ "" →
  (∀ token, http.Get "Authorization" (RequestHeader r) = "Bearer " ++ token →
            spaceless token = false) →
  authenticate drv now next w r d
  = (invalidCredentialsResponse (vary_authorization w), d).
Proof.
  intros Hne Hform. unfold authenticate. fold (vary_authorization w).
  destruct (String.eqb_spec (http.Get "Authorization" (RequestHeader r)) "")
    as [|_]; [done|].
  destruct (strings.Split _ " ") as [|scheme [|token [|]]] eqn:Hsplit; try done.
  apply Split_two_inv in Hsplit as (Hheader & _ & Htoken).
  destruct (String.eqb_spec scheme "Bearer") as [->|]; [|done].
  apply Hform in Hheader. congruence.
Qed.

End Authenticate_facts.

(** C2.  [authenticate] adds [Vary: Authorization] to the response in every
    case, before anything else: a request either goes downstream with that
    response, or is answered by the middleware with 401 or 500 on a
    response that carries the value.  Without an [Authorization] header the
    request goes downstream, and [contextGetUser] then finds the anonymous
    user.  A header that is not [Bearer], one space and a token without
    spaces is answered with 401.  A token that is empty or not 26 bytes
    long is answered with 401 and the challenge [Bearer], which the header
    map holds under [Www-Authenticate].  When the lookup runs: a 26-byte token that
    no stored token makes valid (same hash, scope [authentication], expiry
    after now) is answered with 401 and the one message [invalid
    authentication credentials], whether a token with that hash was never
    stored or is stored and expired; a token made valid by a stored one
    goes downstream, and [contextGetUser] then finds the user that the
    stored token belongs to.  When the driver fails instead, the answer is
    that same 401 if the failure is [sql.ErrNoRows] and 500 otherwise.
    The request that goes downstream differs from the one received in its
    context only. *)
Theorem authenticate_bearer_token
    (drv : option error) (now : Z) (next : api.Handler)
    (w : api.ResponseWriter) (r : api.Request) (d : data.DB.t) :
  api.status w = None →
  let header := http.Get "Authorization" (api.RequestHeader r) in
  let w1 := vary_authorization w in
  let answered (code : Z) (message : string) (w' : api.ResponseWriter) :=
    api.status w' = Some code
    ∧ api.written w' = (api.written w ++ [{[ "error" := api.of_text message ]}])%list
    ∧ "Authorization" ∈ default [] (api.Header w' !! "Vary") in
  let unauthorized := answered 401 in
  let downstream (user : data.user_pointer) :=
    ∃ r', api.authenticate drv now next w r d = next w1 r' d
          ∧ api.contextGetUser r' = Returned user
          ∧ api.Method r' = api.Method r
          ∧ api.RequestHeader r' = api.RequestHeader r
          ∧ api.id_param r' = api.id_param r
          ∧ api.Body r' = api.Body r in
  "Authorization" ∈ default [] (api.Header w1 !! "Vary")
  ∧ ((∃ user, downstream user)
     ∨ (∃ w' code message,
          api.authenticate drv now next w r d = (w', d)
          ∧ code ∈ [401; 500] ∧ answered code message w'))
  ∧ (header = "" → downstream data.AnonymousUser)
  ∧ (header ≠ "" →
     (∀ token, header = "Bearer " ++ token → spaceless token = false) →
     ∃ w', api.authenticate drv now next w r d = (w', d)
           ∧ unauthorized "invalid authentication credentials" w')
  ∧ (∀ token, header = "Bearer " ++ token → spaceless token = true →
     (token = "" ∨ String.length token ≠ 26%nat →
      ∃ w', api.authenticate drv now next w r d = (w', d)
            ∧ unauthorized "invalid or missing authentication token" w'
            ∧ api.Header w' !! "Www-Authenticate" = Some ["Bearer"])
     ∧ (String.length token = 26%nat → drv = None →
        ((∀ t, ¬ authenticates now token d t) →
         ∃ w', api.authenticate drv now next w r d = (w', d)
               ∧ unauthorized "invalid authentication credentials" w')
        ∧ ((∃ t, authenticates now token d t) →
           (∀ t, authenticates now token d t →
                 is_Some (data.DB.users d !! data.tokens.user_id t)) →
           ∃ t row,
             authenticates now token d t
             ∧ data.DB.users d !! data.tokens.user_id t = Some row
             ∧ downstream
                 (data.loaded (data.scan_user (data.tokens.user_id t) row))))
     ∧ (String.length token = 26%nat → ∀ err, drv = Some err →
        ∃ w', api.authenticate drv now next w r d = (w', d)
              ∧ if errors_Is err sql_ErrNoRows || errors_Is err ErrRecordNotFound
                then unauthorized "invalid authentication credentials" w'
                else answered 500
                       "the server encountered a problem and could not process your request"
                       w')).
Proof.
  intros Hstatus header w1 answered unauthorized downstream.
  assert ("Authorization" ∈ default [] (api.Header w1 !! "Vary")) as Hvary.
  { unfold w1, vary_authorization. cbn. canonical_keys. rewrite lookup_insert_eq.
    cbn. apply elem_of_app. right. by left. }
  assert (api.status w1 = None) as Hstatus1 by done.
  assert (∀ code message, answered code message
            (api.errorResponse w1 code (api.of_text message)))
    as Hanswered.
  { intros code message.
    destruct (errorResponse_facts w1 code (api.of_text message) Hstatus1)
      as (Hs & Hw & Hh).
    split; [done|]. split; [done|]. rewrite Hh.
    by rewrite lookup_insert_ne. }
  assert (unauthorized "invalid or missing authentication token"
            (api.invalidAuthenticationTokenResponse w1)
          ∧ api.Header (api.invalidAuthenticationTokenResponse w1)
              !! "Www-Authenticate" = Some ["Bearer"]) as [Htoken Hchallenge].
  { unfold api.invalidAuthenticationTokenResponse.
    destruct (errorResponse_facts
                (api.with_Header (http.Set_ "WWW-Authenticate" "Bearer" (api.Header w1)) w1)
                http.StatusUnauthorized
                (api.of_text "invalid or missing authentication token") Hstatus1)
      as (Hs & Hw & Hh).
    assert (http.CanonicalHeaderKey "WWW-Authenticate" = "Www-Authenticate")
      as Hkey by (by vm_compute).
    split; [split; [done|split; [done|]]|]; rewrite Hh;
      cbn [api.Header api.with_Header]; unfold http.Set_; rewrite Hkey.
    - by rewrite !lookup_insert_ne.
    - by rewrite lookup_insert_ne, lookup_insert_eq. }
  assert (∀ user, ∃ r',
            next w1 (api.contextSetUser r user) d = next w1 r' d
            ∧ api.contextGetUser r' = Returned user
            ∧ api.Method r' = api.Method r
            ∧ api.RequestHeader r' = api.RequestHeader r
            ∧ api.id_param r' = api.id_param r
            ∧ api.Body r' = api.Body r) as Hset.
  { intros user. by exists (api.contextSetUser r user). }
  assert (∀ result,
            api.authenticate drv now next w r d = result →
            (∃ user, result = next w1 (api.contextSetUser r user) d)
            ∨ (∃ code message,
                 result = (api.errorResponse w1 code (api.of_text message), d)
                 ∧ code ∈ [401; 500])
            ∨ result = (api.invalidAuthenticationTokenResponse w1, d)) as Hcases.
  { intros result <-. unfold api.authenticate. fold w1. fold header.
    assert (401 ∈ [401; 500]) as H401 by by left.
    assert (500 ∈ [401; 500]) as H500 by (right; by left).
    destruct (String.eqb header ""); [left; by eexists|].
    destruct (strings.Split header " ") as [|scheme [|token [|]]];
      try (right; left; by eexists _, _).
    destruct (negb (String.eqb scheme "Bearer"));
      [right; left; by eexists _, _|].
    destruct (negb (validator.Valid _)); [by right; right|].
    destruct (data.UserModel.GetForToken _ _ _ _ _) as [user|err];
      [left; by eexists|].
    destruct (errors_Is err ErrRecordNotFound); right; left; by eexists _, _. }
  split; [done|]. split; [|split; [|split; [|]]].
  - destruct (Hcases _ eq_refl)
      as [[user Hr]|[(code & message & Hr & Hcode)|Hr]].
    + left. exists user. unfold downstream. rewrite Hr. apply Hset.
    + right. exists (api.errorResponse w1 code (api.of_text message)), code, message.
      split; [done|]. split; [done|]. apply Hanswered.
    + right. eexists _, 401, _. split; [exact Hr|]. split; [by left|].
      apply Htoken.
  - intros Hempty. unfold downstream, api.authenticate. fold header.
    rewrite Hempty. apply Hset.
  - intros Hne Hform. eexists. split; [by apply authenticate_malformed|].
    apply Hanswered.
  - intros token Hheader Hspaceless. unfold downstream.
    rewrite (authenticate_bearer drv now next w r d token Hheader Hspaceless).
    split; [|split].
    + intros Hbad. eexists. split; [|split; [apply Htoken|apply Hchallenge]].
      destruct Hbad as [->|Hlen]; [done|].
      apply Nat.eqb_neq in Hlen. rewrite Hlen. by rewrite andb_false_r.
    + intros Hlen ->. rewrite Hlen.
      destruct (String.eqb_spec token "") as [->|_]; [done|].
      cbn [negb andb Nat.eqb]. unfold data.UserModel.GetForToken.
      split.
      * intros Hnone. rewrite select_user_for_token_none.
        { eexists. split; [done|]. apply Hanswered. }
        intros t Ht (Hh & Hs & He). by apply (Hnone t).
      * intros (t & Hin & Hh & Hs & He) Hfk.
        destruct (select_user_for_token_some (data.DB.tokens d) (data.DB.users d)
                    (sha256.Sum256 (bytes_of_string token))
                    data.ScopeAuthentication now)
          as (t1 & row & Hin1 & Hh1 & Hs1 & He1 & Hrow & Hsel).
        { by exists t. }
        { intros t' ????. by apply Hfk. }
        rewrite Hsel. exists t1, row. split; [done|]. split; [done|].
        apply Hset.
    + intros Hlen err ->. rewrite Hlen.
      destruct (String.eqb_spec token "") as [->|_]; [done|].
      cbn [negb andb Nat.eqb]. unfold data.UserModel.GetForToken.
      cbn match. unfold errors_Is.
      destruct (decide (err = sql_ErrNoRows)) as [->|Hrows].
      { rewrite bool_decide_eq_true_2 by done. cbn [orb].
        eexists. split; [done|]. apply Hanswered. }
      rewrite (bool_decide_eq_false_2 (err = sql_ErrNoRows)) by done.
      cbn [orb]. destruct (decide (err = ErrRecordNotFound)) as [->|Hfound].
      { eexists. split; [done|]. apply Hanswered. }
      rewrite (bool_decide_eq_false_2 (err = ErrRecordNotFound)) by done.
      eexists. split; [done|]. apply Hanswered.
Qed.

Lemma authenticate_bearer_token_witness :
  api.written
    (fst (api.authenticate None 1000 whoami api.fresh
            (get_with_authorization ("Bearer " ++ ann_token)) store))
  = [{[ "user" := api.of_user (data.scan_user 1 ann) ]}].
Proof.
  pose proof (authenticate_bearer_token None 1000 whoami api.fresh
                (get_with_authorization ("Bearer " ++ ann_token)) store eq_refl)
    as (_ & _ & _ & _ & Hbearer).
  destruct (Hbearer ann_token eq_refl eq_refl) as (_ & Hlookup & _).
  destruct (Hlookup eq_refl eq_refl) as (_ & Hvalid).
  destruct Hvalid as (t & row & (Hin & _) & Hrow & r' & -> & Huser & _).
  - eexists. split; [by left|]. split; [by vm_compute|]. split; [done|]. by vm_compute.
  - intros t (Hin & _). apply list_elem_of_singleton in Hin as ->. by eexists.
  - apply list_elem_of_singleton in Hin as ->.
    cbn [data.tokens.user_id] in Hrow, Huser.
    assert (Some row = Some ann) as [= ->] by (rewrite <- Hrow; reflexivity).
    unfold api.contextGetUser in Huser.
    destruct (api.context_user r') as [user|] eqn:Hcontext; [|discriminate Huser].
    injection Huser as ->.
    unfold whoami. rewrite Hcontext. reflexivity.
Defined.


(** ** Partial update of a movie *)

Section Update_handler_facts.
Import api.

(** The keys that the decoder takes for a field: the name in any case of
    its ASCII letters, and with the long s (U+017F) for an s or the Kelvin
    sign (U+212A) for a k; no other key. *)
Lemma names_vectors :
  json.names "genres" "genres" = true
  ∧ json.names "GenReS" "genres" = true
  ∧ json.names ("genre" ++ String "197" (String "191" "")) "genres" = true
  ∧ json.names ("to" ++ String "226" (String "132" (String "170" "en"))) "token" = true
  ∧ json.names ("pa" ++ String "197" (String "191" "sword")) "password" = true
  ∧ json.names "genre" "genres" = false
  ∧ json.names ("genre" ++ String "197" (String "190" "")) "genres" = false
  ∧ json.names "title " "title" = false.
Proof. by vm_compute. Qed.

(** An array is stored into the slice that the field holds: a [null]
    leaves the element an earlier array of the body has put there, also
    behind the length a shorter array has cut the slice to. *)
Lemma decode_strings_vectors :
  let genres_of (ms : list (string * json.value)) :=
    match updateMovieInput.Decode (json.Object ms) 0 with
    | inl input => updateMovieInput.Genres input
    | inr _ => None
    end in
  genres_of [("genres", json.Array [json.String "a"; json.Null])]
  = Some ["a"; ""]
  ∧ genres_of [("genres", json.Array [json.String "a"; json.String "b"]);
               ("genres", json.Array [json.Null; json.String "c"])]
    = Some ["a"; "c"]
  ∧ genres_of [("genres", json.Array [json.String "a"; json.String "b";
                                      json.String "c"]);
               ("genres", json.Array [json.String "x"]);
               ("genres", json.Array [json.String "y"; json.Null])]
    = Some ["y"; "b"]
  ∧ genres_of [("genres", json.Array [json.String "a"; json.String "b"]);
               ("genres", json.Array []);
               ("genres", json.Array [json.Null])]
    = Some [""].
Proof. by vm_compute. Qed.

Lemma names_foldName key field :
  json.names key field = true → json.foldName key = json.foldName field.
Proof.
  unfold json.names. intros [Hk%String.eqb_eq|Hk%String.eqb_eq]%orb_true_iff.
  - by rewrite Hk.
  - done.
Qed.

Lemma names_one_field key field other :
  json.names key field = true →
  json.foldName field ≠ json.foldName other →
  json.names key other = false.
Proof.
  intros Hf Hne. destruct (json.names key other) eqn:Ho; [|done].
  apply names_foldName in Hf, Ho. congruence.
Qed.

Lemma lacks_cons field key v ms :
  lacks field ((key, v) :: ms) ↔ json.names key field = false ∧ lacks field ms.
Proof.
  unfold lacks. split.
  - intros H. split; [apply (H key v); by left|]. intros k' v' ?. apply (H k' v'). by right.
  - intros [Hk H] k' v' [[= -> ->]|?]%elem_of_cons; [done | by apply (H k' v')].
Qed.

Lemma lacks_named field ms : lacks field ms ↔ named field ms = None.
Proof.
  induction ms as [|[key v] ms IH]; cbn [named].
  - split; [done|]. intros _ key v []%elem_of_nil.
  - rewrite lacks_cons, IH. destruct (named field ms); [intuition congruence|].
    destruct (json.names key field); intuition congruence.
Qed.

Lemma members_saved ms offset input backing err out :
  updateMovieInput.members ms offset input backing (Some err) ≠ inl out.
Proof.
  revert input backing.
  induction ms as [|[key v] ms IH]; intros input backing; [done|].
  cbn [updateMovieInput.members remember].
  repeat match goal with
         | |- context [match ?x with _ => _ end] => destruct x eqn:?; try done
         end.
Qed.


Lemma members_remember ms offset input backing saved err out :
  updateMovieInput.members ms offset input backing (remember saved err) ≠ inl out.
Proof. destruct saved; apply members_saved. Qed.

Ltac by_the_rest_of_the_members :=
  (split; [|split; [|split]]);
  match goal with
  | |- context [named ?field ?ms] => destruct (named field ms)
  end;
  first [ done | by eauto
        | match goal with
          | H : decode_strings ?held _ = _ |- _ => exists held; by rewrite H
          end ].

(** What a decoded input holds for a field, by the value the object gives
    to it. *)
Lemma members_named ms offset input backing saved out :
  updateMovieInput.members ms offset input backing saved = inl out →
  match named "title" ms with
  | None => updateMovieInput.Title out = updateMovieInput.Title input
  | Some json.Null => updateMovieInput.Title out = None
  | Some (json.String s) => updateMovieInput.Title out = Some s
  | Some _ => False
  end
  ∧ match named "year" ms with
    | None => updateMovieInput.Year out = updateMovieInput.Year input
    | Some json.Null => updateMovieInput.Year out = None
    | Some (json.Number literal) =>
        ∃ n, strconv.ParseInt literal 32 = Some n
             ∧ updateMovieInput.Year out = Some n
    | Some _ => False
    end
  ∧ match named "runtime" ms with
    | None => updateMovieInput.Runtime out = updateMovieInput.Runtime input
    | Some json.Null => updateMovieInput.Runtime out = None
    | Some v =>
        ∃ minutes,
          data.Runtime_UnmarshalJSON
            (match v with json.String s => Some s | _ => None end) = inl minutes
          ∧ updateMovieInput.Runtime out = Some minutes
    end
  ∧ match named "genres" ms with
    | None => updateMovieInput.Genres out = updateMovieInput.Genres input
    | Some json.Null => updateMovieInput.Genres out = None
    | Some (json.Array elements) =>
        ∃ held,
          updateMovieInput.Genres out
          = Some (fst (fst (decode_strings held elements)))
          ∧ snd (decode_strings held elements) = true
    | Some _ => False
    end.
Proof.
  revert input backing saved.
  induction ms as [|[key v] ms IH]; intros input backing saved Hm.
  { cbn in *. destruct saved; [done|]. by injection Hm as <-. }
  cbn [updateMovieInput.members] in Hm. cbn [named].
  assert (json.names key "title" = true ∨ json.names key "year" = true
          ∨ json.names key "runtime" = true ∨ json.names key "genres" = true
          ∨ (json.names key "title" = false ∧ json.names key "year" = false
             ∧ json.names key "runtime" = false ∧ json.names key "genres" = false))
    as Hkey.
  { destruct (json.names key "title"); [by left|].
    destruct (json.names key "year"); [right; by left|].
    destruct (json.names key "runtime"); [right; right; by left|].
    destruct (json.names key "genres"); [right; right; right; by left|].
    by repeat right. }
  destruct Hkey as [Hk|[Hk|[Hk|[Hk|(Ht & Hy & Hr & Hg)]]]].
  - rewrite Hk in Hm |- *.
    rewrite (names_one_field key "title" "year" Hk) by (by vm_compute).
    rewrite (names_one_field key "title" "runtime" Hk) by (by vm_compute).
    rewrite (names_one_field key "title" "genres" Hk) by (by vm_compute).
    destruct v; try (by apply members_remember in Hm);
      apply IH in Hm as (H1 & H2 & H3 & H4);
      cbn [updateMovieInput.Title updateMovieInput.Year updateMovieInput.Runtime
           updateMovieInput.Genres] in H1, H2, H3, H4;
      by_the_rest_of_the_members.
  - rewrite Hk in Hm |- *.
    rewrite (names_one_field key "year" "title" Hk) in Hm |- * by (by vm_compute).
    rewrite (names_one_field key "year" "runtime" Hk) by (by vm_compute).
    rewrite (names_one_field key "year" "genres" Hk) by (by vm_compute).
    destruct v as [| |literal| | |]; try (by apply members_remember in Hm);
      [|destruct (strconv.ParseInt literal 32) as [n|] eqn:Hparse;
        [|by apply members_remember in Hm]];
      apply IH in Hm as (H1 & H2 & H3 & H4);
      cbn [updateMovieInput.Title updateMovieInput.Year updateMovieInput.Runtime
           updateMovieInput.Genres] in H1, H2, H3, H4;
      by_the_rest_of_the_members.
  - rewrite Hk in Hm |- *.
    rewrite (names_one_field key "runtime" "title" Hk) in Hm |- * by (by vm_compute).
    rewrite (names_one_field key "runtime" "year" Hk) in Hm |- * by (by vm_compute).
    rewrite (names_one_field key "runtime" "genres" Hk) by (by vm_compute).
    destruct v as [|b|literal|s|elements|members];
      [|destruct (data.Runtime_UnmarshalJSON _) as [minutes|] eqn:Hruntime;
        [|done]..];
      apply IH in Hm as (H1 & H2 & H3 & H4);
      cbn [updateMovieInput.Title updateMovieInput.Year updateMovieInput.Runtime
           updateMovieInput.Genres] in H1, H2, H3, H4;
      by_the_rest_of_the_members.
  - rewrite Hk in Hm |- *.
    rewrite (names_one_field key "genres" "title" Hk) in Hm |- * by (by vm_compute).
    rewrite (names_one_field key "genres" "year" Hk) in Hm |- * by (by vm_compute).
    rewrite (names_one_field key "genres" "runtime" Hk) in Hm |- * by (by vm_compute).
    destruct v as [| | | |elements|]; try (by apply members_remember in Hm);
      [|destruct (decode_strings _ elements) as [[genres behind] well_typed]
          eqn:Hdecode;
        destruct well_typed; [|by apply members_remember in Hm]];
      apply IH in Hm as (H1 & H2 & H3 & H4);
      cbn [updateMovieInput.Title updateMovieInput.Year updateMovieInput.Runtime
           updateMovieInput.Genres] in H1, H2, H3, H4;
      by_the_rest_of_the_members.
  - rewrite Ht, Hy, Hr, Hg in Hm |- *.
    by apply members_remember in Hm.
Qed.


Lemma Decode_named v offset input :
  updateMovieInput.Decode v offset = inl input →
  updateMovieInput.members (match v with json.Object ms => ms | _ => [] end)
    offset updateMovieInput.zero [] None = inl input.
Proof. destruct v; cbn; try done. Qed.

Lemma readJSON_named r input :
  readJSON updateMovieInput.Decode r = inl input →
  ∃ offset,
    updateMovieInput.members (body_members r) offset updateMovieInput.zero []
      None
    = inl input.
Proof.
  unfold readJSON, body_members.
  destruct (Body r) as [|first offset more]; [done|].
  destruct (updateMovieInput.Decode first offset) as [input'|] eqn:Hd; [|done].
  destruct more; [done|]. intros [= <-]. exists offset.
  apply Decode_named in Hd. by destruct first.
Qed.

Lemma readJSON_fields r input :
  readJSON updateMovieInput.Decode r = inl input →
  match given "title" r with
  | None | Some json.Null => updateMovieInput.Title input = None
  | Some (json.String s) => updateMovieInput.Title input = Some s
  | Some _ => False
  end
  ∧ match given "year" r with
    | None | Some json.Null => updateMovieInput.Year input = None
    | Some (json.Number literal) =>
        ∃ n, strconv.ParseInt literal 32 = Some n
             ∧ updateMovieInput.Year input = Some n
    | Some _ => False
    end
  ∧ match given "runtime" r with
    | None | Some json.Null => updateMovieInput.Runtime input = None
    | Some v =>
        ∃ minutes,
          data.Runtime_UnmarshalJSON
            (match v with json.String s => Some s | _ => None end) = inl minutes
          ∧ updateMovieInput.Runtime input = Some minutes
    end
  ∧ match given "genres" r with
    | None | Some json.Null => updateMovieInput.Genres input = None
    | Some (json.Array elements) =>
        ∃ held,
          updateMovieInput.Genres input
          = Some (fst (fst (decode_strings held elements)))
          ∧ snd (decode_strings held elements) = true
    | Some _ => False
    end.
Proof.
  intros [offset Hm]%readJSON_named;
    apply members_named in Hm as (H1 & H2 & H3 & H4); unfold given;
    (split; [|split; [|split]]);
    match goal with
    | |- context [named ?field ?ms] => by destruct (named field ms) as [[]|]
    end.
Qed.

Lemma decode_strings_strings (held values : list string) :
  decode_strings held (map json.String values)
  = (values, drop (length values) held, true).
Proof.
  revert held. induction values as [|value values IH]; intros held; cbn.
  - reflexivity.
  - rewrite IH. destruct held; cbn; by rewrite ?drop_nil.
Qed.

Lemma MovieModel_Get_inl drv id d movie :
  data.MovieModel.Get drv id d = inl movie →
  ∃ old, data.DB.movies d !! id = Some old
         ∧ movie = {| data.Movie.ID := id;
                      data.Movie.CreatedAt := data.movies.created_at old;
                      data.Movie.Title := data.movies.title old;
                      data.Movie.Year := data.movies.year old;
                      data.Movie.Runtime := data.movies.runtime old;
                      data.Movie.Genres := data.movies.genres old;
                      data.Movie.Version := data.movies.version old |}.
Proof.
  unfold data.MovieModel.Get, data.select_movie.
  destruct (id <? 1); [done|].
  destruct drv as [err|].
  { by destruct (errors_Is err sql_ErrNoRows). }
  destruct (data.DB.movies d !! id) as [old|]; [|done].
  intros [= <-]. by exists old.
Qed.

Lemma MovieModel_Update_success drv movie d movie' d' :
  data.MovieModel.Update drv movie d = (None, movie', d') →
  ∃ old, data.DB.movies d !! data.Movie.ID movie = Some old
         ∧ data.movies.version old = data.Movie.Version movie
         ∧ movie' = data.Movie.with_Version (data.movies.version old + 1) movie
         ∧ d' = data.DB.with_movies
                  (<[data.Movie.ID movie :=
                       {| data.movies.created_at := data.movies.created_at old;
                          data.movies.title := data.Movie.Title movie;
                          data.movies.year := data.Movie.Year movie;
                          data.movies.runtime := data.Movie.Runtime movie;
                          data.movies.genres := data.Movie.Genres movie;
                          data.movies.version := data.movies.version old + 1 |}]>
                     (data.DB.movies d)) d.
Proof.
  unfold data.MovieModel.Update, data.update_movies.
  destruct drv as [err|].
  { by destruct (errors_Is err sql_ErrNoRows). }
  destruct (data.DB.movies d !! data.Movie.ID movie) as [old|]; [|done].
  destruct (Z.eqb_spec (data.movies.version old) (data.Movie.Version movie)); [|done].
  destruct (data.pg_integer_max <? data.movies.version old + 1); [done|].
  cbn. intros [= <- <-]. by exists old.
Qed.

Lemma writeJSON_eq w code env :
  writeJSON w code env ∅ =
  (Write env (WriteHeader code
     (with_Header (http.Set_ "Content-Type" "application/json" (Header w)) w)),
   None).
Proof. unfold writeJSON, MarshalIndent. by rewrite (left_id_L ∅ (∪)). Qed.

Lemma updateMovieHandler_cases drv_get drv_update now_year w r d w' d' :
  status w = None →
  updateMovieHandler drv_get drv_update now_year w r d = (w', d') →
  (∃ id movie input movie',
     readIDParam r = inl id
     ∧ data.MovieModel.Get drv_get id d = inl movie
     ∧ readJSON updateMovieInput.Decode r = inl input
     ∧ validator.Valid (data.ValidateMovie now_year validator.New (edited input movie)) = true
     ∧ data.MovieModel.Update drv_update (edited input movie) d = (None, movie', d')
     ∧ status w' = Some 200
     ∧ written w' = (written w ++ [{[ "movie" := of_movie movie' ]}])%list)
  ∨ (d' = d ∧ ∃ code, status w' = Some code ∧ code ≠ 200).
Proof.
  intros Hstatus. unfold updateMovieHandler.
  assert (∀ code message, code ≠ 200 →
            (errorResponse w code message, d) = (w', d') →
            d' = d ∧ ∃ code, status w' = Some code ∧ code ≠ 200) as Herror.
  { intros code message Hcode [= <- <-]. split; [done|]. exists code.
    by destruct (errorResponse_facts w code message Hstatus) as (-> & _). }
  destruct (readIDParam r) as [id|]; [|intros Heq; right; eapply Herror; [|exact Heq]; by vm_compute].
  destruct (data.MovieModel.Get drv_get id d) as [movie|err] eqn:Hget.
  2:{ destruct (errors_Is err ErrRecordNotFound);
        intros Heq; right; (eapply Herror; [|exact Heq]); by vm_compute. }
  destruct (readJSON updateMovieInput.Decode r) as [input|err] eqn:Hread;
    [|intros Heq; right; eapply Herror; [|exact Heq]; by vm_compute].
  match goal with
  | |- context [data.ValidateMovie now_year validator.New ?m] =>
      replace m with (edited input movie)
        by (unfold edited;
            destruct input as [[] [] [] []], movie; reflexivity)
  end.
  destruct (validator.Valid _) eqn:Hvalid; cbn [negb];
    [|intros Heq; right; eapply Herror; [|exact Heq]; by vm_compute].
  destruct (data.MovieModel.Update drv_update (edited input movie) d)
    as [[[err|] movie'] d2] eqn:Hupdate.
  - destruct (MovieModel_Update_optimistic _ _ _ _ _ _ Hupdate)
      as (_ & _ & Hsame & _).
    destruct Hsame as [-> _]; [done|].
    destruct (errors_Is err ErrEditConflict);
      intros Heq; right; (eapply Herror; [|exact Heq]); by vm_compute.
  - rewrite writeJSON_eq. intros [= <- <-]. left.
    exists id, movie, input, movie'. repeat split; try done.
    + unfold Write, WriteHeader. cbn. by rewrite Hstatus.
    + unfold Write, WriteHeader. cbn. by rewrite Hstatus.
Qed.

End Update_handler_facts.

(** C6.  When [updateMovieHandler] answers 200, the store differs from the
    one it started from in the row of the requested movie only; that row
    has its version raised by exactly one and keeps its creation time.
    Every one of title, year, runtime and genres that the JSON body does
    not name, or names with [null], is as it was.  Every one that the body
    gives a value is that value: the title is the string given, the year
    the 32-bit integer that the number given denotes, the runtime what
    [Runtime.UnmarshalJSON] reads from the string given, the genres the
    strings of the array given.  In particular, for the body
    [{"year":2020}] the new row is the old one with the year 2020 and the
    next version.  When the handler answers anything else, the store is
    unchanged. *)
Theorem updateMovieHandler_partial_update
    (drv_get drv_update : option error) (now_year : Z)
    (w : api.ResponseWriter) (r : api.Request) (d : data.DB.t)
    (w' : api.ResponseWriter) (d' : data.DB.t) :
  api.status w = None →
  api.updateMovieHandler drv_get drv_update now_year w r d = (w', d') →
  (api.status w' = Some 200 →
     ∃ id old new,
       api.readIDParam r = inl id
       ∧ data.DB.movies d !! id = Some old
       ∧ d' = data.DB.with_movies (<[id := new]> (data.DB.movies d)) d
       ∧ data.movies.version new = data.movies.version old + 1
       ∧ data.movies.created_at new = data.movies.created_at old
       ∧ (absent "title" r → data.movies.title new = data.movies.title old)
       ∧ (absent "year" r → data.movies.year new = data.movies.year old)
       ∧ (absent "runtime" r → data.movies.runtime new = data.movies.runtime old)
       ∧ (absent "genres" r → data.movies.genres new = data.movies.genres old)
       ∧ (given "title" r = Some json.Null →
          data.movies.title new = data.movies.title old)
       ∧ (given "year" r = Some json.Null →
          data.movies.year new = data.movies.year old)
       ∧ (given "runtime" r = Some json.Null →
          data.movies.runtime new = data.movies.runtime old)
       ∧ (given "genres" r = Some json.Null →
          data.movies.genres new = data.movies.genres old)
       ∧ (∀ title, given "title" r = Some (json.String title) →
            data.movies.title new = title)
       ∧ (∀ literal, given "year" r = Some (json.Number literal) →
            strconv.ParseInt literal 32 = Some (data.movies.year new))
       ∧ (∀ text, given "runtime" r = Some (json.String text) →
            data.Runtime_UnmarshalJSON (Some text)
            = inl (data.movies.runtime new))
       ∧ (∀ genres, given "genres" r = Some (json.Array (map json.String genres)) →
            data.movies.genres new = Some genres)
       ∧ (∀ offset,
            api.Body r
            = json.document (json.Object [("year", json.Number "2020")]) offset false →
            new = {| data.movies.created_at := data.movies.created_at old;
                     data.movies.title := data.movies.title old;
                     data.movies.year := 2020;
                     data.movies.runtime := data.movies.runtime old;
                     data.movies.genres := data.movies.genres old;
                     data.movies.version := data.movies.version old + 1 |}))
  ∧ (api.status w' ≠ Some 200 → d' = d).
Proof.
  intros Hstatus Hcall.
  destruct (updateMovieHandler_cases _ _ _ _ _ _ _ _ Hstatus Hcall)
    as [(id & movie & input & movie' & Hid & Hget & Hread & _ & Hupdate & Hok & _)
       | (-> & code & Hcode & Hne)].
  2:{ split; [|done]. rewrite Hcode. intros [= ->]. done. }
  split; [intros _ | by rewrite Hok].
  apply MovieModel_Get_inl in Hget as (old & Hold & ->).
  apply MovieModel_Update_success in Hupdate as (old' & Hold' & _ & _ & ->).
  cbn in Hold'. rewrite Hold in Hold'. injection Hold' as <-.
  destruct (readJSON_fields r input Hread) as (Ht & Hy & Hr & Hg).
  eexists id, old, _. split; [done|]. split; [done|]. split; [reflexivity|].
  cbn. split; [done|]. split; [done|].
  unfold absent. rewrite !lacks_named. fold (given "title" r) (given "year" r)
    (given "runtime" r) (given "genres" r).
  split; [intros Hgiven; rewrite Hgiven in Ht; by rewrite Ht|].
  split; [intros Hgiven; rewrite Hgiven in Hy; by rewrite Hy|].
  split; [intros Hgiven; rewrite Hgiven in Hr; by rewrite Hr|].
  split; [intros Hgiven; rewrite Hgiven in Hg; by rewrite Hg|].
  split; [intros Hgiven; rewrite Hgiven in Ht; by rewrite Ht|].
  split; [intros Hgiven; rewrite Hgiven in Hy; by rewrite Hy|].
  split; [intros Hgiven; rewrite Hgiven in Hr; by rewrite Hr|].
  split; [intros Hgiven; rewrite Hgiven in Hg; by rewrite Hg|].
  split; [intros title Hgiven; rewrite Hgiven in Ht; by rewrite Ht|].
  split.
  { intros literal Hgiven. rewrite Hgiven in Hy.
    destruct Hy as (n & Hparse & ->). done. }
  split.
  { intros text Hgiven. rewrite Hgiven in Hr.
    destruct Hr as (minutes & Hruntime & ->). done. }
  split.
  { intros genres Hgiven. rewrite Hgiven in Hg.
    destruct Hg as (held & Hg & _).
    rewrite decode_strings_strings in Hg. by rewrite Hg. }
  intros offset Hbody. unfold api.readJSON in Hread. rewrite Hbody in Hread.
  cbn in Hread. injection Hread as <-. reflexivity.
Qed.

Lemma updateMovieHandler_partial_update_witness :
  ∃ w' d',
    api.updateMovieHandler None None 2024 api.fresh patch_year store = (w', d')
    ∧ api.status w' = Some 200
    ∧ data.DB.movies d' !! 7
      = Some {| data.movies.created_at := 1700000000;
                data.movies.title := "Casablanca";
                data.movies.year := 2020; data.movies.runtime := 102;
                data.movies.genres := Some ["drama"; "romance"];
                data.movies.version := 4 |}.
Proof.
  destruct (api.updateMovieHandler None None 2024 api.fresh patch_year store)
    as [w' d'] eqn:Hcall.
  assert (api.status w' = Some 200) as Hok.
  { vm_compute in Hcall. injection Hcall as <- _. reflexivity. }
  destruct (updateMovieHandler_partial_update None None 2024 api.fresh patch_year
              store w' d' eq_refl Hcall) as [Hdone _].
  destruct (Hdone Hok)
    as (id & old & new & Hid & Hold & Hd' & _ & _ & _ & _ & _ & _ & _ & _ & _ & _
        & _ & _ & _ & _ & Hyear).
  injection Hid as <-. injection Hold as <-.
  exists w', d'. split; [reflexivity|]. split; [exact Hok|].
  rewrite Hd', (Hyear 13 eq_refl). cbn. by rewrite lookup_insert_eq.
Defined.


(** ** Registration with an email already in use *)

Section Register_facts.
Import api.

Lemma UserModel_Insert_duplicate drv now user d :
  reports_duplicate_email drv now user d →
  data.UserModel.Insert drv now user d = (Some ErrDuplicateEmail, user, d).
Proof.
  unfold reports_duplicate_email, data.UserModel.Insert.
  destruct drv as [err|].
  - by intros ->.
  - unfold data.insert_users.
    destruct (data.DB.users d !! data.DB.users_id_seq d); [by intros [= ?]|].
    by destruct (data.email_in_use _ _ d).
Qed.

End Register_facts.

(** C8.  When the store answers the [INSERT] of a user with a violation of
    the uniqueness constraint on the email column, [UserModel.Insert]
    returns [ErrDuplicateEmail] and leaves user and store as they were; and
    a registration whose input was read, hashed and validated, and whose
    [INSERT] is answered that way, is answered by [registerUserHandler]
    with the status 422 and an error for the field [email], not with a
    500, and starts no background task. *)
Theorem duplicate_email_is_a_field_error :
  (∀ (drv : option error) (now : Z) (user : data.User.t) (d : data.DB.t),
     reports_duplicate_email drv now user d →
     data.UserModel.Insert drv now user d = (Some ErrDuplicateEmail, user, d))
  ∧ (∀ (generate : data.bcrypt_GenerateFromPassword)
       (drv_insert drv_permission drv_token : option error)
       (now : Z) (random : rand.source)
       (w : api.ResponseWriter) (r : api.Request) (d : data.DB.t)
       (input : api.registerUserInput.t) (hash : list byte)
       (v : validator.Validator),
     api.status w = None →
     api.readJSON api.registerUserInput.Decode r = inl input →
     generate (bytes_of_string (api.registerUserInput.Password input)) 12 = inl hash →
     data.ValidateUser validator.New (registering input hash) = Returned v →
     validator.Valid v = true →
     reports_duplicate_email drv_insert now (registering input hash) d →
     ∃ w',
       api.registerUserHandler generate drv_insert drv_permission drv_token
         now random w r d = Returned (w', d, [])
       ∧ api.status w' = Some 422
       ∧ api.written w'
         = (api.written w
            ++ [{[ "error" :=
                     api.of_errors
                       {[ "email" := "a user with this email address already exists" ]} ]}])%list).
Proof.
  split; [apply UserModel_Insert_duplicate|].
  intros generate drv_insert drv_permission drv_token now random w r d
    input hash v Hstatus Hread Hhash Hvalidate Hvalid Hdup.
  unfold api.registerUserHandler. rewrite Hread.
  unfold data.password_Set. rewrite Hhash.
  change (data.User.with_Password _ _) with (registering input hash).
  rewrite Hvalidate, Hvalid. cbn [negb].
  rewrite (UserModel_Insert_duplicate _ _ _ _ Hdup).
  change (errors_Is ErrDuplicateEmail ErrDuplicateEmail) with true. cbn match.
  apply Valid_empty in Hvalid.
  unfold api.failedValidationResponse.
  destruct (errorResponse_facts w http.StatusUnprocessableEntity
              (api.of_errors
                 (validator.Errors
                    (validator.AddError "email"
                       "a user with this email address already exists" v)))
              Hstatus) as (Hs & Hw & _).
  eexists. split; [reflexivity|]. split; [exact Hs|].
  rewrite Hw. unfold validator.AddError. rewrite Hvalid, lookup_empty. cbn.
  by rewrite insert_empty.
Qed.

Lemma duplicate_email_is_a_field_error_witness :
  ∃ w',
    api.registerUserHandler constant_hash None None None 1700000001
      counting_source api.fresh register_ann_again store
    = Returned (w', store, [])
    ∧ api.status w' = Some 422
    ∧ api.written w'
      = [{[ "error" :=
              api.of_errors
                {[ "email" := "a user with this email address already exists" ]} ]}].
Proof.
  destruct duplicate_email_is_a_field_error as [_ Hhandler].
  eapply (Hhandler constant_hash None None None 1700000001 counting_source
            api.fresh register_ann_again store).
  - reflexivity.
  - reflexivity.
  - reflexivity.
  - reflexivity.
  - by vm_compute.
  - by vm_compute.
Defined.


(** ** Tokens *)

Section Token_facts.

(** RFC 4648, section 10, without the padding. *)
Example base32_vectors :
  map (fun s => base32.EncodeToString (bytes_of_string s))
      [""; "f"; "fo"; "foo"; "foob"; "fooba"; "foobar"]
  = [""; "MY"; "MZXQ"; "MZXW6"; "MZXW6YQ"; "MZXW6YTB"; "MZXW6YTBOI"].
Proof. reflexivity. Qed.

(** FIPS 180-4 examples: the empty message, one block, two blocks. *)
Example sha256_vectors :
  map (fun s => hex (sha256.Sum256 (bytes_of_string s)))
      [""; "abc"; "abcdbcdecdefdefgefghfghighijhijkijkljklmklmnlmnomnopnopq"]
  = ["e3b0c44298fc1c149afbf4c8996fb92427ae41e4649b934ca495991b7852b855";
     "ba7816bf8f01cfea414140de5dae2223b00361a396177a9cb410ff61f20015ad";
     "248d6a61d20638b8e5c026930c3e6039a33ce45964ff2167f6ecedd419db06c1"].
Proof. by vm_compute. Qed.

Lemma string_of_list_ascii_length (l : list ascii) :
  String.length (string_of_list_ascii l) = length l.
Proof. induction l as [|c l IH]; cbn; [done | by rewrite IH]. Qed.

Lemma encode_length (src : list Z) :
  length (base32.encode src) = ((length src * 8 + 4) / 5)%nat.
Proof.
  remember (length src) as n eqn:Hn. revert src Hn.
  induction n as [n IH] using lt_wf_ind. intros src ->.
  destruct src as [|b0 [|b1 [|b2 [|b3 [|b4 rest]]]]]; try reflexivity.
  change (base32.encode (b0 :: b1 :: b2 :: b3 :: b4 :: rest))
    with (base32.group b0 b1 b2 b3 b4 ++ base32.encode rest)%list.
  rewrite length_app, (IH (length rest)) by (cbn; lia).
  cbn [length base32.group].
  replace (S (S (S (S (S (length rest))))) * 8 + 4)%nat
    with ((length rest * 8 + 4) + 8 * 5)%nat by lia.
  rewrite Nat.div_add by lia. lia.
Qed.

Lemma EncodeToString_length (src : list byte) :
  String.length (base32.EncodeToString src) = ((length src * 8 + 4) / 5)%nat.
Proof.
  unfold base32.EncodeToString.
  by rewrite string_of_list_ascii_length, length_map, encode_length, length_map.
Qed.

End Token_facts.

(** C3.  When the random source yields bytes, [generateToken] returns a
    token whose plaintext is the base-32 text, without padding, of the 16
    bytes read, 26 bytes long; whose hash is the SHA-256 digest of that
    plaintext; whose expiry is the current time plus the time to live; and
    which carries the user id and the scope it was given.  When the random
    source fails, [generateToken] returns that error and no token. *)
Theorem generateToken_spec
    (now : Z) (random : rand.source) (userID ttl : Z) (scope : string) :
  match random with
  | rand.failing err =>
      data.generateToken now random userID ttl scope = inr err
  | rand.yielding bytes =>
      ∃ token,
        data.generateToken now random userID ttl scope = inl token
        ∧ data.Token.Plaintext token
          = base32.EncodeToString (map bytes (seq 0 16))
        ∧ String.length (data.Token.Plaintext token) = 26%nat
        ∧ data.Token.Hash token
          = sha256.Sum256 (bytes_of_string (data.Token.Plaintext token))
        ∧ data.Token.Expiry token = now + ttl
        ∧ data.Token.UserID token = userID
        ∧ data.Token.Scope token = scope
  end.
Proof.
  destruct random as [err|bytes]; [done|].
  eexists. split; [reflexivity|]. cbn [data.Token.Plaintext].
  split; [done|]. split; [|done].
  by rewrite EncodeToString_length, length_map, length_seq.
Qed.


(** ** Pagination metadata *)

Section Float64_facts.

Lemma digits2_pos_bounds (p : positive) :
  2 ^ (Zpos (digits2_pos p) - 1) ≤ Zpos p < 2 ^ Zpos (digits2_pos p).
Proof.
  induction p as [p IH|p IH|]; cbn [digits2_pos]; [| |by vm_compute].
  - rewrite Pos2Z.inj_succ. change (Zpos p~1) with (2 * Zpos p + 1).
    replace (Z.succ (Zpos (digits2_pos p)) - 1)
      with (Z.succ (Zpos (digits2_pos p) - 1)) by lia.
    rewrite !Z.pow_succ_r by lia.
    generalize dependent (2 ^ (Zpos (digits2_pos p) - 1)).
    generalize dependent (2 ^ Zpos (digits2_pos p)). lia.
  - rewrite Pos2Z.inj_succ. change (Zpos p~0) with (2 * Zpos p).
    replace (Z.succ (Zpos (digits2_pos p)) - 1)
      with (Z.succ (Zpos (digits2_pos p) - 1)) by lia.
    rewrite !Z.pow_succ_r by lia.
    generalize dependent (2 ^ (Zpos (digits2_pos p) - 1)).
    generalize dependent (2 ^ Zpos (digits2_pos p)). lia.
Qed.

Lemma digits2_pos_unique (p : positive) (n : Z) :
  2 ^ (n - 1) ≤ Zpos p < 2 ^ n → Zpos (digits2_pos p) = n.
Proof.
  intros [Hlo Hhi]. pose proof (digits2_pos_bounds p) as [Hlo' Hhi'].
  destruct (Z.lt_trichotomy (Zpos (digits2_pos p)) n) as [Hlt|[Heq|Hgt]]; [|done|].
  - assert (2 ^ Zpos (digits2_pos p) ≤ 2 ^ (n - 1)) by (apply Z.pow_le_mono_r; lia).
    lia.
  - assert (0 ≤ n).
    { destruct (Z.le_gt_cases 0 n); [done|]. rewrite (Z.pow_neg_r 2 n) in Hhi by lia. lia. }
    assert (2 ^ n ≤ 2 ^ (Zpos (digits2_pos p) - 1)) by (apply Z.pow_le_mono_r; lia).
    lia.
Qed.

Lemma iter_xO_spec (p n : positive) : Zpos (Pos.iter xO p n) = Zpos p * 2 ^ Zpos n.
Proof.
  induction n as [|n IH] using Pos.peano_ind.
  - cbn. lia.
  - rewrite Pos.iter_succ, Pos2Z.inj_succ, Z.pow_succ_r by lia.
    change (Zpos (Pos.iter xO p n)~0) with (2 * Zpos (Pos.iter xO p n)).
    rewrite IH. lia.
Qed.

(** A mantissa of 53 bits with an exponent in range is left as it is. *)
Lemma binary_round_aux_normal (m : positive) (e : Z) :
  2 ^ 52 ≤ Zpos m < 2 ^ 53 → -1074 ≤ e ≤ 971 →
  binary_round_aux 53 1024 false (Zpos m) e loc_Exact = S754_finite false m e.
Proof.
  intros Hm He. unfold binary_round_aux, shr_fexp, Zdigits2.
  rewrite (digits2_pos_unique m 53) by (change (53 - 1) with 52; lia).
  unfold fexp, emin.
  replace (Z.max (53 + e - 53) (3 - 1024 - 53) - e) with 0 by lia.
  cbn [shr shr_record_of_loc shr_m loc_of_shr_record round_nearest_even].
  unfold Zdigits2.
  rewrite (digits2_pos_unique m 53) by (change (53 - 1) with 52; lia).
  replace (Z.max (53 + e - 53) (3 - 1024 - 53) - e) with 0 by lia.
  cbn [shr shr_m]. destruct (Z.leb_spec e (1024 - 53)); [done | lia].
Qed.

Lemma of_int_spec (a : Z) :
  1 ≤ a < 2 ^ 53 →
  ∃ m k, float64.of_int a = S754_finite false m (- k)
         ∧ 0 ≤ k ≤ 52 ∧ Zpos m = a * 2 ^ k ∧ 2 ^ 52 ≤ Zpos m < 2 ^ 53.
Proof.
  intros Ha. destruct a as [|p|p]; try lia.
  unfold float64.of_int, binary_normalize, binary_round.
  pose proof (digits2_pos_bounds p) as Hd.
  set (d := Zpos (digits2_pos p)) in *.
  assert (1 ≤ d ≤ 53) as Hd53.
  { split; [subst d; lia|].
    destruct (Z.le_gt_cases d 53); [done|].
    assert (2 ^ 53 ≤ 2 ^ (d - 1)) by (apply Z.pow_le_mono_r; lia). lia. }
  unfold fexp, emin. replace (Z.max (d + 0 - 53) (3 - 1024 - 53)) with (d - 53) by lia.
  unfold shl_align.
  destruct (d - 53 - 0) as [|q|q] eqn:Hq; [|lia|].
  - assert (d = 53) as Hd' by lia. rewrite Hd' in Hd.
    rewrite binary_round_aux_normal by (change (53 - 1) with 52 in Hd; lia).
    exists p, 0. change (53 - 1) with 52 in Hd. repeat split; lia.
  - assert (Zpos q = 53 - d) as Hq' by lia.
    assert (Zpos (Pos.iter xO p q) = Zpos p * 2 ^ (53 - d)) as Hm
      by (by rewrite iter_xO_spec, Hq').
    assert (2 ^ 52 ≤ Zpos p * 2 ^ (53 - d) < 2 ^ 53) as Hrange.
    { assert (0 < 2 ^ (53 - d)) by (apply Z.pow_pos_nonneg; lia).
      assert (2 ^ 52 = 2 ^ (d - 1) * 2 ^ (53 - d)) as ->
        by (rewrite <- Z.pow_add_r by lia; f_equal; lia).
      assert (2 ^ 53 = 2 ^ d * 2 ^ (53 - d)) as ->
        by (rewrite <- Z.pow_add_r by lia; f_equal; lia).
      split; [apply Z.mul_le_mono_nonneg_r; lia | apply Z.mul_lt_mono_pos_r; lia]. }
    rewrite binary_round_aux_normal by lia.
    exists (Pos.iter xO p q), (53 - d).
    replace (- (53 - d)) with (d - 53) by lia.
    repeat split; try lia.
Qed.


Lemma Zdigits2_unique (q n : Z) :
  0 < q → 2 ^ (n - 1) ≤ q < 2 ^ n → Zdigits2 q = n.
Proof.
  intros Hq Hn. destruct q as [|p|p]; try lia. by apply digits2_pos_unique.
Qed.

(** The last step of rounding: a mantissa that rounding has carried to
    2^53 is brought back to 53 bits. *)
Lemma renormalize (M0 E : Z) :
  2 ^ 52 ≤ M0 ≤ 2 ^ 53 → -1074 ≤ E ≤ 970 →
  (let '(mrs, e) := shr_fexp 53 1024 M0 E loc_Exact in
   match shr_m mrs with
   | 0 => S754_zero false
   | Zpos m => if e <=? 1024 - 53 then S754_finite false m e else S754_infinity false
   | Zneg _ => S754_nan
   end)
  = if M0 <? 2 ^ 53 then S754_finite false (Z.to_pos M0) E
    else S754_finite false (Z.to_pos (2 ^ 52)) (E + 1).
Proof.
  intros HM HE. unfold shr_fexp. destruct (Z.ltb_spec M0 (2 ^ 53)) as [Hlt|Hge].
  - rewrite (Zdigits2_unique M0 53) by (change (53 - 1) with 52; lia).
    unfold fexp, emin.
    replace (Z.max (53 + E - 53) (3 - 1024 - 53) - E) with 0 by lia.
    cbn [shr shr_record_of_loc shr_m].
    destruct M0 as [|m|m]; try lia.
    destruct (Z.leb_spec E (1024 - 53)); [done | lia].
  - assert (M0 = 2 ^ 53) as -> by lia.
    change (Zdigits2 (2 ^ 53)) with 54. unfold fexp, emin.
    replace (Z.max (54 + E - 53) (3 - 1024 - 53) - E) with 1 by lia.
    cbn [shr shr_record_of_loc SpecFloat.iter_pos].
    change (shr_m (shr_1 {| shr_m := 2 ^ 53; shr_r := false; shr_s := false |}))
      with (2 ^ 52).
    change (2 ^ 52) with (Zpos (Z.to_pos (2 ^ 52))) at 1.
    cbn match. destruct (Z.leb_spec (E + 1) (1024 - 53)); [done | lia].
Qed.

Lemma shr_record_of_loc_inv (m : Z) (l : location) :
  shr_m (shr_record_of_loc m l) = m
  ∧ loc_of_shr_record (shr_record_of_loc m l) = l.
Proof. by destruct l as [|[]]. Qed.

Lemma round_nearest_even_step (m : Z) (l : location) :
  round_nearest_even m l = m ∨ round_nearest_even m l = m + 1.
Proof. destruct l as [|[]]; cbn; try tauto. destruct (Z.even m); tauto. Qed.

(** Rounding a quotient of 53 bits. *)
Lemma binary_round_aux_53 (q e : Z) (l : location) :
  2 ^ 52 ≤ q < 2 ^ 53 → -1074 ≤ e ≤ 970 →
  binary_round_aux 53 1024 false q e l
  = if round_nearest_even q l <? 2 ^ 53
    then S754_finite false (Z.to_pos (round_nearest_even q l)) e
    else S754_finite false (Z.to_pos (2 ^ 52)) (e + 1).
Proof.
  intros Hq He. unfold binary_round_aux.
  unfold shr_fexp at 1.
  rewrite (Zdigits2_unique q 53) by (change (53 - 1) with 52; lia).
  unfold fexp at 1, emin.
  replace (Z.max (53 + e - 53) (3 - 1024 - 53) - e) with 0 by lia.
  cbn [shr]. destruct (shr_record_of_loc_inv q l) as [-> ->].
  apply renormalize; [|done].
  destruct (round_nearest_even_step q l) as [-> | ->]; lia.
Qed.

(** Halving a mantissa keeps its parity and whether anything was lost. *)
Lemma shr_1_positive (q : Z) (r s : bool) :
  1 < q →
  shr_1 {| shr_m := q; shr_r := r; shr_s := s |}
  = {| shr_m := Z.div2 q; shr_r := Z.odd q; shr_s := r || s |}.
Proof. intros Hq. destruct q as [|[p|p|]|p]; try lia; reflexivity. Qed.

(** Rounding a quotient of 54 bits: one bit goes into the location. *)
Lemma binary_round_aux_54 (q e : Z) (l : location) :
  2 ^ 53 ≤ q < 2 ^ 54 → -1074 ≤ e ≤ 969 →
  let l' := loc_of_shr_record
              {| shr_m := Z.div2 q; shr_r := Z.odd q;
                 shr_s := match l with loc_Exact => false | _ => true end |} in
  binary_round_aux 53 1024 false q e l
  = if round_nearest_even (Z.div2 q) l' <? 2 ^ 53
    then S754_finite false (Z.to_pos (round_nearest_even (Z.div2 q) l')) (e + 1)
    else S754_finite false (Z.to_pos (2 ^ 52)) (e + 1 + 1).
Proof.
  intros Hq He l'. unfold binary_round_aux.
  unfold shr_fexp at 1.
  rewrite (Zdigits2_unique q 54) by (change (54 - 1) with 53; lia).
  unfold fexp at 1, emin.
  replace (Z.max (54 + e - 53) (3 - 1024 - 53) - e) with 1 by lia.
  cbn [shr SpecFloat.iter_pos].
  assert (shr_1 (shr_record_of_loc q l)
          = {| shr_m := Z.div2 q; shr_r := Z.odd q;
               shr_s := match l with loc_Exact => false | _ => true end |}) as ->.
  { destruct l as [|[]]; cbn [shr_record_of_loc];
      rewrite shr_1_positive by lia; reflexivity. }
  fold l'. cbn [shr_m].
  assert (2 ^ 52 ≤ Z.div2 q < 2 ^ 53) as Hhalf.
  { rewrite Z.div2_div. split.
    - apply Z.div_le_lower_bound; lia.
    - apply Z.div_lt_upper_bound; lia. }
  apply renormalize; [|lia].
  destruct (round_nearest_even_step (Z.div2 q) l') as [-> | ->]; lia.
Qed.


Lemma new_location_spec (D r : Z) :
  0 < D → 0 ≤ r < D →
  new_location D r = if r =? 0 then loc_Exact else loc_Inexact (2 * r ?= D).
Proof.
  intros HD Hr. unfold new_location.
  destruct (Z.even D) eqn:Heven; [done|]. unfold new_location_odd.
  destruct (r =? 0); [done|]. f_equal.
  destruct (Z.compare_spec (2 * r + 1) D), (Z.compare_spec (2 * r) D);
    try done; try lia.
  subst D. by rewrite Z.even_mul in Heven.
Qed.

Lemma round_nearest_even_rounds (N D : Z) :
  0 < D →
  rounds N D (round_nearest_even (N / D) (new_location D (N mod D))).
Proof.
  intros HD. pose proof (Z.mod_pos_bound N D HD) as Hr.
  rewrite new_location_spec by done. unfold rounds.
  destruct (Z.eqb_spec (N mod D) 0) as [H0|H0]; cbn.
  - rewrite H0. split; [done|]. split; [lia | tauto].
  - destruct (Z.compare_spec (2 * (N mod D)) D); cbn.
    + split; [done|]. split; [lia|]. destruct (Z.even (N / D)); tauto.
    + split; [done|]. split; [lia | tauto].
    + split; [done|]. split; [done | tauto].
Qed.

Lemma round_nearest_even_half_rounds (N D : Z) :
  0 < D → 0 ≤ N →
  rounds N (D * 2)
    (round_nearest_even (Z.div2 (N / D))
       (loc_of_shr_record
          {| shr_m := Z.div2 (N / D); shr_r := Z.odd (N / D);
             shr_s := match new_location D (N mod D) with
                      | loc_Exact => false
                      | _ => true
                      end |})).
Proof.
  intros HD HN. pose proof (Z.mod_pos_bound N D HD) as Hr.
  rewrite new_location_spec by done. unfold rounds.
  rewrite Z.rem_mul_r by lia. rewrite <- Z.div_div by lia.
  rewrite <- Z.div2_div.
  assert ((N / D) mod 2 = if Z.odd (N / D) then 1 else 0) as ->.
  { rewrite Zmod_odd. done. }
  destruct (Z.odd (N / D)), (Z.eqb_spec (N mod D) 0) as [H0|H0]; cbn.
  - rewrite H0. split; [lia|]. split; [lia|]. destruct (Z.even _); tauto.
  - split; [lia|]. split; [done | tauto].
  - rewrite H0. split; [done|]. split; [lia | tauto].
  - split; [lia|]. split; [lia | tauto].
Qed.

Lemma SFdiv_normal (m1 m2 : positive) (e1 e2 : Z) :
  2 ^ 52 ≤ Zpos m1 < 2 ^ 53 → 2 ^ 52 ≤ Zpos m2 < 2 ^ 53 →
  -52 ≤ e1 ≤ 0 → -52 ≤ e2 ≤ 0 →
  ∃ M0 s,
    (s = 0 ∨ s = 1)
    ∧ 2 ^ 52 ≤ M0 ≤ 2 ^ 53
    ∧ 2 ^ 52 ≤ (Zpos m1 * 2 ^ 53) / (Zpos m2 * 2 ^ s)
    ∧ rounds (Zpos m1 * 2 ^ 53) (Zpos m2 * 2 ^ s) M0
    ∧ SFdiv 53 1024 (S754_finite false m1 e1) (S754_finite false m2 e2)
      = if M0 <? 2 ^ 53
        then S754_finite false (Z.to_pos M0) (e1 - e2 - 53 + s)
        else S754_finite false (Z.to_pos (2 ^ 52)) (e1 - e2 - 53 + s + 1).
Proof.
  intros Hm1 Hm2 He1 He2. unfold SFdiv, SFdiv_core_binary, Zdigits2.
  rewrite (digits2_pos_unique m1 53), (digits2_pos_unique m2 53)
    by (change (53 - 1) with 52; lia).
  unfold fexp, emin.
  replace (Z.min (Z.max (53 + e1 - (53 + e2) - 53) (3 - 1024 - 53)) (e1 - e2))
    with (e1 - e2 - 53) by lia.
  replace (e1 - e2 - (e1 - e2 - 53)) with 53 by lia.
  cbn match. rewrite Z.shiftl_mul_pow2 by lia.
  set (N := Zpos m1 * 2 ^ 53). set (D := Zpos m2).
  assert (0 < D) as HD by (subst D; lia).
  assert (0 ≤ N) as HN by (subst N; lia).
  pose proof (Z.mod_pos_bound N D HD) as Hr.
  assert (Z.div_eucl N D = (N / D, N mod D)) as ->.
  { unfold Z.div, Z.modulo. by destruct (Z.div_eucl N D). }
  assert (2 ^ 52 ≤ N / D) as Hlo.
  { apply Z.div_le_lower_bound; [done|]. subst N D. lia. }
  assert (N / D < 2 ^ 54) as Hhi.
  { apply Z.div_lt_upper_bound; [done|]. subst N D. lia. }
  cbn [xorb].
  destruct (Z.lt_ge_cases (N / D) (2 ^ 53)) as [H53|H54].
  - rewrite binary_round_aux_53 by lia.
    exists (round_nearest_even (N / D) (new_location D (N mod D))), 0.
    split; [tauto|]. rewrite Z.mul_1_r, Z.add_0_r.
    split; [destruct (round_nearest_even_step (N / D) (new_location D (N mod D)))
              as [-> | ->]; lia|].
    split; [done|]. split; [by apply round_nearest_even_rounds | done].
  - rewrite binary_round_aux_54 by lia.
    eexists _, 1. split; [tauto|]. change (2 ^ 1) with 2.
    assert (2 ^ 52 ≤ Z.div2 (N / D) < 2 ^ 53) as Hhalf.
    { rewrite Z.div2_div. split.
      - apply Z.div_le_lower_bound; lia.
      - apply Z.div_lt_upper_bound; lia. }
    split; [|split; [|split; [by apply round_nearest_even_half_rounds | done]]].
    + match goal with
      | |- context [round_nearest_even ?m ?l] =>
          destruct (round_nearest_even_step m l) as [-> | ->]; lia
      end.
    + rewrite <- Z.div_div, <- Z.div2_div by lia. lia.
Qed.


Lemma to_int_of_int (z : Z) :
  1 ≤ z < 2 ^ 53 → float64.to_int (float64.of_int z) = z.
Proof.
  intros Hz. destruct (of_int_spec z Hz) as (m & k & -> & Hk & Hm & Hrange).
  unfold float64.to_int, int_min, int_max.
  destruct (Z.leb_spec 0 (- k)).
  - assert (k = 0) as -> by lia. cbn [Z.opp Z.pow] in *.
    rewrite Z.mul_1_r in *. rewrite Hm.
    destruct (Z.leb_spec (- 2 ^ 63) z), (Z.leb_spec z (2 ^ 63 - 1)); try lia.
    done.
  - rewrite Z.opp_involutive, Hm, Z.div_mul by lia.
    destruct (Z.leb_spec (- 2 ^ 63) z), (Z.leb_spec z (2 ^ 63 - 1)); try lia.
    done.
Qed.

Lemma to_int_Ceil (M : positive) (E : Z) :
  E ≤ 0 → 1 ≤ cdiv (Zpos M) (2 ^ (- E)) < 2 ^ 53 →
  float64.to_int (float64.Ceil (S754_finite false M E))
  = cdiv (Zpos M) (2 ^ (- E)).
Proof.
  intros HE Hc. unfold float64.Ceil.
  destruct (Z.leb_spec 0 E).
  - assert (E = 0) as -> by lia. unfold cdiv in *. cbn [Z.opp Z.pow] in *.
    replace (Zpos M + 1 - 1) with (Zpos M) in * by lia.
    rewrite Z.div_1_r in *. unfold float64.to_int, int_min, int_max.
    cbn [Z.leb Z.compare Z.pow]. rewrite Z.mul_1_r.
    destruct (Z.leb_spec (- 2 ^ 63) (Zpos M)), (Z.leb_spec (Zpos M) (2 ^ 63 - 1));
      try lia.
    cbn. lia.
  - fold (cdiv (Zpos M) (2 ^ (- E))).
    destruct (Z.eqb_spec (cdiv (Zpos M) (2 ^ (- E))) 0); [lia|].
    by apply to_int_of_int.
Qed.

(** The arithmetic at the heart of C9: a quotient below 2^53, scaled so
    that it has 53 bits and rounded there, has the ceiling of the exact
    quotient. *)
Lemma cdiv_rounds (a b t M : Z) :
  1 ≤ a < 2 ^ 53 → 1 ≤ b → 1 ≤ t →
  2 ^ 52 * b ≤ a * t →
  rounds (a * t) b M →
  cdiv M t = cdiv a b.
Proof.
  intros Ha Hb Ht Hnorm (Hexact & Hup & Hstep).
  unfold cdiv. set (c := (a + b - 1) / b).
  assert ((c - 1) * b < a ≤ c * b) as Hc.
  { pose proof (Z.div_mod (a + b - 1) b ltac:(lia)) as Hdm.
    pose proof (Z.mod_pos_bound (a + b - 1) b ltac:(lia)) as Hmod.
    fold c in Hdm. nia. }
  pose proof (Z.div_mod (a * t) b ltac:(lia)) as Hdm.
  pose proof (Z.mod_pos_bound (a * t) b ltac:(lia)) as Hmod.
  set (q := a * t / b) in *. set (r := (a * t) mod b) in *.
  assert (b < 2 * t) as Hhalf by nia.
  assert ((c - 1) * t < M ≤ c * t) as HM.
  { split.
    - destruct (Z.lt_ge_cases ((c - 1) * t) q) as [Hq|Hq]; [lia|].
      assert (q = (c - 1) * t) as Hq' by nia.
      assert (t ≤ r) by nia.
      rewrite Hup by lia. lia.
    - destruct (Z.eq_dec r 0) as [Hr|Hr].
      + rewrite Hexact by done. nia.
      + assert (q < c * t) by nia. lia. }
  symmetry. apply (Z.div_unique _ _ _ (M + t - 1 - c * t)); lia.
Qed.


Lemma cdiv_double (n d : Z) : 0 < d → cdiv (2 * n) (2 * d) = cdiv n d.
Proof.
  intros Hd. unfold cdiv.
  pose proof (Z.div_mod (n + d - 1) d ltac:(lia)) as Hdm.
  pose proof (Z.mod_pos_bound (n + d - 1) d Hd) as Hmod.
  symmetry. apply (Z.div_unique _ _ _ (2 * ((n + d - 1) mod d) + 1)); lia.
Qed.

Lemma cdiv_bounds (a b : Z) : 1 ≤ a → 1 ≤ b → 1 ≤ cdiv a b ≤ a.
Proof.
  intros Ha Hb. unfold cdiv. split.
  - apply Z.div_le_lower_bound; lia.
  - apply Z.div_le_upper_bound; nia.
Qed.

Lemma rounds_scale (A b P M : Z) :
  0 < b → 0 < P → rounds (A * P) (b * P) M → rounds A b M.
Proof.
  intros Hb HP (Hexact & Hup & Hstep). unfold rounds.
  rewrite Z.div_mul_cancel_r, Z.mul_mod_distr_r in * by lia.
  split; [|split; [|done]].
  - intros H0. apply Hexact. rewrite H0. lia.
  - intros Hhalf. apply Hup. nia.
Qed.

(** The computation of [calculateMetadata] for the last page, below
    2^53. *)
Lemma float64_ceiling (a b : Z) :
  1 ≤ a < 2 ^ 53 → 1 ≤ b < 2 ^ 53 →
  float64.to_int (float64.Ceil (float64.div (float64.of_int a) (float64.of_int b)))
  = cdiv a b.
Proof.
  intros Ha Hb.
  destruct (of_int_spec a Ha) as (m1 & k1 & -> & Hk1 & Hm1 & Hr1).
  destruct (of_int_spec b Hb) as (m2 & k2 & -> & Hk2 & Hm2 & Hr2).
  unfold float64.div.
  destruct (SFdiv_normal m1 m2 (- k1) (- k2))
    as (M0 & s & Hs & HM0 & Hnorm & Hrounds & ->); [lia..|].
  set (x := k1 - k2 + 53 - s).
  assert (0 ≤ x) as Hx by lia.
  assert (1 ≤ 2 ^ x) as Ht by (pose proof (Z.pow_pos_nonneg 2 x); lia).
  assert (0 < 2 ^ (k2 + s)) as HP by (apply Z.pow_pos_nonneg; lia).
  assert (Zpos m1 * 2 ^ 53 = a * 2 ^ x * 2 ^ (k2 + s)) as HN.
  { rewrite Hm1, <- !Z.mul_assoc, <- !Z.pow_add_r by lia.
    do 2 f_equal. lia. }
  assert (Zpos m2 * 2 ^ s = b * 2 ^ (k2 + s)) as HD.
  { rewrite Hm2, <- Z.mul_assoc, <- Z.pow_add_r by lia. done. }
  rewrite HN, HD in Hnorm, Hrounds.
  rewrite Z.div_mul_cancel_r in Hnorm by lia.
  apply rounds_scale in Hrounds; [|lia..].
  assert (2 ^ 52 * b ≤ a * 2 ^ x) as Hscaled.
  { pose proof (Z.mul_div_le (a * 2 ^ x) b ltac:(lia)). nia. }
  pose proof (cdiv_rounds a b (2 ^ x) M0 Ha ltac:(lia) Ht Hscaled Hrounds) as Hc.
  pose proof (cdiv_bounds a b ltac:(lia) ltac:(lia)) as Hcb.
  replace (- k1 - - k2 - 53 + s) with (- x) by lia.
  destruct (Z.ltb_spec M0 (2 ^ 53)) as [Hlt|Hge].
  - rewrite to_int_Ceil; rewrite ?Z.opp_involutive, ?Z2Pos.id by lia; lia.
  - assert (M0 = 2 ^ 53) as -> by lia.
    destruct (Z.eq_dec x 0) as [Hx0|Hx0].
    { rewrite Hx0 in Hc. unfold cdiv in Hc at 1. cbn [Z.pow] in Hc.
      rewrite Z.div_1_r in Hc. lia. }
    assert (cdiv (2 ^ 52) (2 ^ (x - 1)) = cdiv a b) as Hc'.
    { rewrite <- Hc. replace x with (Z.succ (x - 1)) at 2 by lia.
      rewrite Z.pow_succ_r by lia. change (2 ^ 53) with (2 * 2 ^ 52).
      rewrite cdiv_double; [done|]. apply Z.pow_pos_nonneg; lia. }
    rewrite to_int_Ceil.
    + replace (- (- x + 1)) with (x - 1) by lia. done.
    + lia.
    + replace (- (- x + 1)) with (x - 1) by lia.
      change (Zpos (Z.to_pos (2 ^ 52))) with (2 ^ 52). lia.
Qed.

End Float64_facts.


(** C9, as the code has it.  For no records the metadata is the zero value.
    For a number of records other than zero, the current page, the page
    size and the total are the arguments and the first page is 1; and when
    the number of records and the page size are both positive and below
    2^53, the last page is the ceiling of their quotient: the least [c]
    with [totalRecords ≤ c * pageSize]. *)
Theorem calculateMetadata_spec (totalRecords page pageSize : Z) :
  data.calculateMetadata 0 page pageSize = data.Metadata.zero
  ∧ (totalRecords ≠ 0 →
     let metadata := data.calculateMetadata totalRecords page pageSize in
     data.Metadata.CurrentPage metadata = page
     ∧ data.Metadata.PageSize metadata = pageSize
     ∧ data.Metadata.FirstPage metadata = 1
     ∧ data.Metadata.TotalRecords metadata = totalRecords)
  ∧ (0 < totalRecords < 2 ^ 53 → 0 < pageSize < 2 ^ 53 →
     let c := data.Metadata.LastPage
                (data.calculateMetadata totalRecords page pageSize) in
     c = cdiv totalRecords pageSize
     ∧ (c - 1) * pageSize < totalRecords ≤ c * pageSize).
Proof.
  split; [done|]. unfold data.calculateMetadata. split.
  - intros Hne. by destruct (Z.eqb_spec totalRecords 0).
  - intros Ht Hp. destruct (Z.eqb_spec totalRecords 0); [lia|].
    cbn [data.Metadata.LastPage]. rewrite float64_ceiling by lia.
    split; [done|]. unfold cdiv.
    pose proof (Z.div_mod (totalRecords + pageSize - 1) pageSize ltac:(lia)).
    pose proof (Z.mod_pos_bound (totalRecords + pageSize - 1) pageSize ltac:(lia)).
    nia.
Qed.

Lemma calculateMetadata_spec_witness :
  data.Metadata.LastPage (data.calculateMetadata 41 3 20) = 3.
Proof.
  pose proof (calculateMetadata_spec 41 3 20) as (_ & _ & Hlast).
  destruct Hlast as [Hc _]; [lia | lia |]. exact Hc.
Defined.

(** The claim C9 is stated for every number of records.  From 2^53 + 1 on,
    the conversion to [float64] rounds: with one record to a page,
    2^53 + 1 records are given 2^53 pages. *)
Lemma calculateMetadata_large_counterexample :
  data.calculateMetadata 9007199254740993 1 1
  = {| data.Metadata.CurrentPage := 1; data.Metadata.PageSize := 1;
       data.Metadata.FirstPage := 1;
       data.Metadata.LastPage := 9007199254740992;
       data.Metadata.TotalRecords := 9007199254740993 |}
  ∧ cdiv 9007199254740993 1 = 9007199254740993
  ∧ data.Metadata.LastPage (data.calculateMetadata 9007199254740993 1 1)
    ≠ cdiv 9007199254740993 1.
Proof. by vm_compute. Qed.

(** ** Validation of a movie *)

Section Validation_facts.

Lemma size_list_to_set_le (l : list string) :
  (size (list_to_set l : gset string) ≤ length l)%nat.
Proof.
  induction l as [|x l IH]; cbn; [by rewrite size_empty|].
  destruct (decide (x ∈ (list_to_set l : gset string))) as [Hin|Hin].
  - rewrite (subseteq_union_1_L (C:=gset string)) by (by apply singleton_subseteq_l).
    lia.
  - rewrite size_union by (by apply disjoint_singleton_l).
    rewrite size_singleton. lia.
Qed.

Lemma Unique_true_NoDup (values : list string) :
  validator.Unique values = true → NoDup values.
Proof.
  unfold validator.Unique. rewrite Nat.eqb_eq.
  induction values as [|x l IH]; [constructor|].
  cbn [length list_to_set]. intros Hsize.
  pose proof (size_list_to_set_le l) as Hle.
  destruct (decide (x ∈ (list_to_set l : gset string))) as [Hin|Hin].
  - rewrite (subseteq_union_1_L (C:=gset string)) in Hsize
      by (by apply singleton_subseteq_l).
    lia.
  - rewrite size_union, size_singleton in Hsize by (by apply disjoint_singleton_l).
    constructor; [by rewrite elem_of_list_to_set in Hin|]. apply IH. lia.
Qed.

Lemma Valid_Check ok key message v :
  validator.Valid (validator.Check ok key message v) = validator.Valid v && ok.
Proof.
  destruct ok; cbn; [by rewrite andb_true_r|]. rewrite andb_false_r.
  unfold validator.AddError.
  destruct (validator.Errors v !! key) eqn:Hkey.
  - apply not_true_is_false. intros Hvalid%Valid_empty.
    by rewrite Hvalid, lookup_empty in Hkey.
  - apply not_true_is_false. intros Hvalid%Valid_empty. cbn in Hvalid.
    by apply insert_non_empty in Hvalid.
Qed.

Lemma ValidateMovie_valid now_year movie :
  validator.Valid (data.ValidateMovie now_year validator.New movie) =
  negb (String.eqb (data.Movie.Title movie) "")
  && (String.length (data.Movie.Title movie) <=? 500)%nat
  && negb (data.Movie.Year movie =? 0)
  && (1888 <=? data.Movie.Year movie)
  && (data.Movie.Year movie <=? now_year)
  && negb (data.Movie.Runtime movie =? 0)
  && (0 <? data.Movie.Runtime movie)
  && bool_decide (data.Movie.Genres movie ≠ None)
  && (1 <=? data.slice_len (data.Movie.Genres movie))%nat
  && (data.slice_len (data.Movie.Genres movie) <=? 5)%nat
  && validator.Unique (default [] (data.Movie.Genres movie)).
Proof. unfold data.ValidateMovie. by rewrite !Valid_Check. Qed.

Lemma ValidateMovie_accepts now_year movie :
  validator.Valid (data.ValidateMovie now_year validator.New movie) = true →
  data.Movie.Title movie ≠ ""
  ∧ (String.length (data.Movie.Title movie) ≤ 500)%nat
  ∧ 1888 ≤ data.Movie.Year movie ≤ now_year
  ∧ 0 < data.Movie.Runtime movie
  ∧ ∃ genres, data.Movie.Genres movie = Some genres
              ∧ (1 ≤ length genres ≤ 5)%nat ∧ NoDup genres.
Proof.
  rewrite ValidateMovie_valid, !andb_true_iff.
  intros [[[[[[[[[[Ht Hl] _] Hy1] Hy2] _] Hr] Hg] Hg1] Hg5] Hu].
  apply negb_true_iff, String.eqb_neq in Ht.
  apply Nat.leb_le in Hl, Hg1, Hg5. apply Z.leb_le in Hy1, Hy2.
  apply Z.ltb_lt in Hr. apply bool_decide_eq_true in Hg.
  destruct (data.Movie.Genres movie) as [genres|] eqn:Hgenres; [|done].
  cbn in Hg1, Hg5, Hu. apply Unique_true_NoDup in Hu.
  split; [done|]. split; [done|]. split; [lia|]. split; [done|].
  exists genres. split; [done|]. split; [lia|done].
Qed.

Lemma ValidateMovie_checks now_year movie :
  validator.Valid (data.ValidateMovie now_year validator.New movie) = true →
  data.movies_runtime_check (data.Movie.Runtime movie) = true
  ∧ data.movies_year_check now_year (data.Movie.Year movie) = true
  ∧ data.genres_length_check (data.Movie.Genres movie) = true.
Proof.
  intros Hvalid.
  destruct (ValidateMovie_accepts _ _ Hvalid)
    as (_ & _ & Hyear & Hruntime & genres & Hgenres & Hlen & _).
  unfold data.movies_runtime_check, data.movies_year_check, data.genres_length_check.
  split; [apply Z.leb_le; lia|].
  split; [apply andb_true_iff; split; apply Z.leb_le; lia|].
  rewrite Hgenres. destruct genres; [done|].
  apply andb_true_iff. split; apply Nat.leb_le; lia.
Qed.

End Validation_facts.

(** X1.  [validator.Unique] answers true exactly for a slice in which no
    value occurs twice. *)
Theorem Unique_iff_NoDup (values : list string) :
  validator.Unique values = true ↔ NoDup values.
Proof.
  split; [apply Unique_true_NoDup|].
  intros Hnodup. unfold validator.Unique. apply Nat.eqb_eq.
  symmetry. by apply size_list_to_set.
Qed.

(** X2.  A movie that [ValidateMovie] accepts has a title that is not empty
    and at most 500 bytes long, a year from 1888 to the current year, a
    positive runtime, and from one to five genres, all distinct.  Such a
    movie also meets the three CHECK constraints of the movies table, so
    the statement that stores it is not refused by them. *)
Theorem ValidateMovie_meets_the_checks (now_year : Z) (movie : data.Movie.t) :
  validator.Valid (data.ValidateMovie now_year validator.New movie) = true →
  (data.Movie.Title movie ≠ ""
   ∧ (String.length (data.Movie.Title movie) ≤ 500)%nat
   ∧ 1888 ≤ data.Movie.Year movie ≤ now_year
   ∧ 0 < data.Movie.Runtime movie
   ∧ ∃ genres, data.Movie.Genres movie = Some genres
               ∧ (1 ≤ length genres ≤ 5)%nat ∧ NoDup genres)
  ∧ data.movies_runtime_check (data.Movie.Runtime movie) = true
  ∧ data.movies_year_check now_year (data.Movie.Year movie) = true
  ∧ data.genres_length_check (data.Movie.Genres movie) = true.
Proof.
  intros Hvalid. split; [by apply ValidateMovie_accepts|].
  by apply ValidateMovie_checks.
Qed.

Lemma ValidateMovie_meets_the_checks_witness :
  data.movies_year_check 2024 1943 = true
  ∧ data.genres_length_check (Some ["drama"; "romance"]) = true.
Proof.
  pose proof (ValidateMovie_meets_the_checks 2024 casablanca_edit eq_refl)
    as (_ & _ & Hyear & Hgenres).
  split; [exact Hyear | exact Hgenres].
Defined.

(** ** The runtime of a movie in JSON *)

Section Decimal_facts.

Lemma digits_step (c : ascii) (k acc : Z) (s : string) :
  Z.of_nat (nat_of_ascii c) = 48 + k → 0 ≤ k ≤ 9 →
  strconv.digits acc (String c s) = strconv.digits (10 * acc + k) s.
Proof.
  intros Hc Hk. cbn [strconv.digits]. rewrite Hc.
  destruct (Z.leb_spec 48 (48 + k)); [|lia].
  destruct (Z.leb_spec (48 + k) 57); [|lia].
  cbn [andb]. f_equal. lia.
Qed.

Lemma digits_string_of_uint (u : Decimal.uint) (acc : Z) :
  strconv.digits acc (NilEmpty.string_of_uint u) = Some (uint_value u acc).
Proof.
  revert acc. induction u; intros acc; cbn [NilEmpty.string_of_uint uint_value];
    [done|..];
    first [ rewrite (digits_step _ 0) by (reflexivity || lia)
          | rewrite (digits_step _ 1) by (reflexivity || lia)
          | rewrite (digits_step _ 2) by (reflexivity || lia)
          | rewrite (digits_step _ 3) by (reflexivity || lia)
          | rewrite (digits_step _ 4) by (reflexivity || lia)
          | rewrite (digits_step _ 5) by (reflexivity || lia)
          | rewrite (digits_step _ 6) by (reflexivity || lia)
          | rewrite (digits_step _ 7) by (reflexivity || lia)
          | rewrite (digits_step _ 8) by (reflexivity || lia)
          | rewrite (digits_step _ 9) by (reflexivity || lia) ];
    rewrite IHu; do 2 f_equal; lia.
Qed.

Lemma of_uint_acc_value (u : Decimal.uint) (acc : positive) :
  Zpos (Pos.of_uint_acc u acc) = uint_value u (Zpos acc).
Proof.
  revert acc. induction u; intros acc; cbn [Pos.of_uint_acc uint_value];
    [done|..]; rewrite IHu; f_equal; lia.
Qed.

Lemma of_uint_value (u : Decimal.uint) :
  Z.of_N (Pos.of_uint u) = uint_value u 0.
Proof.
  induction u; cbn [Pos.of_uint uint_value]; [done|by rewrite IHu|..];
    cbn [Z.of_N]; by rewrite of_uint_acc_value.
Qed.

Lemma to_uint_not_Nil (p : positive) : Pos.to_uint p ≠ Decimal.Nil.
Proof.
  intros Hnil. pose proof (DecimalPos.Unsigned.of_to p) as Hp.
  by rewrite Hnil in Hp.
Qed.

Lemma digits_to_uint (p : positive) :
  strconv.digits 0 (NilZero.string_of_uint (Pos.to_uint p)) = Some (Zpos p).
Proof.
  pose proof (to_uint_not_Nil p) as Hnil.
  replace (NilZero.string_of_uint (Pos.to_uint p))
    with (NilEmpty.string_of_uint (Pos.to_uint p))
    by (by destruct (Pos.to_uint p)).
  rewrite digits_string_of_uint, <- of_uint_value.
  by rewrite DecimalPos.Unsigned.of_to.
Qed.

(** A text that [strconv.digits] reads consists of digits: it holds no
    space and no comma. *)
Lemma digits_spaceless (s : string) (acc n : Z) :
  strconv.digits acc s = Some n → spaceless s = true.
Proof.
  revert acc. induction s as [|c s IH]; intros acc; cbn; [done|].
  destruct (_ && _) eqn:Hc; [|done]. intros Hs. rewrite (IH _ Hs), andb_true_r.
  apply negb_true_iff. destruct (Ascii.eqb_spec c " ") as [->|]; [done|done].
Qed.

(** [ParseInt] on a text that starts with a digit takes no sign off. *)
Lemma ParseInt_unsigned (s : string) (n bitSize : Z) :
  s ≠ "" → strconv.digits 0 s = Some n →
  strconv.ParseInt s bitSize =
  if (- 2 ^ (bitSize - 1) <=? n) && (n <=? 2 ^ (bitSize - 1) - 1)
  then Some n else None.
Proof.
  destruct s as [|c s]; [done|]. intros _ Hd. unfold strconv.ParseInt.
  assert ((48 <=? Z.of_nat (nat_of_ascii c)) && (Z.of_nat (nat_of_ascii c) <=? 57) = true)
    as Hc.
  { cbn in Hd. by destruct (_ && _). }
  destruct c as [[] [] [] [] [] [] [] []]; try discriminate Hc; by rewrite Hd.
Qed.

Lemma Itoa_digits (p : positive) :
  ∃ s, strconv.Itoa (Zpos p) = s ∧ strconv.Itoa (Zneg p) = String "-" s
       ∧ s ≠ "" ∧ strconv.digits 0 s = Some (Zpos p).
Proof.
  exists (NilZero.string_of_uint (Pos.to_uint p)).
  split; [done|]. split; [done|]. split; [|apply digits_to_uint].
  intros Hempty. pose proof (digits_to_uint p) as Hd. by rewrite Hempty in Hd.
Qed.

Lemma ParseInt_Itoa (z bitSize : Z) :
  - 2 ^ (bitSize - 1) ≤ z ≤ 2 ^ (bitSize - 1) - 1 →
  strconv.ParseInt (strconv.Itoa z) bitSize = Some z.
Proof.
  intros Hz. destruct z as [|p|p].
  - change (strconv.Itoa 0) with "0". rewrite (ParseInt_unsigned "0" 0); [|done..].
    destruct (Z.leb_spec (- 2 ^ (bitSize - 1)) 0); [|lia].
    by destruct (Z.leb_spec 0 (2 ^ (bitSize - 1) - 1)); [|lia].
  - destruct (Itoa_digits p) as (s & -> & _ & Hne & Hd).
    rewrite (ParseInt_unsigned s (Zpos p)) by done.
    destruct (Z.leb_spec (- 2 ^ (bitSize - 1)) (Zpos p)); [|lia].
    by destruct (Z.leb_spec (Zpos p) (2 ^ (bitSize - 1) - 1)); [|lia].
  - destruct (Itoa_digits p) as (s & _ & -> & Hne & Hd).
    unfold strconv.ParseInt. destruct s as [|c s]; [done|]. rewrite Hd.
    change (- Zpos p) with (Zneg p).
    destruct (Z.leb_spec (- 2 ^ (bitSize - 1)) (Zneg p)); [|lia].
    by destruct (Z.leb_spec (Zneg p) (2 ^ (bitSize - 1) - 1)); [|lia].
Qed.

Lemma Itoa_spaceless (z : Z) : spaceless (strconv.Itoa z) = true.
Proof.
  destruct z as [|p|p]; [done|..];
    destruct (Itoa_digits p) as (s & Hpos & Hneg & _ & Hd);
    rewrite ?Hpos, ?Hneg; cbn; by rewrite (digits_spaceless _ _ _ Hd).
Qed.

Lemma ParseInt_in_range (s : string) (bitSize z : Z) :
  strconv.ParseInt s bitSize = Some z →
  - 2 ^ (bitSize - 1) ≤ z ≤ 2 ^ (bitSize - 1) - 1.
Proof.
  unfold strconv.ParseInt.
  destruct (match s with
            | String "+"%char rest => (false, rest)
            | String "-"%char rest => (true, rest)
            | _ => (false, s)
            end) as [negative body].
  destruct body as [|c body]; [done|].
  destruct (strconv.digits 0 (String c body)) as [n|]; [|done].
  destruct (Z.leb_spec (- 2 ^ (bitSize - 1)) (if negative then - n else n));
    [|done].
  destruct (Z.leb_spec (if negative then - n else n) (2 ^ (bitSize - 1) - 1));
    [|done].
  intros [= <-]. lia.
Qed.

End Decimal_facts.

(** X3.  For every runtime of 32 bits, [UnmarshalJSON] reads the JSON
    string that [MarshalJSON] writes back as the same runtime. *)
Theorem Runtime_JSON_round_trip (r : Z) :
  - 2 ^ 31 ≤ r < 2 ^ 31 →
  api.Runtime_of_json (api.Runtime_MarshalJSON r) = inl r.
Proof.
  intros Hr. unfold api.Runtime_of_json, api.Runtime_MarshalJSON, data.Runtime_UnmarshalJSON.
  rewrite (Split_app (strconv.Itoa r) "mins") by apply Itoa_spaceless.
  cbn [strings.Split Ascii.eqb Bool.eqb]. cbn.
  rewrite ParseInt_Itoa; [done|]. change (2 ^ (32 - 1)) with (2 ^ 31). lia.
Qed.

Lemma Runtime_JSON_round_trip_witness :
  api.Runtime_of_json (api.Runtime_MarshalJSON 102) = inl 102.
Proof. apply Runtime_JSON_round_trip. lia. Defined.

(** X4.  [Runtime.UnmarshalJSON] accepts a value only when it is a string
    that splits at its spaces into exactly a number and the word mins, the
    number being a decimal integer of 32 bits, which is the runtime read;
    every refusal is [ErrInvalidRuntimeFormat]. *)
Theorem Runtime_UnmarshalJSON_accepts_int32 (unquoted : option string) :
  match data.Runtime_UnmarshalJSON unquoted with
  | inl minutes =>
      - 2 ^ 31 ≤ minutes < 2 ^ 31
      ∧ ∃ text number,
          unquoted = Some text
          ∧ strings.Split text " " = [number; "mins"]
          ∧ strconv.ParseInt number 32 = Some minutes
  | inr err => err = ErrInvalidRuntimeFormat
  end.
Proof.
  unfold data.Runtime_UnmarshalJSON.
  destruct unquoted as [text|]; [|done].
  destruct (strings.Split text " ") as [|number [|unit [|? ?]]] eqn:Hsplit;
    try done.
  destruct (String.eqb_spec unit "mins") as [->|]; cbn [negb]; [|done].
  destruct (strconv.ParseInt number 32) as [minutes|] eqn:Hparse; [|done].
  apply ParseInt_in_range in Hparse as Hrange.
  change (2 ^ (32 - 1)) with (2 ^ 31) in Hrange.
  split; [lia|]. by exists text, number.
Qed.

(** ** The movies table *)

Section Movies_facts.
Import data.

Lemma MovieModel_Insert_cases drv id created_at version movie d err movie' d' :
  MovieModel.Insert drv id created_at version movie d = (err, movie', d') →
  (err = None ∧ drv = None ∧ DB.movies d !! id = None
   ∧ movie' = {| Movie.ID := id; Movie.CreatedAt := created_at;
                 Movie.Title := Movie.Title movie; Movie.Year := Movie.Year movie;
                 Movie.Runtime := Movie.Runtime movie;
                 Movie.Genres := Movie.Genres movie; Movie.Version := version |}
   ∧ d' = DB.with_movies
            (<[id := {| movies.created_at := created_at;
                        movies.title := Movie.Title movie;
                        movies.year := Movie.Year movie;
                        movies.runtime := Movie.Runtime movie;
                        movies.genres := Movie.Genres movie;
                        movies.version := version |}]> (DB.movies d)) d)
  ∨ (err ≠ None ∧ movie' = movie ∧ d' = d).
Proof.
  unfold MovieModel.Insert, insert_movies. destruct drv as [e|].
  { intros [= <- <- <-]. by right. }
  destruct (DB.movies d !! id) eqn:Hrow.
  - intros [= <- <- <-]. by right.
  - intros [= <- <- <-]. by left.
Qed.

Lemma MovieModel_Delete_cases drv affected id d err d' :
  MovieModel.Delete drv affected id d = (err, d') →
  (1 ≤ id ∧ drv = None ∧ is_Some (DB.movies d !! id) ∧ err = affected
   ∧ d' = DB.with_movies (delete id (DB.movies d)) d)
  ∨ (err ≠ None ∧ d' = d
     ∧ (drv = None → affected = None →
        err = Some ErrRecordNotFound ∧ (1 ≤ id → DB.movies d !! id = None))).
Proof.
  unfold MovieModel.Delete, delete_movies.
  destruct (Z.ltb_spec id 1) as [Hid|Hid].
  { intros [= <- <-]. right. split; [done|]. split; [done|]. intros _ _.
    split; [done|lia]. }
  destruct drv as [e|].
  { intros [= <- <-]. right. split; [done|]. split; [done|]. done. }
  destruct (DB.movies d !! id) as [row|] eqn:Hrow.
  - destruct affected as [e|]; intros [= <- <-]; left; by eauto 10.
  - destruct affected as [e|]; intros [= <- <-]; right; by eauto.
Qed.

End Movies_facts.

(** X5.  When [Insert] succeeds with the positive identifier, the creation
    time and the version that the store assigns, the identifier was free, the caller's
    movie carries the three assigned values, [Get] of that identifier
    returns exactly this movie, and [Get] of any other identifier answers
    as before.  When [Insert] fails, the movie and the store are
    unchanged. *)
Theorem MovieModel_Insert_then_Get
    (drv : option error) (id created_at version : Z) (movie : data.Movie.t)
    (d : data.DB.t) (err : option error) (movie' : data.Movie.t) (d' : data.DB.t) :
  1 ≤ id →
  data.MovieModel.Insert drv id created_at version movie d = (err, movie', d') →
  (err = None →
     data.DB.movies d !! id = None
     ∧ data.MovieModel.Get None id d' = inl movie'
     ∧ movie' = {| data.Movie.ID := id; data.Movie.CreatedAt := created_at;
                   data.Movie.Title := data.Movie.Title movie;
                   data.Movie.Year := data.Movie.Year movie;
                   data.Movie.Runtime := data.Movie.Runtime movie;
                   data.Movie.Genres := data.Movie.Genres movie;
                   data.Movie.Version := version |}
     ∧ ∀ other, other ≠ id →
         data.MovieModel.Get None other d' = data.MovieModel.Get None other d)
  ∧ (err ≠ None → movie' = movie ∧ d' = d).
Proof.
  intros Hid Hcall.
  destruct (MovieModel_Insert_cases _ _ _ _ _ _ _ _ _ Hcall)
    as [(-> & -> & Hnew & -> & ->)|(Herr & -> & ->)]; [|by split].
  split; [|done]. intros _. split; [done|].
  unfold data.MovieModel.Get, data.select_movie.
  destruct (Z.ltb_spec id 1); [lia|]. cbn. rewrite lookup_insert_eq. cbn.
  split; [done|]. split; [done|]. intros other Hother.
  by rewrite lookup_insert_ne.
Qed.

Lemma MovieModel_Insert_then_Get_witness :
  data.MovieModel.Get None 8
    (snd (data.MovieModel.Insert None 8 1700000500 1 casablanca_edit store))
  = inl {| data.Movie.ID := 8; data.Movie.CreatedAt := 1700000500;
           data.Movie.Title := "Casablanca"; data.Movie.Year := 1943;
           data.Movie.Runtime := 102;
           data.Movie.Genres := Some ["drama"; "romance"];
           data.Movie.Version := 1 |}.
Proof.
  destruct (data.MovieModel.Insert None 8 1700000500 1 casablanca_edit store)
    as [[err movie'] d'] eqn:Hcall.
  assert (err = None) as -> by (vm_compute in Hcall; congruence).
  destruct (MovieModel_Insert_then_Get None 8 1700000500 1 casablanca_edit store
              None movie' d' ltac:(lia) Hcall) as [Hok _].
  destruct (Hok eq_refl) as (_ & Hget & -> & _). exact Hget.
Defined.

(** X6.  After a successful [Update] of a movie with a positive
    identifier, [Get] of that identifier
    returns the title, year, runtime and genres that were passed, the
    creation time of the stored row and the version plus one; [Get] of any
    other identifier answers as before. *)
Theorem MovieModel_Update_then_Get
    (drv : option error) (movie : data.Movie.t) (d : data.DB.t)
    (movie' : data.Movie.t) (d' : data.DB.t) :
  1 ≤ data.Movie.ID movie →
  data.MovieModel.Update drv movie d = (None, movie', d') →
  ∃ old,
    data.DB.movies d !! data.Movie.ID movie = Some old
    ∧ data.MovieModel.Get None (data.Movie.ID movie) d'
      = inl {| data.Movie.ID := data.Movie.ID movie;
               data.Movie.CreatedAt := data.movies.created_at old;
               data.Movie.Title := data.Movie.Title movie;
               data.Movie.Year := data.Movie.Year movie;
               data.Movie.Runtime := data.Movie.Runtime movie;
               data.Movie.Genres := data.Movie.Genres movie;
               data.Movie.Version := data.Movie.Version movie + 1 |}
    ∧ ∀ other, other ≠ data.Movie.ID movie →
        data.MovieModel.Get None other d' = data.MovieModel.Get None other d.
Proof.
  intros Hid Hcall.
  apply MovieModel_Update_success in Hcall as (old & Hold & Hversion & -> & ->).
  exists old. split; [done|].
  unfold data.MovieModel.Get, data.select_movie.
  destruct (Z.ltb_spec (data.Movie.ID movie) 1); [lia|]. cbn.
  rewrite lookup_insert_eq. cbn. rewrite Hversion. split; [done|].
  intros other Hother. by rewrite lookup_insert_ne.
Qed.

Lemma MovieModel_Update_then_Get_witness :
  data.MovieModel.Get None 7
    (snd (data.MovieModel.Update None casablanca_edit store))
  = inl {| data.Movie.ID := 7; data.Movie.CreatedAt := 1700000000;
           data.Movie.Title := "Casablanca"; data.Movie.Year := 1943;
           data.Movie.Runtime := 102;
           data.Movie.Genres := Some ["drama"; "romance"];
           data.Movie.Version := 4 |}.
Proof.
  destruct (data.MovieModel.Update None casablanca_edit store)
    as [[err movie'] d'] eqn:Hcall.
  assert (err = None) as -> by (vm_compute in Hcall; congruence).
  destruct (MovieModel_Update_then_Get None casablanca_edit store movie' d'
              ltac:(cbn; lia) Hcall) as (old & Hold & Hget & _).
  injection Hold as <-. exact Hget.
Defined.

(** X7.  [Delete] touches at most the row of the given identifier, and no
    user and no token.  When it succeeds the identifier was at least 1 and
    stored, the row is gone, [Get] answers [ErrRecordNotFound] and a second
    [Delete] answers [ErrRecordNotFound] and changes nothing.  For an
    identifier below 1, and for one that is not stored when the driver
    works, it answers [ErrRecordNotFound] and changes nothing. *)
Theorem MovieModel_Delete_removes_one_row
    (drv affected : option error) (id : Z) (d : data.DB.t)
    (err : option error) (d' : data.DB.t) :
  data.MovieModel.Delete drv affected id d = (err, d') →
  (err = None →
     1 ≤ id ∧ is_Some (data.DB.movies d !! id)
     ∧ data.DB.movies d' = delete id (data.DB.movies d)
     ∧ data.MovieModel.Get None id d' = inr ErrRecordNotFound
     ∧ data.MovieModel.Delete None None id d' = (Some ErrRecordNotFound, d'))
  ∧ (∀ other, other ≠ id →
       data.DB.movies d' !! other = data.DB.movies d !! other)
  ∧ data.DB.users d' = data.DB.users d
  ∧ data.DB.tokens d' = data.DB.tokens d
  ∧ (drv = None → affected = None → data.DB.movies d !! id = None →
     err = Some ErrRecordNotFound ∧ d' = d)
  ∧ (id < 1 → err = Some ErrRecordNotFound ∧ d' = d).
Proof.
  intros Hcall.
  destruct (MovieModel_Delete_cases _ _ _ _ _ _ Hcall)
    as [(Hid & -> & Hrow & -> & ->)|(Herr & -> & Hnone)].
  - split; [|split; [|split; [|split; [|split]]]]; try done.
    + intros ->. split; [done|]. split; [done|]. split; [done|].
      unfold data.MovieModel.Get, data.MovieModel.Delete, data.delete_movies,
        data.select_movie.
      destruct (Z.ltb_spec id 1); [lia|]. cbn. by rewrite lookup_delete_eq.
    + intros other Hother. cbn. by rewrite lookup_delete_ne.
    + intros _ -> Hnone. rewrite Hnone in Hrow. by destruct Hrow.
    + lia.
  - split; [done|]. split; [done|]. split; [done|]. split; [done|].
    split.
    + intros Hdrv Haff _. by destruct (Hnone Hdrv Haff).
    + intros Hid. split; [|done]. unfold data.MovieModel.Delete in Hcall.
      destruct (Z.ltb_spec id 1); [|lia]. congruence.
Qed.

Lemma MovieModel_Delete_removes_one_row_witness :
  data.MovieModel.Get None 7 (snd (data.MovieModel.Delete None None 7 store))
  = inr ErrRecordNotFound.
Proof.
  destruct (data.MovieModel.Delete None None 7 store) as [err d'] eqn:Hcall.
  assert (err = None) as -> by (vm_compute in Hcall; congruence).
  destruct (MovieModel_Delete_removes_one_row None None 7 store None d' Hcall)
    as [Hok _].
  by destruct (Hok eq_refl) as (_ & _ & _ & Hget & _).
Defined.

(** ** Creating and deleting a movie *)

Section Movie_handlers_facts.
Import api.

Lemma TrimPrefix_movies (s : string) :
  strings.TrimPrefix ("/v1/movies/" ++ s) "/v1/movies/" = s.
Proof. reflexivity. Qed.

Lemma readIDParam_Itoa (r : Request) (id : Z) :
  1 ≤ id ≤ int_max → id_param r = strconv.Itoa id → readIDParam r = inl id.
Proof.
  intros Hid Hparam. unfold readIDParam. rewrite Hparam, ParseInt_Itoa.
  - destruct (Z.ltb_spec id 1); [lia|done].
  - change (2 ^ (64 - 1)) with (2 ^ 63). unfold int_max in Hid. lia.
Qed.

Lemma createMovieHandler_cases drv id created_at version now_year w r d w' d' :
  status w = None →
  createMovieHandler drv id created_at version now_year w r d = (w', d') →
  (∃ input movie,
     readJSON createMovieInput.Decode r = inl input
     ∧ movie = {| data.Movie.ID := 0; data.Movie.CreatedAt := 0;
                  data.Movie.Title := createMovieInput.Title input;
                  data.Movie.Year := createMovieInput.Year input;
                  data.Movie.Runtime := createMovieInput.Runtime input;
                  data.Movie.Genres := createMovieInput.Genres input;
                  data.Movie.Version := 0 |}
     ∧ validator.Valid (data.ValidateMovie now_year validator.New movie) = true
     ∧ data.MovieModel.Insert drv id created_at version movie d
       = (None,
          {| data.Movie.ID := id; data.Movie.CreatedAt := created_at;
             data.Movie.Title := createMovieInput.Title input;
             data.Movie.Year := createMovieInput.Year input;
             data.Movie.Runtime := createMovieInput.Runtime input;
             data.Movie.Genres := createMovieInput.Genres input;
             data.Movie.Version := version |}, d')
     ∧ w' = fst (writeJSON w http.StatusCreated
                   {[ "movie" := of_movie
                        {| data.Movie.ID := id; data.Movie.CreatedAt := created_at;
                           data.Movie.Title := createMovieInput.Title input;
                           data.Movie.Year := createMovieInput.Year input;
                           data.Movie.Runtime := createMovieInput.Runtime input;
                           data.Movie.Genres := createMovieInput.Genres input;
                           data.Movie.Version := version |} ]}
                   (http.Set_ "Location" ("/v1/movies/" ++ strconv.Itoa id) ∅)))
  ∨ (d' = d ∧ ∃ code, status w' = Some code ∧ code ≠ 201).
Proof.
  intros Hstatus. unfold createMovieHandler.
  assert (∀ code message, code ≠ 201 →
            (errorResponse w code message, d) = (w', d') →
            d' = d ∧ ∃ code, status w' = Some code ∧ code ≠ 201) as Herror.
  { intros code message Hcode [= <- <-]. split; [done|]. exists code.
    by destruct (errorResponse_facts w code message Hstatus) as (-> & _). }
  destruct (readJSON createMovieInput.Decode r) as [input|err] eqn:Hread;
    [|intros Heq; right; eapply Herror; [|exact Heq]; by vm_compute].
  destruct (validator.Valid _) eqn:Hvalid; cbn [negb];
    [|intros Heq; right; eapply Herror; [|exact Heq]; by vm_compute].
  destruct (data.MovieModel.Insert drv id created_at version _ d)
    as [[err movie'] d2] eqn:Hinsert.
  destruct (MovieModel_Insert_cases _ _ _ _ _ _ _ _ _ Hinsert)
    as [(-> & -> & Hnew & -> & ->)|(Herr & -> & ->)].
  - cbn [data.Movie.ID]. unfold writeJSON at 1, MarshalIndent.
    intros [= <- <-]. left. eexists input, _. split; [done|].
    split; [reflexivity|]. split; [done|]. split; [done|]. done.
  - destruct err as [err|]; [|done].
    intros Heq; right; eapply Herror; [|exact Heq]; by vm_compute.
Qed.

Lemma deleteMovieHandler_cases drv affected w r d w' d' :
  status w = None →
  deleteMovieHandler drv affected w r d = (w', d') →
  (∃ id, readIDParam r = inl id
         ∧ data.MovieModel.Delete drv affected id d = (None, d')
         ∧ status w' = Some 200
         ∧ written w'
           = (written w ++ [{[ "message" := of_text "movie successfully deleted" ]}])%list)
  ∨ (∃ code, status w' = Some code ∧ code ≠ 200
             ∧ (d' = d
                ∨ ∃ id err, readIDParam r = inl id ∧ affected = Some err
                            ∧ data.MovieModel.Delete drv affected id d = (Some err, d'))
             ∧ (drv = None → affected = None → code = 404)).
Proof.
  intros Hstatus. unfold deleteMovieHandler.
  assert (∀ code message d0, code ≠ 200 →
            (errorResponse w code message, d0) = (w', d') →
            status w' = Some code ∧ d' = d0) as Herror.
  { intros code message d0 Hcode [= <- <-]. split; [|done].
    by destruct (errorResponse_facts w code message Hstatus) as (-> & _). }
  destruct (readIDParam r) as [id|] eqn:Hid.
  2:{ intros Heq. right. exists 404. eapply Herror in Heq as [-> ->]; [|done].
      split; [done|]. split; [done|]. split; [by left|done]. }
  destruct (data.MovieModel.Delete drv affected id d) as [[err|] d2] eqn:Hdelete.
  - destruct (MovieModel_Delete_cases _ _ _ _ _ _ Hdelete)
      as [(Hge & -> & Hrow & <- & ->)|(_ & -> & Hnone)].
    + destruct (errors_Is err ErrRecordNotFound); intros Heq; right;
        eexists; (eapply Herror in Heq as [-> ->]; [|by vm_compute]);
        (split; [done|]); (split; [by vm_compute|]);
        (split; [right; by exists id, err|done]).
    + destruct (errors_Is err ErrRecordNotFound) eqn:Hnf; intros Heq; right;
        eexists; (eapply Herror in Heq as [-> ->]; [|by vm_compute]);
        (split; [done|]); (split; [by vm_compute|]); (split; [by left|]).
      * done.
      * intros Hdrv Haff. destruct (Hnone Hdrv Haff) as [[= ->] _]. done.
  - rewrite writeJSON_eq. intros [= <- <-]. left. exists id.
    split; [done|]. split; [done|]. unfold Write, WriteHeader. cbn.
    by rewrite Hstatus.
Qed.

End Movie_handlers_facts.

(** X8.  When [createMovieHandler] answers 201, the body was read into an
    input, the identifier assigned by the store was free, the table is the
    old one with one row added that holds the title, year, runtime and
    genres of the input, and that row meets the CHECK constraints of the
    table; the [Location] header is /v1/movies/ followed by the identifier
    in decimal, and [readIDParam] reads that identifier, when it is a
    positive [int], back from it.  With
    any other answer the store is unchanged. *)
Theorem createMovieHandler_creates
    (drv : option error) (id created_at version now_year : Z)
    (w : api.ResponseWriter) (r : api.Request) (d : data.DB.t)
    (w' : api.ResponseWriter) (d' : data.DB.t) :
  api.status w = None →
  api.createMovieHandler drv id created_at version now_year w r d = (w', d') →
  (api.status w' = Some 201 →
     ∃ input,
       api.readJSON api.createMovieInput.Decode r = inl input
       ∧ data.DB.movies d !! id = None
       ∧ data.DB.movies d'
         = <[id := {| data.movies.created_at := created_at;
                      data.movies.title := api.createMovieInput.Title input;
                      data.movies.year := api.createMovieInput.Year input;
                      data.movies.runtime := api.createMovieInput.Runtime input;
                      data.movies.genres := api.createMovieInput.Genres input;
                      data.movies.version := version |}]> (data.DB.movies d)
       ∧ data.movies_runtime_check (api.createMovieInput.Runtime input) = true
       ∧ data.movies_year_check now_year (api.createMovieInput.Year input) = true
       ∧ data.genres_length_check (api.createMovieInput.Genres input) = true
       ∧ api.Header w' !! "Location" = Some ["/v1/movies/" ++ strconv.Itoa id]
       ∧ (1 ≤ id ≤ int_max →
          ∀ r2, api.id_param r2
                = strings.TrimPrefix (http.Get "Location" (api.Header w')) "/v1/movies/" →
                api.readIDParam r2 = inl id))
  ∧ (api.status w' ≠ Some 201 → d' = d).
Proof.
  intros Hstatus Hcall.
  destruct (createMovieHandler_cases _ _ _ _ _ _ _ _ _ _ Hstatus Hcall)
    as [(input & movie & Hread & -> & Hvalid & Hinsert & ->)
       | (-> & code & Hcode & Hne)].
  2:{ split; [|done]. rewrite Hcode. by intros [= ->]. }
  assert (api.status
            (fst (api.writeJSON w http.StatusCreated
                    {[ "movie" := api.of_movie
                         {| data.Movie.ID := id; data.Movie.CreatedAt := created_at;
                            data.Movie.Title := api.createMovieInput.Title input;
                            data.Movie.Year := api.createMovieInput.Year input;
                            data.Movie.Runtime := api.createMovieInput.Runtime input;
                            data.Movie.Genres := api.createMovieInput.Genres input;
                            data.Movie.Version := version |} ]}
                    (http.Set_ "Location" ("/v1/movies/" ++ strconv.Itoa id) ∅)))
          = Some 201) as Hcreated.
  { unfold api.writeJSON, api.MarshalIndent, api.Write, api.WriteHeader. cbn.
    by rewrite Hstatus. }
  split; [intros _|by rewrite Hcreated].
  destruct (MovieModel_Insert_cases _ _ _ _ _ _ _ _ _ Hinsert)
    as [(_ & _ & Hnew & _ & ->)|(Herr & _)]; [|done].
  destruct (ValidateMovie_checks _ _ Hvalid) as (Hr & Hy & Hg).
  assert (api.Header
            (fst (api.writeJSON w http.StatusCreated
                    {[ "movie" := api.of_movie
                         {| data.Movie.ID := id; data.Movie.CreatedAt := created_at;
                            data.Movie.Title := api.createMovieInput.Title input;
                            data.Movie.Year := api.createMovieInput.Year input;
                            data.Movie.Runtime := api.createMovieInput.Runtime input;
                            data.Movie.Genres := api.createMovieInput.Genres input;
                            data.Movie.Version := version |} ]}
                    (http.Set_ "Location" ("/v1/movies/" ++ strconv.Itoa id) ∅)))
            !! "Location" = Some ["/v1/movies/" ++ strconv.Itoa id]) as Hlocation.
  { unfold api.writeJSON, api.MarshalIndent, api.Write, api.WriteHeader. cbn.
    rewrite Hstatus. cbn. canonical_keys.
    rewrite lookup_insert_ne by done.
    apply lookup_union_Some_l. by rewrite lookup_insert_eq. }
  exists input. split; [done|]. split; [done|]. split; [done|].
  split; [done|]. split; [done|]. split; [done|]. split; [done|].
  intros Hid r2 Hparam. apply readIDParam_Itoa; [done|].
  rewrite Hparam, Get_canonical by (by vm_compute).
  rewrite Hlocation. apply TrimPrefix_movies.
Qed.

Lemma createMovieHandler_creates_witness :
  ∃ w' d',
    api.createMovieHandler None 8 1700000500 1 2024 api.fresh post_moana store
    = (w', d')
    ∧ api.Header w' !! "Location" = Some ["/v1/movies/8"]
    ∧ data.DB.movies d' !! 8
      = Some {| data.movies.created_at := 1700000500;
                data.movies.title := "Moana"; data.movies.year := 2016;
                data.movies.runtime := 107;
                data.movies.genres := Some ["animation"; "adventure"];
                data.movies.version := 1 |}
    ∧ api.readIDParam patch_year_of_8 = inl 8.
Proof.
  destruct (api.createMovieHandler None 8 1700000500 1 2024 api.fresh post_moana store)
    as [w' d'] eqn:Hcall.
  assert (api.status w' = Some 201) as Hcreated.
  { vm_compute in Hcall. injection Hcall as <- _. reflexivity. }
  destruct (createMovieHandler_creates None 8 1700000500 1 2024 api.fresh post_moana
              store w' d' eq_refl Hcall) as [Hdone _].
  destruct (Hdone Hcreated)
    as (input & Hinput & _ & Hd' & _ & _ & _ & Hlocation & Hid).
  assert (input = {| api.createMovieInput.Title := "Moana";
                     api.createMovieInput.Year := 2016;
                     api.createMovieInput.Runtime := 107;
                     api.createMovieInput.Genres := Some ["animation"; "adventure"] |})
    as ->.
  { vm_compute in Hinput. congruence. }
  exists w', d'. split; [reflexivity|]. split; [exact Hlocation|].
  split; [rewrite Hd'; apply lookup_insert_eq|].
  apply Hid; [unfold int_max; lia|].
  rewrite Get_canonical by (by vm_compute). rewrite Hlocation. reflexivity.
Defined.

(** X9.  When [deleteMovieHandler] answers 200, the identifier of the
    request was stored, the table is the old one without that row, the
    body is the message movie successfully deleted, and the same request
    sent again is answered 404 and changes nothing.  With any other
    answer the store is unchanged, unless the driver failed to report the
    number of rows removed.  A request for an identifier that is not stored
    is answered 404. *)
Theorem deleteMovieHandler_deletes
    (drv affected : option error)
    (w : api.ResponseWriter) (r : api.Request) (d : data.DB.t)
    (w' : api.ResponseWriter) (d' : data.DB.t) :
  api.status w = None →
  api.deleteMovieHandler drv affected w r d = (w', d') →
  (api.status w' = Some 200 →
     ∃ id,
       api.readIDParam r = inl id
       ∧ is_Some (data.DB.movies d !! id)
       ∧ data.DB.movies d' = delete id (data.DB.movies d)
       ∧ api.written w'
         = (api.written w
            ++ [{[ "message" := api.of_text "movie successfully deleted" ]}])%list
       ∧ ∀ w2, api.status w2 = None →
           ∃ w2', api.deleteMovieHandler None None w2 r d' = (w2', d')
                  ∧ api.status w2' = Some 404)
  ∧ (api.status w' ≠ Some 200 → affected = None → d' = d)
  ∧ (drv = None → affected = None →
     (∀ id, api.readIDParam r = inl id → data.DB.movies d !! id = None) →
     api.status w' = Some 404 ∧ d' = d).
Proof.
  intros Hstatus Hcall.
  destruct (deleteMovieHandler_cases _ _ _ _ _ _ _ Hstatus Hcall)
    as [(id & Hid & Hdelete & Hok & Hwritten)
       | (code & Hcode & Hne & Hstore & Hnotfound)].
  - destruct (MovieModel_Delete_cases _ _ _ _ _ _ Hdelete)
      as [(Hge & -> & Hrow & <- & ->)|(Herr & _)]; [|done].
    split; [intros _|split; [by rewrite Hok|]].
    + exists id. split; [done|]. split; [done|]. split; [done|].
      split; [done|]. intros w2 Hstatus2. exists (api.notFoundResponse w2). split.
      * unfold api.deleteMovieHandler. rewrite Hid.
        unfold data.MovieModel.Delete, data.delete_movies.
        destruct (Z.ltb_spec id 1); [lia|]. cbn [data.DB.movies data.DB.with_movies].
        by rewrite lookup_delete_eq.
      * unfold api.notFoundResponse.
        by destruct (errorResponse_facts w2 http.StatusNotFound
                       (api.of_text "the requested resource could not found")
                       Hstatus2) as (-> & _).
    + intros _ _ Habsent. rewrite (Habsent id Hid) in Hrow. by destruct Hrow.
  - split; [rewrite Hcode; by intros [= ->]|]. split.
    + intros _ ->. destruct Hstore as [->|(id & err & _ & [=] & _)]. done.
    + intros Hdrv Haff _. rewrite Hcode, (Hnotfound Hdrv Haff). split; [done|].
      subst affected. by destruct Hstore as [->|(id & err & _ & [=] & _)].
Qed.

Lemma deleteMovieHandler_deletes_witness :
  ∃ w' d',
    api.deleteMovieHandler None None api.fresh patch_year store = (w', d')
    ∧ api.status w' = Some 200
    ∧ data.DB.movies d' !! 7 = None.
Proof.
  destruct (api.deleteMovieHandler None None api.fresh patch_year store)
    as [w' d'] eqn:Hcall.
  assert (api.status w' = Some 200) as Hok.
  { vm_compute in Hcall. injection Hcall as <- _. reflexivity. }
  destruct (deleteMovieHandler_deletes None None api.fresh patch_year store w' d'
              eq_refl Hcall) as [Hdone _].
  destruct (Hdone Hok) as (id & Hid & _ & Hd' & _).
  injection Hid as <-.
  exists w', d'. split; [reflexivity|]. split; [exact Hok|].
  rewrite Hd'. apply lookup_delete_eq.
Defined.

(** ** Tokens *)

Section Tokens_facts.
Import data.

Lemma select_user_for_token_app ts1 ts2 us h scope now :
  (∀ t, t ∈ ts1 → ¬ (tokens.hash t = h ∧ tokens.scope t = scope
                     ∧ now < tokens.expiry t)) →
  select_user_for_token (ts1 ++ ts2) us h scope now
  = select_user_for_token ts2 us h scope now.
Proof.
  induction ts1 as [|t ts1 IH]; intros Hno; [done|]. cbn.
  destruct (_ && _ && _) eqn:Hm.
  - apply andb_true_iff in Hm as [[Hh Hs]%andb_true_iff Hn%Z.ltb_lt].
    apply bool_decide_eq_true in Hh. apply String.eqb_eq in Hs.
    destruct (Hno t); [by left | done].
  - apply IH. intros t' Ht'. apply Hno. by right.
Qed.

Lemma select_user_for_token_inv ts us h scope now user :
  select_user_for_token ts us h scope now = row_of user →
  ∃ t row, t ∈ ts ∧ tokens.hash t = h ∧ tokens.scope t = scope
           ∧ now < tokens.expiry t
           ∧ us !! tokens.user_id t = Some row
           ∧ user = scan_user (tokens.user_id t) row.
Proof.
  induction ts as [|t ts IH]; cbn; [done|].
  destruct (_ && _ && _) eqn:Hm.
  - apply andb_true_iff in Hm as [[Hh Hs]%andb_true_iff Hn%Z.ltb_lt].
    apply bool_decide_eq_true in Hh. apply String.eqb_eq in Hs.
    destruct (us !! tokens.user_id t) as [row|] eqn:Hrow.
    + intros [= <-]. exists t, row. repeat split; try done. by left.
    + intros Hsel. destruct (IH Hsel) as (t1 & row & Hin & Hrest).
      exists t1, row. split; [by right | done].
  - intros Hsel. destruct (IH Hsel) as (t1 & row & Hin & Hrest).
    exists t1, row. split; [by right | done].
Qed.

Lemma GetForToken_inl drv now scope plaintext d user :
  UserModel.GetForToken drv now scope plaintext d = inl user →
  ∃ t row, t ∈ DB.tokens d
           ∧ tokens.hash t = sha256.Sum256 (bytes_of_string plaintext)
           ∧ tokens.scope t = scope ∧ now < tokens.expiry t
           ∧ DB.users d !! tokens.user_id t = Some row
           ∧ user = scan_user (tokens.user_id t) row.
Proof.
  unfold UserModel.GetForToken. destruct drv as [err|].
  { by destruct (errors_Is err sql_ErrNoRows). }
  destruct (select_user_for_token _ _ _ _ _) as [u|err] eqn:Hsel.
  - intros [= <-]. by apply select_user_for_token_inv in Hsel.
  - by destruct (errors_Is err sql_ErrNoRows).
Qed.

Lemma generateToken_inl now random userID ttl scope token :
  generateToken now random userID ttl scope = inl token →
  Token.Hash token = sha256.Sum256 (bytes_of_string (Token.Plaintext token))
  ∧ Token.UserID token = userID ∧ Token.Expiry token = now + ttl
  ∧ Token.Scope token = scope
  ∧ Token.Plaintext token
    = match random with
      | rand.failing _ => ""
      | rand.yielding bytes => base32.EncodeToString (map bytes (seq 0 16))
      end.
Proof.
  unfold generateToken, rand.Read. destruct random as [err|bytes]; [done|].
  by intros [= <-].
Qed.

Lemma TokenModel_New_cases drv now random userID ttl scope d token err d' :
  TokenModel.New drv now random userID ttl scope d = (token, err, d') →
  (∃ t, token = Some t ∧ err = None ∧ drv = None
        ∧ generateToken now random userID ttl scope = inl t
        ∧ d' = DB.with_tokens
                 (DB.tokens d ++ [{| tokens.hash := Token.Hash t;
                                     tokens.user_id := Token.UserID t;
                                     tokens.expiry := Token.Expiry t;
                                     tokens.scope := Token.Scope t |}]) d)
  ∨ (err ≠ None ∧ d' = d).
Proof.
  unfold TokenModel.New, TokenModel.Insert.
  destruct (generateToken now random userID ttl scope) as [t|e] eqn:Hgen.
  - destruct drv as [e|]; intros [= <- <- <-]; [by right|].
    left. by exists t.
  - intros [= <- <- <-]. by right.
Qed.

Lemma GetForToken_appended d d' trow plaintext row now scope :
  DB.tokens d' = (DB.tokens d ++ [trow])%list →
  tokens.hash trow = sha256.Sum256 (bytes_of_string plaintext) →
  (∀ t, t ∈ DB.tokens d → tokens.hash t ≠ tokens.hash trow) →
  DB.users d' !! tokens.user_id trow = Some row →
  UserModel.GetForToken None now scope plaintext d'
  = if bool_decide (scope = tokens.scope trow) && (now <? tokens.expiry trow)
    then inl (scan_user (tokens.user_id trow) row)
    else inr ErrRecordNotFound.
Proof.
  intros Htokens Hhash Hfresh Hrow. unfold UserModel.GetForToken.
  rewrite Htokens, select_user_for_token_app.
  2:{ intros t' Hin (Hh & _). apply (Hfresh t' Hin). by rewrite Hh, Hhash. }
  cbn [select_user_for_token]. rewrite Hhash, bool_decide_eq_true_2 by done.
  rewrite Hrow.
  destruct (String.eqb_spec (tokens.scope trow) scope) as [<-|Hne].
  - rewrite bool_decide_eq_true_2 by done. cbn [andb].
    by destruct (now <? tokens.expiry trow).
  - by rewrite bool_decide_eq_false_2 by done.
Qed.

End Tokens_facts.

(** X10.  After [New] has stored a token for an existing user, and when no
    older token has the same hash, [GetForToken] with the plaintext of the
    new token returns that user exactly when it is asked for the scope the
    token was created with at an instant before the creation time plus
    the time to live; otherwise it answers [ErrRecordNotFound]. *)
Theorem TokenModel_New_then_GetForToken
    (now : Z) (random : rand.source) (userID ttl : Z) (scope : string)
    (d : data.DB.t) (token : data.Token.t) (d' : data.DB.t)
    (row : data.users.row) :
  data.TokenModel.New None now random userID ttl scope d = (Some token, None, d') →
  data.DB.users d !! userID = Some row →
  (∀ t, t ∈ data.DB.tokens d → data.tokens.hash t ≠ data.Token.Hash token) →
  ∀ now' scope',
    data.UserModel.GetForToken None now' scope' (data.Token.Plaintext token) d'
    = if bool_decide (scope' = scope) && (now' <? now + ttl)
      then inl (data.scan_user userID row)
      else inr ErrRecordNotFound.
Proof.
  intros Hnew Hrow Hfresh now' scope'.
  destruct (TokenModel_New_cases _ _ _ _ _ _ _ _ _ _ Hnew)
    as [(t & [= <-] & _ & _ & Hgen & ->)|(Herr & _)]; [|done].
  destruct (generateToken_inl _ _ _ _ _ _ Hgen) as (Hhash & Huser & Hexpiry & Hscope & _).
  erewrite (GetForToken_appended d); [|reflexivity|exact Hhash|exact Hfresh|].
  - cbn [data.tokens.scope data.tokens.expiry data.tokens.user_id].
    by rewrite Hscope, Hexpiry, Huser.
  - cbn [data.tokens.user_id data.DB.users data.DB.with_tokens]. by rewrite Huser.
Qed.

Lemma TokenModel_New_then_GetForToken_witness :
  ∃ token d',
    data.TokenModel.New None 1000 other_source 1 500 data.ScopeActivation store
    = (Some token, None, d')
    ∧ data.UserModel.GetForToken None 1499 data.ScopeActivation
        (data.Token.Plaintext token) d'
      = inl (data.scan_user 1 ann)
    ∧ data.UserModel.GetForToken None 1500 data.ScopeActivation
        (data.Token.Plaintext token) d'
      = inr ErrRecordNotFound
    ∧ data.UserModel.GetForToken None 1499 data.ScopeAuthentication
        (data.Token.Plaintext token) d'
      = inr ErrRecordNotFound.
Proof.
  destruct (data.TokenModel.New None 1000 other_source 1 500 data.ScopeActivation store)
    as [[token err] d'] eqn:Hcall.
  assert (∃ t, token = Some t ∧ err = None
               ∧ ∀ t0, t0 ∈ data.DB.tokens store →
                       data.tokens.hash t0 ≠ data.Token.Hash t)
    as (t & -> & -> & Hfresh).
  { vm_compute in Hcall. injection Hcall as <- <- _. eexists. split; [done|].
    split; [done|]. intros t0 Hin. apply list_elem_of_singleton in Hin as ->.
    by vm_compute. }
  pose proof (TokenModel_New_then_GetForToken 1000 other_source 1 500
                data.ScopeActivation store t d' ann Hcall eq_refl Hfresh) as Hget.
  exists t, d'. split; [done|].
  split; [exact (Hget 1499 data.ScopeActivation)|].
  split; [exact (Hget 1500 data.ScopeActivation)|].
  exact (Hget 1499 data.ScopeAuthentication).
Defined.

(** X11.  When [DeleteAllForUser] succeeds, the tokens left are exactly
    those of another scope or another user, users and movies are
    unchanged, and [GetForToken] in that scope no longer accepts a
    plaintext whose hash belonged to tokens of that user only.  When it
    fails, the store is unchanged. *)
Theorem DeleteAllForUser_removes_the_tokens
    (drv : option error) (scope : string) (userID : Z) (d : data.DB.t)
    (err : option error) (d' : data.DB.t) :
  data.TokenModel.DeleteAllForUser drv scope userID d = (err, d') →
  (err = None →
     (∀ t, t ∈ data.DB.tokens d'
           ↔ t ∈ data.DB.tokens d
             ∧ ¬ (data.tokens.scope t = scope ∧ data.tokens.user_id t = userID))
     ∧ data.DB.users d' = data.DB.users d
     ∧ data.DB.movies d' = data.DB.movies d
     ∧ ∀ now plaintext,
         (∀ t, t ∈ data.DB.tokens d →
               data.tokens.hash t = sha256.Sum256 (bytes_of_string plaintext) →
               data.tokens.user_id t = userID) →
         data.UserModel.GetForToken None now scope plaintext d'
         = inr ErrRecordNotFound)
  ∧ (err ≠ None → d' = d).
Proof.
  unfold data.TokenModel.DeleteAllForUser. destruct drv as [e|].
  { intros [= <- <-]. by split. }
  intros [= <- <-]. split; [intros _|done].
  cbn [data.DB.tokens data.DB.users data.DB.movies data.DB.with_tokens].
  split; [|split; [done|split; [done|]]].
  - intros t. rewrite list_elem_of_filter. tauto.
  - intros now plaintext Howner. unfold data.UserModel.GetForToken.
    cbn [data.DB.tokens data.DB.users data.DB.with_tokens].
    rewrite select_user_for_token_none; [done|].
    intros t [Hkeep Hin]%list_elem_of_filter (Hh & Hs & _).
    apply Hkeep. split; [done|]. by apply Howner.
Qed.

Lemma DeleteAllForUser_removes_the_tokens_witness :
  data.UserModel.GetForToken None 1000 data.ScopeActivation bob_token
    (snd (data.TokenModel.DeleteAllForUser None data.ScopeActivation 2 store_with_bob))
  = inr ErrRecordNotFound.
Proof.
  destruct (data.TokenModel.DeleteAllForUser None data.ScopeActivation 2 store_with_bob)
    as [err d'] eqn:Hcall.
  assert (err = None) as -> by (vm_compute in Hcall; congruence).
  destruct (DeleteAllForUser_removes_the_tokens None data.ScopeActivation 2
              store_with_bob None d' Hcall) as [Hok _].
  destruct (Hok eq_refl) as (_ & _ & _ & Hget).
  apply Hget. intros t Hin Hhash.
  apply elem_of_cons in Hin as [->|Hin]; [by vm_compute in Hhash|].
  by apply list_elem_of_singleton in Hin as ->.
Defined.

(** ** Activation *)

Section Activation_facts.
Import api.

Lemma UserModel_Update_success drv user d user' d' :
  data.UserModel.Update drv user d = (None, user', d') →
  ∃ old, data.DB.users d !! data.User.ID user = Some old
         ∧ data.users.version old = data.User.Version user
         ∧ user' = data.User.with_Version (data.users.version old + 1) user
         ∧ d' = data.DB.with_users
                  (<[data.User.ID user :=
                       {| data.users.created_at := data.users.created_at old;
                          data.users.name := data.User.Name user;
                          data.users.email := data.User.Email user;
                          data.users.password_hash :=
                            data.password.hash (data.User.Password user);
                          data.users.activated := data.User.Activated user;
                          data.users.version := data.users.version old + 1 |}]>
                     (data.DB.users d)) (data.DB.users_id_seq d) d.
Proof.
  unfold data.UserModel.Update, data.update_users.
  destruct drv as [err|].
  { destruct (String.eqb _ _); [done|]. by destruct (errors_Is err sql_ErrNoRows). }
  destruct (data.DB.users d !! data.User.ID user) as [old|]; [|done].
  destruct (Z.eqb_spec (data.users.version old) (data.User.Version user)); [|done].
  destruct (data.pg_integer_max <? data.users.version old + 1); [done|].
  destruct (data.email_in_use _ _ d); [done|].
  cbn. intros [= <- <-]. by exists old.
Qed.

Lemma UserModel_Update_failure drv user d err user' d' :
  data.UserModel.Update drv user d = (Some err, user', d') → d' = d.
Proof.
  intros Hcall.
  destruct (UserModel_Update_optimistic _ _ _ _ _ _ Hcall) as (_ & _ & Hsame & _).
  by destruct Hsame.
Qed.

Lemma activateUserInput_Decode_token tokenPlaintext r :
  names_token tokenPlaintext r →
  readJSON activateUserInput.Decode r
  = inl {| activateUserInput.TokenPlaintext := tokenPlaintext |}.
Proof. intros [offset Hbody]. unfold readJSON. by rewrite Hbody. Qed.

Lemma activateUserHandler_cases drv_token drv_update drv_delete now w r d w' d' :
  status w = None →
  activateUserHandler drv_token drv_update drv_delete now w r d = (w', d') →
  (∃ input user user' d1,
     readJSON activateUserInput.Decode r = inl input
     ∧ data.UserModel.GetForToken drv_token now data.ScopeActivation
         (activateUserInput.TokenPlaintext input) d = inl user
     ∧ data.UserModel.Update drv_update (data.User.with_Activated true user) d
       = (None, user', d1)
     ∧ ((data.TokenModel.DeleteAllForUser drv_delete data.ScopeActivation
           (data.User.ID user') d1 = (None, d')
         ∧ status w' = Some 200
         ∧ written w' = (written w ++ [{[ "user" := of_user user' ]}])%list)
        ∨ (is_Some drv_delete ∧ d' = d1 ∧ status w' = Some 500)))
  ∨ (d' = d ∧ ∃ code, status w' = Some code ∧ code ≠ 200).
Proof.
  intros Hstatus. unfold activateUserHandler.
  assert (∀ code message d0, (errorResponse w code message, d0) = (w', d') →
            status w' = Some code ∧ d' = d0) as Herror.
  { intros code message d0 [= <- <-]. split; [|done].
    by destruct (errorResponse_facts w code message Hstatus) as (-> & _). }
  destruct (readJSON activateUserInput.Decode r) as [input|err] eqn:Hread.
  2:{ intros Heq. right. apply Herror in Heq as [-> ->]. split; [done|].
      by exists 400. }
  destruct (validator.Valid _) eqn:Hvalid; cbn [negb].
  2:{ intros Heq. right. apply Herror in Heq as [-> ->]. split; [done|].
      by exists 422. }
  destruct (data.UserModel.GetForToken drv_token now data.ScopeActivation _ d)
    as [user|err] eqn:Hget.
  2:{ destruct (errors_Is err ErrRecordNotFound) eqn:Hnf; intros Heq; right;
        apply Herror in Heq as [-> ->]; (split; [done|]);
        [by exists 422 | by exists 500]. }
  destruct (data.UserModel.Update drv_update (data.User.with_Activated true user) d)
    as [[[err|] user'] d1] eqn:Hupdate.
  { apply UserModel_Update_failure in Hupdate as ->.
    destruct (errors_Is err ErrEditConflict); intros Heq; right;
      apply Herror in Heq as [-> ->]; (split; [done|]);
      [by exists 409 | by exists 500]. }
  destruct (data.TokenModel.DeleteAllForUser drv_delete data.ScopeActivation
              (data.User.ID user') d1) as [[err|] d2] eqn:Hdelete.
  - intros Heq. apply Herror in Heq as [-> ->]. left.
    exists input, user, user', d1. split; [done|]. split; [done|]. split; [done|].
    right. unfold data.TokenModel.DeleteAllForUser in Hdelete.
    destruct drv_delete as [e|]; [|done]. injection Hdelete as _ ->.
    split; [by eexists|done].
  - rewrite writeJSON_eq. intros [= <- <-]. left.
    exists input, user, user', d1. split; [done|]. split; [done|]. split; [done|].
    left. split; [done|]. unfold Write, WriteHeader. cbn. by rewrite Hstatus.
Qed.

Lemma activation_steps drv_token drv_update now plaintext d user user' d1 :
  data.UserModel.GetForToken drv_token now data.ScopeActivation plaintext d
  = inl user →
  data.UserModel.Update drv_update (data.User.with_Activated true user) d
  = (None, user', d1) →
  ∃ t row,
    activates now plaintext d t
    ∧ data.DB.users d !! data.tokens.user_id t = Some row
    ∧ data.User.ID user' = data.tokens.user_id t
    ∧ user' = data.scan_user (data.tokens.user_id t) (activated_row row)
    ∧ data.DB.users d1 = <[data.tokens.user_id t := activated_row row]> (data.DB.users d)
    ∧ data.DB.tokens d1 = data.DB.tokens d
    ∧ data.DB.movies d1 = data.DB.movies d.
Proof.
  intros Hget Hupdate.
  apply GetForToken_inl in Hget as (t & row & Hin & Hh & Hs & He & Hrow & ->).
  apply UserModel_Update_success in Hupdate as (old & Hold & Hv & -> & ->).
  cbn in Hold. rewrite Hrow in Hold. injection Hold as <-.
  exists t, row. split; [done|]. split; [done|]. done.
Qed.

End Activation_facts.

(** X12.  When [activateUserHandler] answers 200, the body named a token
    that a stored activation token makes valid at that instant; the row of
    the token's user is the old one with [activated] set and the version
    increased by one, every activation token of that user is removed, the
    movies are unchanged, and the body written is that user as stored.  With any other answer the store is unchanged, except for the
    answer 500 after the removal of the tokens has failed: the user is
    then activated and the tokens are still there. *)
Theorem activateUserHandler_activates
    (drv_token drv_update drv_delete : option error) (now : Z)
    (w : api.ResponseWriter) (r : api.Request) (d : data.DB.t)
    (w' : api.ResponseWriter) (d' : data.DB.t) :
  api.status w = None →
  api.activateUserHandler drv_token drv_update drv_delete now w r d = (w', d') →
  (api.status w' = Some 200 →
     ∃ input t row,
       api.readJSON api.activateUserInput.Decode r = inl input
       ∧ activates now (api.activateUserInput.TokenPlaintext input) d t
       ∧ data.DB.users d !! data.tokens.user_id t = Some row
       ∧ data.DB.users d'
         = <[data.tokens.user_id t := activated_row row]> (data.DB.users d)
       ∧ data.DB.tokens d' = without_activation_tokens (data.tokens.user_id t) d
       ∧ data.DB.movies d' = data.DB.movies d
       ∧ api.written w'
         = (api.written w
            ++ [{[ "user" := api.of_user
                     (data.scan_user (data.tokens.user_id t) (activated_row row)) ]}])%list)
  ∧ (api.status w' ≠ Some 200 →
     d' = d
     ∨ (api.status w' = Some 500 ∧ is_Some drv_delete
        ∧ data.DB.tokens d' = data.DB.tokens d
        ∧ ∃ id row, data.DB.users d !! id = Some row
                    ∧ data.DB.users d' = <[id := activated_row row]> (data.DB.users d))).
Proof.
  intros Hstatus Hcall.
  destruct (activateUserHandler_cases _ _ _ _ _ _ _ _ _ Hstatus Hcall)
    as [(input & user & user' & d1 & Hread & Hget & Hupdate & Hlast)
       | (-> & code & Hcode & Hne)].
  2:{ split; [rewrite Hcode; by intros [= ->] | by left]. }
  destruct (activation_steps _ _ _ _ _ _ _ _ Hget Hupdate)
    as (t & row & Hact & Hrow & Hid & Huser & Husers & Htokens & Hmovies).
  destruct Hlast as [(Hdelete & Hok & Hwritten)|(Hdrv & -> & Hfail)].
  - split; [intros _|by rewrite Hok].
    unfold data.TokenModel.DeleteAllForUser in Hdelete.
    destruct drv_delete as [e|]; [done|]. injection Hdelete as <-.
    exists input, t, row. split; [done|]. split; [done|]. split; [done|].
    cbn [data.DB.users data.DB.tokens data.DB.movies data.DB.with_tokens].
    split; [done|]. split; [by rewrite Htokens, Hid|]. split; [done|].
    by rewrite Hwritten, Huser.
  - split; [rewrite Hfail; by intros [= ?]|]. intros _. right.
    split; [done|]. split; [done|]. split; [done|]. by exists (data.tokens.user_id t), row.
Qed.

Lemma activateUserHandler_activates_witness :
  ∃ w' d',
    api.activateUserHandler None None None 1000 api.fresh (activate_with bob_token)
      store_with_bob = (w', d')
    ∧ api.status w' = Some 200
    ∧ data.users.activated <$> data.DB.users d' !! 2 = Some true
    ∧ data.users.version <$> data.DB.users d' !! 2 = Some 2
    ∧ length (data.DB.tokens d') = 1%nat.
Proof.
  destruct (api.activateUserHandler None None None 1000 api.fresh
              (activate_with bob_token) store_with_bob) as [w' d'] eqn:Hcall.
  assert (api.status w' = Some 200) as Hok.
  { vm_compute in Hcall. injection Hcall as <- _. reflexivity. }
  destruct (activateUserHandler_activates None None None 1000 api.fresh
              (activate_with bob_token) store_with_bob w' d' eq_refl Hcall)
    as [Hdone _].
  destruct (Hdone Hok) as (input & t & row & Hread & Hact & Hrow & Husers & Htokens & _).
  injection Hread as <-.
  assert (data.tokens.user_id t = 2) as Hid.
  { destruct Hact as (Hin & Hhash & _).
    apply elem_of_cons in Hin as [->|Hin]; [by vm_compute in Hhash|].
    by apply list_elem_of_singleton in Hin as ->. }
  rewrite Hid in Hrow, Husers, Htokens. injection Hrow as <-.
  exists w', d'. split; [reflexivity|]. split; [exact Hok|]. rewrite Husers, Htokens.
  rewrite !lookup_insert_eq. split; [reflexivity|]. split; [reflexivity|].
  by vm_compute.
Defined.

(** X13.  An activation token works once.  After [activateUserHandler] has
    answered 200, and when the hash of a token is stored for one user only,
    the same request sent again, at any instant, is answered 422 with the
    message invalid or expired activation token under the key token, and
    changes nothing. *)
Theorem activation_token_is_used_once
    (drv_token drv_update drv_delete : option error) (now : Z)
    (w : api.ResponseWriter) (r : api.Request) (d : data.DB.t)
    (w' : api.ResponseWriter) (d' : data.DB.t) :
  api.status w = None →
  api.activateUserHandler drv_token drv_update drv_delete now w r d = (w', d') →
  api.status w' = Some 200 →
  hash_names_owner d →
  ∀ (drv_update2 drv_delete2 : option error) (now2 : Z) (w2 : api.ResponseWriter),
    api.status w2 = None →
    ∃ w2',
      api.activateUserHandler None drv_update2 drv_delete2 now2 w2 r d' = (w2', d')
      ∧ api.status w2' = Some 422
      ∧ api.written w2'
        = (api.written w2
           ++ [{[ "error" :=
                    api.of_errors
                      {[ "token" := "invalid or expired activation token" ]} ]}])%list.
Proof.
  intros Hstatus Hcall Hok Howner drv_update2 drv_delete2 now2 w2 Hstatus2.
  destruct (activateUserHandler_cases _ _ _ _ _ _ _ _ _ Hstatus Hcall)
    as [(input & user & user' & d1 & Hread & Hget & Hupdate & Hlast)
       | (-> & code & Hcode & Hne)].
  2:{ rewrite Hcode in Hok. by injection Hok as ->. }
  destruct Hlast as [(Hdelete & _ & _)|(_ & _ & Hfail)];
    [|rewrite Hfail in Hok; done].
  destruct (activation_steps _ _ _ _ _ _ _ _ Hget Hupdate)
    as (t & row & (Hin & Hhash & Hscope & Hexpiry) & Hrow & Hid & Huser & Husers
        & Htokens & Hmovies).
  unfold data.TokenModel.DeleteAllForUser in Hdelete.
  destruct drv_delete as [e|]; [done|]. injection Hdelete as <-.
  assert (validator.Valid
            (data.ValidateTokenPlaintext validator.New
               (api.activateUserInput.TokenPlaintext input)) = true) as Hvalid.
  { unfold api.activateUserHandler in Hcall. rewrite Hread in Hcall.
    destruct (validator.Valid _) eqn:Hv; [done|]. cbn [negb] in Hcall.
    injection Hcall as <- _. unfold api.failedValidationResponse in Hok.
    by destruct (errorResponse_facts w http.StatusUnprocessableEntity
                   (api.of_errors
                      (validator.Errors
                         (data.ValidateTokenPlaintext validator.New
                            (api.activateUserInput.TokenPlaintext input))))
                   Hstatus) as (Hs & _); rewrite Hs in Hok. }
  eexists. unfold api.activateUserHandler. rewrite Hread, Hvalid. cbn [negb].
  unfold data.UserModel.GetForToken.
  cbn [data.DB.tokens data.DB.users data.DB.with_tokens].
  rewrite select_user_for_token_none.
  2:{ intros t' [Hkeep Hin']%list_elem_of_filter (Hh & Hs & _).
      apply Hkeep. split; [done|]. rewrite Hid. rewrite Htokens in Hin'.
      apply Howner; [done..|]. by rewrite Hh, Hhash. }
  change (errors_Is sql_ErrNoRows sql_ErrNoRows) with true. cbn match.
  change (errors_Is ErrRecordNotFound ErrRecordNotFound) with true. cbn match.
  split; [reflexivity|]. apply Valid_empty in Hvalid.
  unfold api.failedValidationResponse.
  destruct (errorResponse_facts w2 http.StatusUnprocessableEntity
              (api.of_errors
                 (validator.Errors
                    (validator.AddError "token" "invalid or expired activation token"
                       (data.ValidateTokenPlaintext validator.New
                          (api.activateUserInput.TokenPlaintext input)))))
              Hstatus2) as (Hs & Hw & _).
  split; [exact Hs|]. rewrite Hw. unfold validator.AddError.
  rewrite Hvalid, lookup_empty. cbn. by rewrite insert_empty.
Qed.

Lemma activation_token_is_used_once_witness :
  ∃ w2',
    api.activateUserHandler None None None 1001 api.fresh (activate_with bob_token)
      (snd (api.activateUserHandler None None None 1000 api.fresh
              (activate_with bob_token) store_with_bob))
    = (w2', snd (api.activateUserHandler None None None 1000 api.fresh
                   (activate_with bob_token) store_with_bob))
    ∧ api.status w2' = Some 422.
Proof.
  destruct (api.activateUserHandler None None None 1000 api.fresh
              (activate_with bob_token) store_with_bob) as [w' d'] eqn:Hcall.
  assert (api.status w' = Some 200) as Hok.
  { vm_compute in Hcall. injection Hcall as <- _. reflexivity. }
  assert (hash_names_owner store_with_bob) as Howner.
  { intros t1 t2 Hin1 Hin2 Hhash.
    apply elem_of_cons in Hin1 as [->|Hin1%list_elem_of_singleton],
        Hin2 as [->|Hin2%list_elem_of_singleton]; subst;
      [reflexivity
      |exfalso; vm_compute in Hhash; congruence
      |exfalso; vm_compute in Hhash; congruence
      |reflexivity]. }
  destruct (activation_token_is_used_once None None None 1000 api.fresh
              (activate_with bob_token) store_with_bob w' d' eq_refl Hcall Hok Howner
              None None 1001 api.fresh eq_refl) as (w2' & Hsecond & Hstatus & _).
  exists w2'. split; [exact Hsecond | exact Hstatus].
Defined.

(** ** The guards of the routes *)

Section Guards_facts.
Import api.

Lemma Include_elem_of (p : data.Permissions.t) (code : string) :
  data.Permissions.Include p code = true ↔ code ∈ p.
Proof.
  induction p as [|x p IH]; cbn.
  - split; [done|]. by intros ?%elem_of_nil.
  - rewrite elem_of_cons. destruct (String.eqb_spec code x) as [->|Hne].
    + split; [by left|done].
    + rewrite IH. split; [by right|]. by intros [?|?].
Qed.

Lemma GetAllForUser_refused drv userID d :
  data.PermissionModel.GetAllForUser drv userID d
  = inr (default data.PermissionModel.missing_FROM_clause_entry drv).
Proof. unfold data.PermissionModel.GetAllForUser. by destruct drv. Qed.

Lemma GetAllForUser_rows_codes codes permissions :
  data.PermissionModel.GetAllForUser_rows (map inl codes) permissions
  = inl (permissions ++ codes)%list.
Proof.
  revert permissions. induction codes as [|c codes IH]; intros permissions; cbn.
  - by rewrite app_nil_r.
  - by rewrite IH, <- app_assoc.
Qed.

Lemma GetAllForUser_rows_error codes err rest permissions :
  data.PermissionModel.GetAllForUser_rows (map inl codes ++ inr err :: rest)
    permissions
  = inr err.
Proof.
  revert permissions. induction codes as [|c codes IH]; intros permissions; cbn;
    [done | apply IH].
Qed.

Lemma requirePermission_cases drv code next w r d :
  requirePermission drv code next w r d =
  match context_user r with
  | None => Panic "missing user value in request context"
  | Some data.AnonymousUser => Returned (authenticationRequiredResponse w, d)
  | Some (data.loaded u) =>
      if data.User.Activated u then
        requirePermission_decides
          (data.PermissionModel.GetAllForUser drv (data.User.ID u) d)
          code next w r d
      else Returned (inactiveAccountResponse w, d)
  end.
Proof.
  unfold requirePermission, requireActivatedUser, requireAuthenticatedUser,
    contextGetUser.
  destruct (context_user r) as [[|u]|]; [done| |done]. cbn.
  by destruct (data.User.Activated u).
Qed.

End Guards_facts.

(** X14.  A route wrapped in [requirePermission] never reaches its handler,
    and never changes the store.  With the anonymous user in the context
    the answer is 401; with a user whose account is not activated it is
    403; and with an activated user it is 500, whatever the permission
    code and whatever permissions are stored, because the statement of
    [GetAllForUser] names a table that its FROM clause does not have and
    the lookup fails for every user.  Each answer carries the message of
    its error.  The guard panics when the context holds no user, and only
    then.  What the guard does with a result of the lookup is this: with
    permissions that [Include] the code it runs the handler on the
    response and request as they are, with permissions that do not it
    answers 403, and with an error 500; [Include] answers true exactly for
    a code of the slice; and the loop of [GetAllForUser] returns the codes
    of the rows in their order, or the error of the first row that fails
    to scan. *)
Theorem requirePermission_guards_the_route
    (drv : option error) (code : string) (next : api.HandlerFunc)
    (w : api.ResponseWriter) (r : api.Request) (d : data.DB.t) :
  api.status w = None →
  let answer (status : Z) (message : string) (w' : api.ResponseWriter) :=
    api.status w' = Some status
    ∧ api.written w'
      = (api.written w ++ [{[ "error" := api.of_text message ]}])%list in
  let answers (status : Z) (message : string) :=
    ∃ w', (∀ next', api.requirePermission drv code next' w r d = Returned (w', d))
          ∧ answer status message w' in
  (api.context_user r = None ↔
   api.requirePermission drv code next w r d
   = Panic "missing user value in request context")
  ∧ (∀ message, api.requirePermission drv code next w r d = Panic message →
                api.context_user r = None)
  ∧ (api.context_user r = Some data.AnonymousUser →
     answers 401 "you must be authenticated to access this resource")
  ∧ (∀ u, api.context_user r = Some (data.loaded u) →
          data.User.Activated u = false →
          answers 403 "your user account must be activated to access this resource")
  ∧ (∀ u, api.context_user r = Some (data.loaded u) →
          data.User.Activated u = true →
          answers 500
            "the server encountered a problem and could not process your request")
  ∧ (∀ userID, ∃ err,
       data.PermissionModel.GetAllForUser drv userID d = inr err)
  ∧ (∀ next', api.requirePermission drv code next' w r d
              = api.requirePermission drv code next w r d)
  ∧ (∀ permissions : data.Permissions.t,
       (data.Permissions.Include permissions code = true ↔ code ∈ permissions)
       ∧ (code ∈ permissions →
          api.requirePermission_decides (inl permissions) code next w r d
          = next w r d)
       ∧ (code ∉ permissions →
          ∃ w', api.requirePermission_decides (inl permissions) code next w r d
                = Returned (w', d)
                ∧ answer 403
                    "your user account doesn't have the necessary permissions to accesss this resource"
                    w'))
  ∧ (∀ err, ∃ w', api.requirePermission_decides (inr err) code next w r d
                  = Returned (w', d)
                  ∧ answer 500
                      "the server encountered a problem and could not process your request"
                      w')
  ∧ (∀ codes,
       data.PermissionModel.GetAllForUser_rows (map inl codes) [] = inl codes
       ∧ ∀ err rest,
           data.PermissionModel.GetAllForUser_rows
             (map inl codes ++ inr err :: rest) []
           = inr err).
Proof.
  intros Hstatus answer answers.
  assert (∀ status message,
            answer status message
              (api.errorResponse w status (api.of_text message))) as Hanswer.
  { intros status message.
    destruct (errorResponse_facts w status (api.of_text message) Hstatus)
      as (Hs & Hw & _).
    by split. }
  assert (∀ status message,
            (∀ next', api.requirePermission drv code next' w r d
                      = Returned (api.errorResponse w status (api.of_text message), d)) →
            answers status message) as Hanswers.
  { intros status message Hcall. eexists. split; [exact Hcall|apply Hanswer]. }
  assert (∀ next', api.requirePermission drv code next' w r d
                   = api.requirePermission drv code next w r d) as Hsame.
  { intros next'. rewrite !requirePermission_cases.
    destruct (api.context_user r) as [[|u]|]; [done| |done].
    destruct (data.User.Activated u); [|done].
    by rewrite GetAllForUser_refused. }
  split; [|split; [|split; [|split; [|split; [|split; [|split; [|split;
    [|split]]]]]]]].
  - rewrite requirePermission_cases. split; [by intros ->|].
    destruct (api.context_user r) as [[|u]|]; [done| |done].
    destruct (data.User.Activated u); [|done].
    by rewrite GetAllForUser_refused.
  - intros message. rewrite requirePermission_cases.
    destruct (api.context_user r) as [[|u]|]; [done| |done].
    destruct (data.User.Activated u); [|done].
    by rewrite GetAllForUser_refused.
  - intros Hp. apply Hanswers. intros next'.
    by rewrite requirePermission_cases, Hp.
  - intros u Hp Hact. apply Hanswers. intros next'.
    by rewrite requirePermission_cases, Hp, Hact.
  - intros u Hp Hact. apply Hanswers. intros next'.
    by rewrite requirePermission_cases, Hp, Hact, GetAllForUser_refused.
  - intros userID. eexists. apply GetAllForUser_refused.
  - exact Hsame.
  - intros permissions. split; [apply Include_elem_of|].
    unfold api.requirePermission_decides. split.
    + intros Hin%Include_elem_of. by rewrite Hin.
    + intros Hout. destruct (data.Permissions.Include permissions code) eqn:Hinc.
      { by apply Include_elem_of in Hinc. }
      eexists. split; [reflexivity|apply Hanswer].
  - intros err. eexists. split; [reflexivity|apply Hanswer].
  - intros codes. split.
    + apply (GetAllForUser_rows_codes codes []).
    + intros err rest. apply GetAllForUser_rows_error.
Qed.

Lemma requirePermission_guards_the_route_witness :
  ∃ w', api.requirePermission None "movies:read" no_content api.fresh
          (api.contextSetUser patch_year (data.loaded (data.scan_user 1 ann))) store
        = Returned (w', store)
        ∧ api.status w' = Some 500.
Proof.
  pose proof (requirePermission_guards_the_route None "movies:read" no_content
                api.fresh
                (api.contextSetUser patch_year (data.loaded (data.scan_user 1 ann)))
                store eq_refl) as (_ & _ & _ & _ & Hactivated & _).
  destruct (Hactivated (data.scan_user 1 ann) eq_refl eq_refl)
    as (w' & Hcall & Hcode & _).
  exists w'. split; [apply Hcall | exact Hcode].
Defined.

(** ** Registration *)

Section Registration_facts.
Import api.

Lemma UserModel_Insert_success drv now user d user' d' :
  data.UserModel.Insert drv now user d = (None, user', d') →
  drv = None
  ∧ data.DB.users d !! data.DB.users_id_seq d = None
  ∧ data.email_in_use (data.User.Email user) None d = false
  ∧ user' = data.User.with_row (data.DB.users_id_seq d) now 1 user
  ∧ d' = data.DB.with_users
           (<[data.DB.users_id_seq d :=
                {| data.users.created_at := now;
                   data.users.name := data.User.Name user;
                   data.users.email := data.User.Email user;
                   data.users.password_hash :=
                     data.password.hash (data.User.Password user);
                   data.users.activated := data.User.Activated user;
                   data.users.version := 1 |}]> (data.DB.users d))
           (data.DB.users_id_seq d + 1) d.
Proof.
  unfold data.UserModel.Insert, data.insert_users. destruct drv as [err|].
  { by destruct (String.eqb _ _). }
  destruct (data.DB.users d !! data.DB.users_id_seq d) eqn:Hrow.
  { by destruct (String.eqb _ _). }
  destruct (data.email_in_use _ _ d) eqn:Hemail.
  { by destruct (String.eqb _ _). }
  by intros [= <- <-].
Qed.

Lemma ValidateUser_registering input hash :
  ∃ v, data.ValidateUser validator.New (registering input hash) = Returned v.
Proof. unfold data.ValidateUser, registering. cbn. by eexists. Qed.

Lemma registerUserHandler_outcomes generate drv_insert drv_permission drv_token
    now random w r d :
  ∃ w' d' tasks,
    registerUserHandler generate drv_insert drv_permission drv_token now random w r d
    = Returned (w', d', tasks)
    ∧ ((∃ input hash user token d1 d2,
          readJSON registerUserInput.Decode r = inl input
          ∧ generate (bytes_of_string (registerUserInput.Password input)) 12 = inl hash
          ∧ data.UserModel.Insert drv_insert now (registering input hash) d
            = (None, user, d1)
          ∧ data.PermissionModel.AddForUser drv_permission (data.User.ID user)
              ["movies:read"] d1 = (None, d2)
          ∧ data.TokenModel.New drv_token now random (data.User.ID user)
              (3 * 24 * 3600000000000) data.ScopeActivation d2
            = (Some token, None, d')
          ∧ tasks = [{| recipient := data.User.Email user;
                        templateFile := "user_welcome.tmpl";
                        activationToken := data.Token.Plaintext token;
                        userID := data.User.ID user |}]
          ∧ w' = fst (writeJSON w http.StatusAccepted
                        {[ "user" := of_user user ]} ∅))
       ∨ (tasks = [] ∧ ∃ code message, w' = errorResponse w code message
                                        ∧ code ≠ 202)).
Proof.
  unfold registerUserHandler.
  destruct (readJSON registerUserInput.Decode r) as [input|err] eqn:Hread.
  2:{ do 3 eexists. split; [reflexivity|]. right. split; [done|].
      by exists 400, (of_text (Error err)). }
  unfold data.password_Set.
  destruct (generate (bytes_of_string (registerUserInput.Password input)) 12)
    as [hash|err] eqn:Hhash.
  2:{ do 3 eexists. split; [reflexivity|]. right. split; [done|].
      by eexists 500, _. }
  change (data.User.with_Password _ _) with (registering input hash).
  destruct (ValidateUser_registering input hash) as [v Hv]. rewrite Hv.
  destruct (validator.Valid v) eqn:Hvalid; cbn [negb].
  2:{ do 3 eexists. split; [reflexivity|]. right. split; [done|].
      by eexists 422, _. }
  destruct (data.UserModel.Insert drv_insert now (registering input hash) d)
    as [[[err|] user] d1] eqn:Hinsert.
  { destruct (errors_Is err ErrDuplicateEmail);
      do 3 eexists; (split; [reflexivity|]); right; (split; [done|]);
      [by eexists 422, _ | by eexists 500, _]. }
  destruct (data.PermissionModel.AddForUser drv_permission (data.User.ID user)
              ["movies:read"] d1) as [[err|] d2] eqn:Hperm.
  { do 3 eexists. split; [reflexivity|]. right. split; [done|]. by eexists 500, _. }
  destruct (data.TokenModel.New drv_token now random (data.User.ID user)
              (3 * 24 * 3600000000000) data.ScopeActivation d2)
    as [[token err] d3] eqn:Hnew.
  destruct (TokenModel_New_cases _ _ _ _ _ _ _ _ _ _ Hnew)
    as [(t & -> & -> & _ & _ & _)|(Herr & _)].
  - rewrite writeJSON_eq. do 3 eexists. split; [reflexivity|]. left.
    exists input, hash, user, t, d1, d2. by rewrite writeJSON_eq.
  - destruct err as [err|]; [|done].
    destruct token; do 3 eexists; (split; [reflexivity|]); right; (split; [done|]);
      by eexists 500, _.
Qed.

End Registration_facts.

(** X15.  [registerUserHandler] returns for every request, whatever the
    driver and the random source do; it starts at most one welcome mail,
    and, on a response without a status yet, it starts one exactly when it
    answers 202. *)
Theorem registerUserHandler_mails_on_202
    (generate : data.bcrypt_GenerateFromPassword)
    (drv_insert drv_permission drv_token : option error)
    (now : Z) (random : rand.source)
    (w : api.ResponseWriter) (r : api.Request) (d : data.DB.t) :
  ∃ w' d' tasks,
    api.registerUserHandler generate drv_insert drv_permission drv_token
      now random w r d = Returned (w', d', tasks)
    ∧ (length tasks ≤ 1)%nat
    ∧ (api.status w = None → (api.status w' = Some 202 ↔ tasks ≠ [])).
Proof.
  destruct (registerUserHandler_outcomes generate drv_insert drv_permission
              drv_token now random w r d) as (w' & d' & tasks & Hcall & Hcases).
  exists w', d', tasks. split; [done|].
  destruct Hcases as [(input & hash & user & token & d1 & d2 & _ & _ & _ & _ & _
                        & -> & ->)
                     | (-> & code & message & -> & Hcode)].
  - split; [cbn; lia|]. intros Hstatus. rewrite writeJSON_eq.
    unfold api.Write, api.WriteHeader. cbn. rewrite Hstatus. cbn. done.
  - split; [cbn; lia|]. intros Hstatus.
    destruct (errorResponse_facts w code message Hstatus) as (-> & _).
    split; [by intros [= ->]|done].
Qed.

Section Registration_activation_facts.
Import api.

Lemma email_in_use_false email self d :
  data.email_in_use email self d = false ↔
  ∀ id row, data.DB.users d !! id = Some row → self ≠ Some id →
            data.fold_case (data.users.email row) ≠ data.fold_case email.
Proof.
  unfold data.email_in_use. split.
  - intros Hnone id row Hrow Hself Hemail.
    apply not_true_iff_false in Hnone. apply Hnone, existsb_exists.
    exists (id, row). split.
    + apply list_elem_of_In. by apply elem_of_map_to_list.
    + cbn. rewrite bool_decide_eq_false_2 by done. cbn.
      by apply String.eqb_eq.
  - intros Hall. apply not_true_iff_false.
    intros ([id row] & Hin%list_elem_of_In%elem_of_map_to_list & Hf)%existsb_exists.
    cbn in Hf. apply andb_true_iff in Hf as [Hself%negb_true_iff Hemail%String.eqb_eq].
    apply bool_decide_eq_false in Hself. by apply (Hall id row).
Qed.

Lemma AddForUser_success drv userID codes d d' :
  data.PermissionModel.AddForUser drv userID codes d = (None, d') →
  data.DB.users d' = data.DB.users d ∧ data.DB.tokens d' = data.DB.tokens d
  ∧ data.DB.movies d' = data.DB.movies d.
Proof.
  unfold data.PermissionModel.AddForUser. destruct drv; [done|].
  by intros [= <-].
Qed.

Lemma activation_after_registration now2 w2 r2 d plaintext trow row ts id expiry :
  status w2 = None →
  names_token plaintext r2 →
  String.length plaintext = 26%nat →
  data.DB.tokens d = (ts ++ [trow])%list →
  data.tokens.hash trow = sha256.Sum256 (bytes_of_string plaintext) →
  data.tokens.scope trow = data.ScopeActivation →
  data.tokens.user_id trow = id →
  data.tokens.expiry trow = expiry →
  (∀ t, t ∈ ts → data.tokens.hash t ≠ data.tokens.hash trow) →
  data.DB.users d !! id = Some row →
  data.users.version row = 1 →
  data.email_in_use (data.users.email row) (Some id) d = false →
  (now2 < expiry →
     ∃ w2' d2,
       activateUserHandler None None None now2 w2 r2 d = (w2', d2)
       ∧ status w2' = Some 200
       ∧ data.DB.users d2 !! id = Some (activated_row row))
  ∧ (expiry ≤ now2 →
     ∃ w2', activateUserHandler None None None now2 w2 r2 d = (w2', d)
            ∧ status w2' = Some 422).
Proof.
  intros Hstatus Hbody Hlen Htokens Hhash Hscope <- <- Hfresh Hrow Hversion Hemail.
  assert (validator.Valid (data.ValidateTokenPlaintext validator.New plaintext) = true)
    as Hvalid.
  { rewrite ValidateTokenPlaintext_valid, Hlen.
    destruct plaintext; [discriminate Hlen | reflexivity]. }
  assert (∀ scope,
            data.UserModel.GetForToken None now2 scope plaintext d
            = if bool_decide (scope = data.tokens.scope trow)
                 && (now2 <? data.tokens.expiry trow)
              then inl (data.scan_user (data.tokens.user_id trow) row)
              else inr ErrRecordNotFound) as Hget.
  { intros scope.
    apply (GetForToken_appended
             (data.DB.with_tokens ts d) d trow plaintext row now2 scope);
      done. }
  unfold activateUserHandler.
  rewrite (activateUserInput_Decode_token plaintext r2 Hbody).
  cbn [activateUserInput.TokenPlaintext]. rewrite Hvalid. cbn [negb].
  rewrite Hget, Hscope, bool_decide_eq_true_2 by done. cbn [andb].
  split.
  - intros Hnow. destruct (Z.ltb_spec now2 (data.tokens.expiry trow)); [|lia].
    unfold data.UserModel.Update, data.update_users.
    cbn [data.User.ID data.User.Version data.User.Name data.User.Email
         data.User.Password data.User.Activated data.User.with_Activated
         data.scan_user data.password.hash].
    rewrite Hrow, Hversion. cbn [Z.eqb Pos.eqb].
    change (data.pg_integer_max <? 1 + 1) with false. cbn match.
    rewrite Hemail.
    change (data.User.Version
              (data.User.with_Version _ _)) with (1 + 1).
    unfold data.TokenModel.DeleteAllForUser. rewrite writeJSON_eq.
    do 2 eexists. split; [reflexivity|]. split.
    + unfold Write, WriteHeader. cbn. by rewrite Hstatus.
    + cbn [data.DB.users data.DB.with_tokens data.DB.with_users].
      rewrite lookup_insert_eq. f_equal. unfold activated_row. by rewrite Hversion.
  - intros Hnow. destruct (Z.ltb_spec now2 (data.tokens.expiry trow)); [lia|].
    change (errors_Is ErrRecordNotFound ErrRecordNotFound) with true. cbn match.
    eexists. split; [reflexivity|]. unfold failedValidationResponse.
    by destruct (errorResponse_facts w2 http.StatusUnprocessableEntity
                   (of_errors
                      (validator.Errors
                         (validator.AddError "token" "invalid or expired activation token"
                            (data.ValidateTokenPlaintext validator.New plaintext))))
                   Hstatus) as (-> & _).
Qed.

End Registration_activation_facts.

(** X16.  When [registerUserHandler] answers 202, it has started one
    welcome mail, addressed to the email of a new user row that is not
    activated and has version 1, and carrying a token of 26 bytes.  When
    no older token has the hash of that token, [activateUserHandler] with
    that token answers 200 and activates that user at every instant
    before three days after the registration, and answers 422 and changes
    nothing from then on. *)
Theorem registration_token_activates
    (generate : data.bcrypt_GenerateFromPassword)
    (drv_insert drv_permission drv_token : option error)
    (now : Z) (random : rand.source)
    (w : api.ResponseWriter) (r : api.Request) (d : data.DB.t)
    (w1 : api.ResponseWriter) (d1 : data.DB.t) (tasks : list api.welcome) :
  api.status w = None →
  api.registerUserHandler generate drv_insert drv_permission drv_token
    now random w r d = Returned (w1, d1, tasks) →
  api.status w1 = Some 202 →
  ∃ task row,
    tasks = [task]
    ∧ String.length (api.activationToken task) = 26%nat
    ∧ data.DB.users d !! api.userID task = None
    ∧ data.DB.users d1 !! api.userID task = Some row
    ∧ data.users.activated row = false
    ∧ data.users.version row = 1
    ∧ data.users.email row = api.recipient task
    ∧ ((∀ t, t ∈ data.DB.tokens d →
             data.tokens.hash t
             ≠ sha256.Sum256 (bytes_of_string (api.activationToken task))) →
       ∀ now2 w2 r2,
         api.status w2 = None →
         names_token (api.activationToken task) r2 →
         (now2 < now + 259200000000000 →
            ∃ w2' d2,
              api.activateUserHandler None None None now2 w2 r2 d1 = (w2', d2)
              ∧ api.status w2' = Some 200
              ∧ data.DB.users d2 !! api.userID task = Some (activated_row row))
         ∧ (now + 259200000000000 ≤ now2 →
            ∃ w2',
              api.activateUserHandler None None None now2 w2 r2 d1 = (w2', d1)
              ∧ api.status w2' = Some 422)).
Proof.
  intros Hstatus Hcall Haccepted.
  destruct (registerUserHandler_outcomes generate drv_insert drv_permission
              drv_token now random w r d) as (w' & d' & tasks' & Hcall' & Hcases).
  rewrite Hcall in Hcall'. injection Hcall' as <- <- <-.
  destruct Hcases as [(input & hash & user & token & da & db & Hread & Hhash
                        & Hinsert & Hperm & Hnew & -> & _)
                     | (_ & code & message & -> & Hcode)].
  2:{ destruct (errorResponse_facts w code message Hstatus) as (Hs & _).
      rewrite Hs in Haccepted. by injection Haccepted as ->. }
  apply UserModel_Insert_success in Hinsert as (_ & Hnew_id & Hemail & -> & ->).
  apply AddForUser_success in Hperm as (Husers & Htokens & _).
  destruct (TokenModel_New_cases _ _ _ _ _ _ _ _ _ _ Hnew)
    as [(t & [= <-] & _ & _ & Hgen & ->)|(Herr & _)]; [|done].
  destruct (generateToken_inl _ _ _ _ _ _ Hgen)
    as (Htoken_hash & Htoken_user & Htoken_expiry & Htoken_scope & Hplaintext).
  assert (String.length (data.Token.Plaintext token) = 26%nat) as Hlen.
  { rewrite Hplaintext. destruct random as [err|bytes].
    - by unfold data.generateToken in Hgen.
    - by rewrite EncodeToString_length, length_map, length_seq. }
  cbn [data.User.ID data.User.with_row] in *.
  cbn [data.DB.users data.DB.tokens data.DB.with_users] in Husers, Htokens.
  eexists _, _. split; [reflexivity|].
  cbn [api.activationToken api.userID api.recipient data.User.Email
       data.User.with_row registering].
  split; [exact Hlen|]. split; [exact Hnew_id|].
  cbn [data.DB.users data.DB.with_tokens]. rewrite Husers, lookup_insert_eq.
  split; [reflexivity|]. split; [reflexivity|]. split; [reflexivity|].
  split; [reflexivity|].
  intros Hfresh now2 w2 r2 Hstatus2 Hbody.
  change (now + 259200000000000) with (now + 3 * 24 * 3600000000000).
  apply (activation_after_registration now2 w2 r2 _
           (data.Token.Plaintext token)
           {| data.tokens.hash := data.Token.Hash token;
              data.tokens.user_id := data.Token.UserID token;
              data.tokens.expiry := data.Token.Expiry token;
              data.tokens.scope := data.Token.Scope token |} _ (data.DB.tokens d));
    cbn [data.tokens.hash data.tokens.user_id data.tokens.expiry data.tokens.scope
         data.DB.users data.DB.tokens data.DB.with_tokens data.users.version
         data.users.email]; try assumption.
  - by rewrite Htokens.
  - intros t Hin. rewrite Htoken_hash. by apply Hfresh.
  - by rewrite Husers, lookup_insert_eq.
  - reflexivity.
  - apply email_in_use_false. intros id row Hrow Hself.
    cbn [data.DB.users data.DB.with_tokens] in Hrow. rewrite Husers in Hrow.
    rewrite lookup_insert_ne in Hrow by congruence.
    by apply (proj1 (email_in_use_false _ None d) Hemail id row).
Qed.

Lemma registration_token_activates_witness :
  ∃ w1 d1 task,
    api.registerUserHandler constant_hash None None None 1700000001 other_source
      api.fresh register_cy store = Returned (w1, d1, [task])
    ∧ ∃ w2' d2,
        api.activateUserHandler None None None 1700000002 api.fresh
          (activate_with (api.activationToken task)) d1 = (w2', d2)
        ∧ api.status w2' = Some 200
        ∧ data.users.activated <$> data.DB.users d2 !! api.userID task = Some true.
Proof.
  destruct (api.registerUserHandler constant_hash None None None 1700000001
              other_source api.fresh register_cy store)
    as [[[w1 d1] tasks]|message] eqn:Hcall;
    [|vm_compute in Hcall; discriminate Hcall].
  pose proof Hcall as Hvalue. vm_compute in Hvalue.
  injection Hvalue as Hw1 Hd1 Htasks.
  assert (api.status w1 = Some 202) as Haccepted by (by rewrite <- Hw1).
  destruct (registration_token_activates constant_hash None None None 1700000001
              other_source api.fresh register_cy store w1 d1 tasks eq_refl Hcall
              Haccepted)
    as (task & row & Hone & _ & _ & _ & _ & _ & _ & Hactivate).
  rewrite Hone in Htasks. injection Htasks as Htask.
  exists w1, d1, task. split; [by rewrite Hone|].
  destruct (Hactivate
              ltac:(intros t Hin%list_elem_of_singleton; subst t; rewrite <- Htask;
                    vm_compute; congruence)
              1700000002 api.fresh (activate_with (api.activationToken task))
              eq_refl ltac:(by exists 38)) as [Hfresh _].
  destruct (Hfresh ltac:(lia)) as (w2' & d2 & Hcall2 & Hok & Hrow).
  exists w2', d2. split; [exact Hcall2|]. split; [exact Hok|].
  by rewrite Hrow.
Defined.

(** ** Listing movies *)

Section Listing_facts.
Import api.

Lemma Check_keeps ok key message v k m :
  validator.Errors v !! k = Some m →
  validator.Errors (validator.Check ok key message v) !! k = Some m.
Proof.
  intros Hk. destruct ok; cbn; [done|]. by rewrite AddError_lookup, Hk.
Qed.

Lemma ValidateFilters_keeps v f k m :
  validator.Errors v !! k = Some m →
  validator.Errors (data.ValidateFilters v f) !! k = Some m.
Proof. intros Hk. unfold data.ValidateFilters. by repeat apply Check_keeps. Qed.

Lemma ValidateFilters_valid_from v f :
  validator.Valid (data.ValidateFilters v f) =
  validator.Valid v && validator.Valid (data.ValidateFilters validator.New f).
Proof.
  rewrite ValidateFilters_valid. unfold data.ValidateFilters.
  rewrite !Valid_Check. by rewrite !andb_assoc.
Qed.

Lemma readInt_value qs key defaultValue v :
  fst (readInt qs key defaultValue v) = fst (readInt qs key defaultValue validator.New).
Proof.
  unfold readInt. destruct (String.eqb _ ""); [done|].
  by destruct (strconv.Atoi _).
Qed.

Lemma readInt_not_an_integer qs key defaultValue v :
  not_an_integer key qs →
  validator.Errors (snd (readInt qs key defaultValue v)) !! key
  = Some (default "must be an integer value" (validator.Errors v !! key)).
Proof.
  intros [Hne Hnone]. unfold readInt. apply String.eqb_neq in Hne.
  rewrite Hne, Hnone. cbn. rewrite AddError_lookup, String.eqb_refl.
  by destruct (validator.Errors v !! key).
Qed.

Lemma readInt_keeps qs key defaultValue v k m :
  validator.Errors v !! k = Some m →
  validator.Errors (snd (readInt qs key defaultValue v)) !! k = Some m.
Proof.
  intros Hk. unfold readInt. destruct (String.eqb _ ""); [done|].
  destruct (strconv.Atoi _); [done|]. cbn. by rewrite AddError_lookup, Hk.
Qed.

Lemma readInt_valid qs key defaultValue v :
  validator.Valid (snd (readInt qs key defaultValue v)) = true →
  validator.Valid v = true ∧ ¬ not_an_integer key qs.
Proof.
  unfold readInt, not_an_integer.
  destruct (String.eqb_spec (url.Get key qs) "") as [Hempty|Hne].
  { intros Hv. split; [done|]. by intros [? _]. }
  destruct (strconv.Atoi _) as [i|] eqn:Hatoi.
  { intros Hv. split; [done|]. by intros [_ ?]. }
  cbn. intros Hvalid%Valid_empty. exfalso.
  assert (validator.Errors
            (validator.AddError key "must be an integer value" v) !! key ≠ None)
    as Hkey.
  { rewrite AddError_lookup, String.eqb_refl.
    by destruct (validator.Errors v !! key). }
  by rewrite Hvalid, lookup_empty in Hkey.
Qed.

Lemma GetAll_rows_all rows count totalRecords movies :
  (∀ row, row ∈ rows → row.1 = count) →
  data.GetAll_rows (map inl rows) totalRecords movies
  = inl (match rows with [] => totalRecords | _ => count end,
         (movies ++ rows.*2)%list).
Proof.
  revert totalRecords movies.
  induction rows as [|[c movie] rows IH]; intros totalRecords movies Hcount.
  - cbn. by rewrite app_nil_r.
  - cbn [map data.GetAll_rows]. rewrite IH.
    + pose proof (Hcount (c, movie) ltac:(by left)) as Hc. cbn in Hc. subst c.
      cbn. rewrite <- app_assoc. by destruct rows.
    + intros row Hin. apply Hcount. by right.
Qed.

Lemma GetAll_query_Returned f :
  validator.In (data.Sort f) (data.SortSafelist f) = true →
  ∃ query, data.GetAll_query f = Returned query.
Proof.
  intros Hin. unfold data.GetAll_query, data.sortColumn.
  rewrite sortColumn_range_spec, Hin. by eexists.
Qed.

Lemma GetAll_cases answer title genres f :
  validator.In (data.Sort f) (data.SortSafelist f) = true →
  (∃ movies totalRecords,
     data.MovieModel.GetAll answer title genres f
     = Returned (Some movies,
                 data.calculateMetadata totalRecords (data.Page f) (data.PageSize f),
                 None)
     ∧ ∃ rows, answer = data.listed rows None
               ∧ data.GetAll_rows rows 0 [] = inl (totalRecords, movies))
  ∨ (∃ err, data.MovieModel.GetAll answer title genres f
            = Returned (None, data.Metadata.zero, Some err)).
Proof.
  intros Hin. unfold data.MovieModel.GetAll.
  destruct (GetAll_query_Returned f Hin) as [query ->].
  destruct answer as [err|rows final]; [right; by exists err|].
  destruct (data.GetAll_rows rows 0 []) as [[totalRecords movies]|err] eqn:Hrows;
    [|right; by exists err].
  destruct final as [err|]; [right; by exists err|].
  left. exists movies, totalRecords. split; [done|]. by exists rows.
Qed.

End Listing_facts.

(** X17.  For filters that [ValidateFilters] accepts, [GetAll] returns and
    does not panic; it returns a list of movies exactly when it returns no
    error, and the zero metadata with every error.  An answer without rows
    gives the empty list and the zero metadata.  For an answer of rows
    that all carry the same count, positive and below 2^53, it returns the
    movies of the rows in their order, the count as the total, the page and
    page size of the filters, and as last page the count divided by the
    page size, rounded up. *)
Theorem GetAll_returns_a_page
    (answer : data.listing) (title : string) (genres : list string)
    (f : data.Filters) :
  validator.Valid (data.ValidateFilters validator.New f) = true →
  ∃ movies metadata err,
    data.MovieModel.GetAll answer title genres f = Returned (movies, metadata, err)
    ∧ (err = None ↔ is_Some movies)
    ∧ (err ≠ None → metadata = data.Metadata.zero)
    ∧ (answer = data.listed [] None →
       movies = Some [] ∧ metadata = data.Metadata.zero ∧ err = None)
    ∧ (∀ rows count,
         answer = data.listed (map inl rows) None → rows ≠ [] →
         (∀ row, row ∈ rows → row.1 = count) → 0 < count < 2 ^ 53 →
         movies = Some (rows.*2) ∧ err = None
         ∧ metadata
           = {| data.Metadata.CurrentPage := data.Page f;
                data.Metadata.PageSize := data.PageSize f;
                data.Metadata.FirstPage := 1;
                data.Metadata.LastPage := cdiv count (data.PageSize f);
                data.Metadata.TotalRecords := count |}).
Proof.
  rewrite ValidateFilters_valid, !andb_true_iff.
  intros [[[[_ _] Hs1%Z.ltb_lt] Hs2%Z.leb_le] Hsort].
  destruct (GetAll_cases answer title genres f Hsort)
    as [(movies & totalRecords & Hcall & rows & -> & Hrows)|(err & Hcall)].
  - eexists _, _, _. split; [exact Hcall|]. split; [by split|]. split; [done|].
    split.
    + intros [= ->]. cbn in Hrows. by injection Hrows as <- <-.
    + intros rows' count [= ->] Hne Hcount Hrange.
      rewrite (GetAll_rows_all rows' count) in Hrows by done.
      injection Hrows as <- <-. split; [done|]. split; [done|].
      destruct rows' as [|row rows']; [done|].
      unfold data.calculateMetadata.
      destruct (Z.eqb_spec count 0); [lia|].
      rewrite float64_ceiling by lia. done.
  - eexists _, _, _. split; [exact Hcall|].
    split; [split; [done|by intros [? ?]]|]. split; [done|]. split.
    + intros ->. unfold data.MovieModel.GetAll in Hcall.
      destruct (data.GetAll_query f); [|done]. by cbn in Hcall.
    + intros rows count -> Hne Hcount _. exfalso.
      unfold data.MovieModel.GetAll in Hcall.
      destruct (data.GetAll_query f); [|done].
      rewrite (GetAll_rows_all rows count) in Hcall by done. done.
Qed.

Lemma GetAll_returns_a_page_witness :
  data.MovieModel.GetAll
    (data.listed [inl (41, casablanca_edit); inl (41, casablanca_edit)] None)
    "" [] filters_by_year_descending
  = Returned (Some [casablanca_edit; casablanca_edit],
              {| data.Metadata.CurrentPage := 1; data.Metadata.PageSize := 20;
                 data.Metadata.FirstPage := 1; data.Metadata.LastPage := 3;
                 data.Metadata.TotalRecords := 41 |},
              None).
Proof.
  destruct (GetAll_returns_a_page
              (data.listed [inl (41, casablanca_edit); inl (41, casablanca_edit)] None)
              "" [] filters_by_year_descending eq_refl)
    as (movies & metadata & err & Hcall & _ & _ & _ & Hrows).
  destruct (Hrows [(41, casablanca_edit); (41, casablanca_edit)] 41 eq_refl
              ltac:(discriminate)
              ltac:(intros row [->|Hin%list_elem_of_singleton]%elem_of_cons;
                    [reflexivity | by subst row])
              ltac:(lia)) as (-> & -> & ->).
  exact Hcall.
Defined.

(** X18.  [listMoviesHandler] returns for every query string: the sort
    value reaches [GetAll] only after [ValidateFilters] has accepted it.
    A page or page_size parameter that is present and is not an integer is
    answered 422 with the message must be an integer value under its key;
    filters that [ValidateFilters] refuses are answered 422 with at least
    one message; and movies are listed only when the filters read from the
    query string are accepted, and are then those [GetAll] returns for the
    title, genres and filters read from the query string. *)
Theorem listMoviesHandler_checks_the_query
    (answer : data.listing) (qs : url.Values) (w : api.ResponseWriter) :
  ∃ result,
    api.listMoviesHandler answer qs w = Returned result
    ∧ (∀ key, key ∈ ["page"; "page_size"] → not_an_integer key qs →
         ∃ v, result = inl (api.failedValidationResponse w (validator.Errors v))
              ∧ validator.Errors v !! key = Some "must be an integer value")
    ∧ (validator.Valid (data.ValidateFilters validator.New (filters_of qs)) = false →
       ∃ v, result = inl (api.failedValidationResponse w (validator.Errors v))
            ∧ validator.Errors v ≠ ∅)
    ∧ (∀ movies metadata,
         result = inr (movies, metadata) →
         validator.Valid (data.ValidateFilters validator.New (filters_of qs)) = true
         ∧ data.MovieModel.GetAll answer (api.readString qs "title" "")
             (api.readCSV qs "genres" []) (filters_of qs)
           = Returned (Some movies, metadata, None)).
Proof.
  unfold api.listMoviesHandler.
  destruct (api.readInt qs "page" 1 validator.New) as [page v1] eqn:Hpage.
  destruct (api.readInt qs "page_size" 20 v1) as [page_size v2] eqn:Hsize.
  assert ({| data.Page := page; data.PageSize := page_size;
             data.Sort := api.readString qs "sort" "id";
             data.SortSafelist :=
               ["id"; "title"; "year"; "runtime"; "-id"; "-title"; "-year";
                "-runtime"] |} = filters_of qs) as ->.
  { unfold filters_of. rewrite Hpage. cbn [fst].
    by rewrite <- (readInt_value qs "page_size" 20 v1), Hsize. }
  assert (v1 = snd (api.readInt qs "page" 1 validator.New)) as Hv1
    by (by rewrite Hpage).
  assert (v2 = snd (api.readInt qs "page_size" 20 v1)) as Hv2
    by (by rewrite Hsize).
  rewrite (ValidateFilters_valid_from v2).
  destruct (validator.Valid v2) eqn:Hvalid2.
  - apply (f_equal validator.Valid) in Hv2 as Hvalid2'.
    rewrite Hvalid2 in Hvalid2'. symmetry in Hvalid2'.
    apply readInt_valid in Hvalid2' as [Hvalid1 Hsize_ok].
    pose proof Hvalid1 as Hvalid1'. rewrite Hv1 in Hvalid1'.
    apply readInt_valid in Hvalid1' as [_ Hpage_ok].
    cbn [andb].
    destruct (validator.Valid (data.ValidateFilters validator.New (filters_of qs)))
      eqn:Hfilters; cbn [negb].
    + pose proof Hfilters as Hsort.
      rewrite ValidateFilters_valid, !andb_true_iff in Hsort.
      destruct Hsort as [_ Hsort].
      destruct (GetAll_cases answer (api.readString qs "title" "")
                  (api.readCSV qs "genres" []) (filters_of qs) Hsort)
        as [(movies & totalRecords & Hcall & _)|(err & Hcall)]; rewrite Hcall.
      * eexists. split; [reflexivity|]. split.
        { intros key [->|[->|[]%elem_of_nil]%elem_of_cons]%elem_of_cons Hbad;
            first [by destruct Hpage_ok | by destruct Hsize_ok]. }
        split; [done|]. by intros movies' metadata' [= <- <-].
      * eexists. split; [reflexivity|]. split.
        { intros key [->|[->|[]%elem_of_nil]%elem_of_cons]%elem_of_cons Hbad;
            first [by destruct Hpage_ok | by destruct Hsize_ok]. }
        split; [done|]. done.
    + eexists. split; [reflexivity|]. split.
      { intros key [->|[->|[]%elem_of_nil]%elem_of_cons]%elem_of_cons Hbad;
          first [by destruct Hpage_ok | by destruct Hsize_ok]. }
      split; [|done]. intros _. eexists. split; [reflexivity|].
      intros Hempty%Valid_empty.
      rewrite (ValidateFilters_valid_from v2), Hvalid2, Hfilters in Hempty. done.
  - cbn [andb negb]. eexists. split; [reflexivity|]. split.
    { intros key Hkey Hbad. eexists. split; [reflexivity|].
      apply ValidateFilters_keeps.
      apply elem_of_cons in Hkey as [->|[->|[]%elem_of_nil]%elem_of_cons].
      - rewrite Hv2. apply readInt_keeps. rewrite Hv1.
        by rewrite (readInt_not_an_integer qs "page" 1 validator.New Hbad).
      - rewrite Hv2. rewrite (readInt_not_an_integer qs "page_size" 20 v1 Hbad).
        rewrite Hv1. unfold api.readInt.
        destruct (String.eqb _ ""); [done|].
        destruct (strconv.Atoi _); [done|]. done. }
    split; [|done]. intros _. eexists. split; [reflexivity|].
    intros Hempty%Valid_empty.
    by rewrite (ValidateFilters_valid_from v2), Hvalid2 in Hempty.
Qed.
